(** * The unified-diff patch applier of [admin_rescue_v23.1.patcher.py]

    A shallow embedding of [apply_patch] and of the Python built-ins it
    calls, a line-by-line account of its run, a model of the unified diff
    that [auto_patch.py] computes with [difflib], and the properties of the
    applier: identity, round trip, mismatch detection, header malformation,
    tail preservation and the provenance of the result.

    Conventions of the embedding.
    - A Python [str] is a [string]; a character [c : ascii] stands for the
      code point of the same number, so lines range over the code points
      below 256.  The first character of a body line that the applier
      inspects is always one of the ASCII characters, and [pline[1:]] drops
      exactly that one character.
    - A list of lines is a [list string]; [result.append(x)] is
      [result ++ [x]].
    - [die(msg)] prints [msg] and raises [SystemExit]: it is the outcome
      [Exit msg].  Reading [original_lines[orig_idx]] out of range raises
      [IndexError], which nothing in the script catches: it is the outcome
      [IndexError].
    - [orig_idx] starts at [0] and is only ever incremented, so it is a
      [nat]; [old_start] is the value of [int(...) - 1] and can be negative,
      so it is a [Z].
    - [patch_idx] is the position in the patch: the loops recurse on the
      lines from [patch_idx] on. *)

From Stdlib Require Import String Ascii List ZArith Arith Bool Lia.
From Stdlib Require Import DecimalString DecimalNat Sorted.
Import ListNotations.

Local Open Scope string_scope.
Local Open Scope list_scope.
Local Open Scope nat_scope.

(* ================================================================= *)
(** ** Python built-ins used by the script *)

Module Py.

(** [s.startswith(prefix)] *)
Definition startswith (s prefix : string) : bool := String.prefix prefix s.

(** [s.startswith((p1, p2, ...))] *)
Definition startswith_any (s : string) (prefixes : list string) : bool :=
  existsb (startswith s) prefixes.

(** [s[n:]] for [n >= 0] *)
Fixpoint drop (n : nat) (s : string) : string :=
  match n, s with
  | O, _ => s
  | S _, EmptyString => EmptyString
  | S n', String _ t => drop n' t
  end.

(** [str.isspace] on one code point below 256. *)
Definition isspace (c : ascii) : bool :=
  let n := nat_of_ascii c in
  ((9 <=? n) && (n <=? 13)) || ((28 <=? n) && (n <=? 32))
  || (n =? 133) || (n =? 160).

(** The characters [int()] skips around a number: the ASCII white space
    (tab to carriage return, and the blank) and the white space beyond
    ASCII.  The separators 28 to 31 are white space for [strip] but not
    for [int]. *)
Definition int_isspace (c : ascii) : bool :=
  let n := nat_of_ascii c in
  ((9 <=? n) && (n <=? 13)) || (n =? 32) || (n =? 133) || (n =? 160).

Fixpoint lstrip_by (p : ascii -> bool) (s : string) : string :=
  match s with
  | EmptyString => EmptyString
  | String c t => if p c then lstrip_by p t else s
  end.

Fixpoint rstrip_by (p : ascii -> bool) (s : string) : string :=
  match s with
  | EmptyString => EmptyString
  | String c t =>
      match rstrip_by p t with
      | EmptyString => if p c then EmptyString else String c EmptyString
      | t' => String c t'
      end
  end.

Definition strip_by (p : ascii -> bool) (s : string) : string :=
  lstrip_by p (rstrip_by p s).

(** [s.strip()] *)
Definition strip (s : string) : string := strip_by isspace s.

(** [s.lstrip(chars)] *)
Definition lstrip (s chars : string) : string :=
  lstrip_by (fun c => existsb (Ascii.eqb c) (list_ascii_of_string chars)) s.

(** The first occurrence of [sep] in [s], scanning from the left: the
    text before it and the text after it. *)
Fixpoint partition (sep s : string) : option (string * string) :=
  if String.prefix sep s then Some (EmptyString, drop (String.length sep) s)
  else match s with
       | EmptyString => None
       | String c t =>
           match partition sep t with
           | Some (before, after) => Some (String c before, after)
           | None => None
           end
       end.

(** [s.split(sep, maxsplit)] for a non-empty [sep] *)
Fixpoint split_max (sep : string) (maxsplit : nat) (s : string) : list string :=
  match maxsplit with
  | O => [s]
  | S m =>
      match partition sep s with
      | Some (before, after) => before :: split_max sep m after
      | None => [s]
      end
  end.

(** [s.split(sep)]: a string of length [n] has at most [n] separators. *)
Definition split (sep s : string) : list string :=
  split_max sep (String.length s) s.

Definition digit_value (c : ascii) : option Z :=
  let n := nat_of_ascii c in
  if (48 <=? n) && (n <=? 57) then Some (Z.of_nat (n - 48)) else None.

(** The digits of a decimal literal: one underscore is allowed between
    two digits.  [after_digit] tells whether the previous character was a
    digit. *)
Fixpoint int_digits (s : string) (acc : Z) (after_digit : bool) : option Z :=
  match s with
  | EmptyString => if after_digit then Some acc else None
  | String c t =>
      if Ascii.eqb c "_" then
        if after_digit then int_digits t acc false else None
      else
        match digit_value c with
        | Some d => int_digits t (10 * acc + d) true
        | None => None
        end
  end.

(** [int(s)] in base ten; [None] is [ValueError].  The interpreter's
    configurable bound on the number of digits is not modelled. *)
Definition int (s : string) : option Z :=
  match strip_by int_isspace s with
  | String "+" t => int_digits t 0 false
  | String "-" t => option_map Z.opp (int_digits t 0 false)
  | t => int_digits t 0 false
  end.

(** [str(n)] for a natural number *)
Definition str (n : nat) : string := NilZero.string_of_uint (Nat.to_uint n).

(** [xs[i:j]] for [0 <= i] *)
Definition slice {A : Type} (xs : list A) (i j : nat) : list A :=
  firstn (j - i) (skipn i xs).

End Py.

(* ================================================================= *)
(** ** Outcomes of the script *)

Inductive outcome (A : Type) : Type :=
| Return (a : A)
| Exit (msg : string)
| IndexError.
Arguments Return {A} a.
Arguments Exit {A} msg.
Arguments IndexError {A}.

Definition bind {A B : Type} (m : outcome A) (k : A -> outcome B) : outcome B :=
  match m with
  | Return a => k a
  | Exit msg => Exit msg
  | IndexError => IndexError
  end.

Notation "x <- m ;; k" := (bind m (fun x => k))
  (at level 61, m at next level, right associativity).

(** [die(msg)] *)
Definition die {A : Type} (msg : string) : outcome A := Exit msg.

(** [xs[i]] for [0 <= i] *)
Definition getitem (xs : list string) (i : nat) : outcome string :=
  match nth_error xs i with
  | Some x => Return x
  | None => IndexError
  end.

(** The five messages of [apply_patch]. *)
Definition malformed_hunk_header (line : string) : string :=
  ("Malformed hunk header: " ++ Py.strip line)%string.
Definition context_mismatch : string := "Context mismatch while applying patch".
Definition removal_mismatch : string := "Removal mismatch while applying patch".
Definition unexpected_patch_line (pline : string) : string :=
  ("Unexpected patch line: " ++ Py.strip pline)%string.
Definition unexpected_patch_content (line : string) : string :=
  ("Unexpected patch content: " ++ Py.strip line)%string.

(* ================================================================= *)
(** ** [apply_patch] *)

(** The two variables the loops update besides [patch_idx]. *)
Record state : Type := mkState { orig_idx : nat; result : list string }.

Definition diff_headers : list string := ["---"; "+++"; "diff "; "index "].

(** Lines 51 to 57: the [try] block; [None] is any exception raised in it
    (a failed unpacking or a [ValueError] of [int]). *)
Definition parse_hunk_header (header : string) : option Z :=
  match Py.split_max "@@" 2 header with
  | [_; ranges; _] =>
      match Py.split_max " " 1 (Py.strip ranges) with
      | [old_range; _] =>
          match Py.int (Py.lstrip (hd EmptyString (Py.split "," old_range)) "-") with
          | Some v => Some (v - 1)%Z
          | None => None
          end
      | _ => None
      end
  | _ => None
  end.

Definition hunk_header (line : string) : outcome Z :=
  match parse_hunk_header line with
  | Some old_start => Return old_start
  | None => die (malformed_hunk_header line)
  end.

(** Lines 60 to 62: [while orig_idx < old_start], one iteration per unit of
    [fuel]; the loop runs [old_start - orig_idx] times when that is
    positive. *)
Fixpoint copy_loop (original_lines : list string) (fuel : nat) (st : state)
  : outcome state :=
  match fuel with
  | O => Return st
  | S fuel' =>
      l <- getitem original_lines (orig_idx st) ;;
      copy_loop original_lines fuel'
        {| orig_idx := S (orig_idx st); result := result st ++ [l] |}
  end.

Definition copy_before_hunk (original_lines : list string) (old_start : Z)
  (st : state) : outcome state :=
  copy_loop original_lines (Z.to_nat (old_start - Z.of_nat (orig_idx st))) st.

(** The test of lines 74 and 80:
    [orig_idx >= len(original_lines) or original_lines[orig_idx] != pline[1:]] *)
Definition mismatch (original_lines : list string) (pline : string) (st : state)
  : outcome bool :=
  if length original_lines <=? orig_idx st then Return true
  else l <- getitem original_lines (orig_idx st) ;;
       Return (negb (String.eqb l (Py.drop 1 pline))).

(** Lines 73 to 88: one body line that does not start a new hunk. *)
Definition hunk_line (original_lines : list string) (pline : string) (st : state)
  : outcome state :=
  if Py.startswith pline " " then
    bad <- mismatch original_lines pline st ;;
    if (bad : bool) then die context_mismatch
    else
      l <- getitem original_lines (orig_idx st) ;;
      Return {| orig_idx := S (orig_idx st); result := result st ++ [l] |}
  else if Py.startswith pline "-" then
    bad <- mismatch original_lines pline st ;;
    if (bad : bool) then die removal_mismatch
    else Return {| orig_idx := S (orig_idx st); result := result st |}
  else if Py.startswith pline "+" then
    Return {| orig_idx := orig_idx st; result := result st ++ [Py.drop 1 pline] |}
  else die (unexpected_patch_line pline).

Section Loops.

Variable original_lines : list string.

Section Hunk.
(** What the outer loop does with the lines from [patch_idx] on when
    the inner loop leaves through [break]. *)
Variable outer : list string -> state -> outcome state.

(** Lines 67 to 90: the inner [while], over the lines from [patch_idx]
    on.  When the lines run out the outer loop ends as well. *)
Fixpoint hunk_loop (patch_lines : list string) (st : state) : outcome state :=
  match patch_lines with
  | [] => Return st
  | pline :: rest =>
      if Py.startswith pline "@@" then outer patch_lines st
      else st' <- hunk_line original_lines pline st ;; hunk_loop rest st'
  end.
End Hunk.

(** Lines 41 to 93: the outer [while], over the lines from [patch_idx] on. *)
Fixpoint patch_loop (patch_lines : list string) (st : state) : outcome state :=
  match patch_lines with
  | [] => Return st
  | line :: rest =>
      if Py.startswith_any line diff_headers then patch_loop rest st
      else if Py.startswith line "@@" then
        old_start <- hunk_header line ;;
        st1 <- copy_before_hunk original_lines old_start st ;;
        hunk_loop patch_loop rest st1
      else die (unexpected_patch_content line)
  end.

End Loops.

Definition apply_patch (original_lines patch_lines : list string)
  : outcome (list string) :=
  st <- patch_loop original_lines patch_lines {| orig_idx := 0; result := [] |} ;;
  Return (result st ++ skipn (orig_idx st) original_lines).

(* ================================================================= *)
(** ** The run of the applier, line by line *)

(** The applier is in one of two places when it looks at a patch line: in
    the outer loop, or in the inner loop of a hunk body. *)
Inductive mode : Type := Scanning | InHunk.

(** One iteration of the outer loop (lines 42 to 64, and 93). *)
Definition scan_line (original_lines : list string) (line : string) (st : state)
  : outcome (mode * state) :=
  if Py.startswith_any line diff_headers then Return (Scanning, st)
  else if Py.startswith line "@@" then
    old_start <- hunk_header line ;;
    st1 <- copy_before_hunk original_lines old_start st ;;
    Return (InHunk, st1)
  else die (unexpected_patch_content line).

(** What the applier does with one patch line: in a hunk body a line that
    starts with "@@" leaves the inner loop and is looked at again by the
    outer loop. *)
Definition line_step (original_lines : list string) (m : mode) (line : string)
  (st : state) : outcome (mode * state) :=
  match m with
  | Scanning => scan_line original_lines line st
  | InHunk =>
      if Py.startswith line "@@" then scan_line original_lines line st
      else st' <- hunk_line original_lines line st ;; Return (InHunk, st')
  end.

(** The place and the state reached after a sequence of patch lines. *)
Fixpoint run (original_lines : list string) (m : mode) (lines : list string)
  (st : state) : outcome (mode * state) :=
  match lines with
  | [] => Return (m, st)
  | line :: rest =>
      r <- line_step original_lines m line st ;;
      run original_lines (fst r) rest (snd r)
  end.

Definition initial : state := {| orig_idx := 0; result := [] |}.

(** A hunk header the [try] block rejects. *)
Definition malformed (line : string) : Prop :=
  Py.startswith line "@@" = true /\ parse_hunk_header line = None.

(** The ways of a header to be malformed that the description names: fewer
    than two "@@" delimiters, no blank between the two range tokens, and an
    old range whose leading integer [int] rejects. *)
Inductive malformed_by : string -> Prop :=
| missing_delimiter (line : string) :
    Py.startswith line "@@" = true ->
    length (Py.split_max "@@" 2 line) <> 3 ->
    malformed_by line
| missing_blank (line before ranges after : string) :
    Py.startswith line "@@" = true ->
    Py.split_max "@@" 2 line = [before; ranges; after] ->
    length (Py.split_max " " 1 (Py.strip ranges)) <> 2 ->
    malformed_by line
| non_numeric (line before ranges after old_range new_range : string) :
    Py.startswith line "@@" = true ->
    Py.split_max "@@" 2 line = [before; ranges; after] ->
    Py.split_max " " 1 (Py.strip ranges) = [old_range; new_range] ->
    Py.int (Py.lstrip (hd EmptyString (Py.split "," old_range)) "-") = None ->
    malformed_by line.

(** What the states of a run satisfy: the cursor is within the original
    and every line of the result has the property [Q]. *)
Definition good (original_lines : list string) (Q : string -> Prop) (st : state)
  : Prop :=
  orig_idx st <= length original_lines /\ Forall Q (result st).

(** A line of text with its terminator. *)
Definition LF : ascii := "010"%char.
Definition ln (s : string) : string := (s ++ String LF EmptyString)%string.

(** The lines of the hunk bodies of a patch: the lines after the first
    hunk header that are not hunk headers themselves. *)
Fixpoint body_lines (m : mode) (patch_lines : list string) : list string :=
  match patch_lines with
  | [] => []
  | line :: rest =>
      if Py.startswith line "@@" then body_lines InHunk rest
      else
        match m with
        | Scanning => body_lines Scanning rest
        | InHunk => line :: body_lines InHunk rest
        end
  end.

(** An insertion line of a patch, that is a line of a hunk body that
    starts with "+", and the line it inserts.  A "+++" line before the
    first hunk header is a header line and inserts nothing. *)
Definition inserted_by (patch_lines : list string) (l : string) : Prop :=
  exists pline, In pline (body_lines Scanning patch_lines)
                /\ Py.startswith pline "+" = true
                /\ l = Py.drop 1 pline.

(* ================================================================= *)
(** ** The unified diff *)

(** Modelled from the spec: the unified diff of the round-trip property.
    The repository computes it with [difflib.unified_diff] (in
    [auto_patch.py]); the code of [difflib] is Python's standard library
    and is not part of the repository.  The model follows [unified_diff],
    [_format_range_unified] and the methods [get_grouped_opcodes],
    [get_opcodes], [get_matching_blocks] and [find_longest_match] of
    [SequenceMatcher], as [unified_diff] creates it: without [isjunk] and
    with [autojunk]. *)
Module Difflib.

Inductive tag : Type := Replace | Delete | Insert | Equal.

(** The 5-tuple [(tag, i1, i2, j1, j2)]. *)
Record opcode : Type :=
  mkOp { op_tag : tag; i1 : nat; i2 : nat; j1 : nat; j2 : nat }.

Definition is_equal (t : tag) : bool :=
  match t with Equal => true | _ => false end.

Section Grouping.
Variable n : nat.

(** [codes[0] = tag, max(i1, i2-n), i2, max(j1, j2-n), j2] *)
Definition trim_leading (op : opcode) : opcode :=
  mkOp (op_tag op) (Nat.max (i1 op) (i2 op - n)) (i2 op)
       (Nat.max (j1 op) (j2 op - n)) (j2 op).

(** [codes[-1] = tag, i1, min(i2, i1+n), j1, min(j2, j1+n)] *)
Definition trim_trailing (op : opcode) : opcode :=
  mkOp (op_tag op) (i1 op) (Nat.min (i2 op) (i1 op + n))
       (j1 op) (Nat.min (j2 op) (j1 op + n)).

(** The two fix-ups of [get_grouped_opcodes]: the first and the last
    opcode are trimmed when they show no change. *)
Definition fix_first (codes : list opcode) : list opcode :=
  match codes with
  | op :: rest => if is_equal (op_tag op) then trim_leading op :: rest else codes
  | [] => codes
  end.

Fixpoint fix_last (codes : list opcode) : list opcode :=
  match codes with
  | [] => []
  | [op] => if is_equal (op_tag op) then [trim_trailing op] else [op]
  | op :: rest => op :: fix_last rest
  end.

(** The [for] loop of [get_grouped_opcodes], with the pending [group],
    and the test after it. *)
Fixpoint group_loop (codes : list opcode) (group : list opcode)
  : list (list opcode) :=
  match codes with
  | [] =>
      match group with
      | [] => []
      | [op] => if is_equal (op_tag op) then [] else [group]
      | _ => [group]
      end
  | op :: rest =>
      if is_equal (op_tag op) && (n + n <? i2 op - i1 op) then
        (group ++ [trim_trailing op]) :: group_loop rest [trim_leading op]
      else group_loop rest (group ++ [op])
  end.

(** [get_grouped_opcodes(n)]; without opcodes the codes are
    [[("equal", 0, 1, 0, 1)]]. *)
Definition get_grouped_opcodes (codes : list opcode) : list (list opcode) :=
  let codes := match codes with [] => [mkOp Equal 0 1 0 1] | _ => codes end in
  group_loop (fix_last (fix_first codes)) [].
End Grouping.

(** [_format_range_unified(start, stop)], for [start <= stop] *)
Definition format_range_unified (start stop : nat) : string :=
  let beginning := start + 1 in
  let length := stop - start in
  if length =? 1 then Py.str beginning
  else
    let beginning := if length =? 0 then beginning - 1 else beginning in
    (Py.str beginning ++ "," ++ Py.str length)%string.

Section Lines.
Variables a b : list string.

(** The body lines one opcode yields. *)
Definition opcode_lines (op : opcode) : list string :=
  match op_tag op with
  | Equal => map (String " ") (Py.slice a (i1 op) (i2 op))
  | Replace => map (String "-") (Py.slice a (i1 op) (i2 op))
               ++ map (String "+") (Py.slice b (j1 op) (j2 op))
  | Delete => map (String "-") (Py.slice a (i1 op) (i2 op))
  | Insert => map (String "+") (Py.slice b (j1 op) (j2 op))
  end.

Definition no_op : opcode := mkOp Equal 0 0 0 0.

(** The header of a group and its body lines; [first] and [last] are
    [group[0]] and [group[-1]] of a group that is never empty. *)
Definition hunk_lines (lineterm : string) (group : list opcode) : list string :=
  let first := hd no_op group in
  let last := last group no_op in
  let file1_range := format_range_unified (i1 first) (i2 last) in
  let file2_range := format_range_unified (j1 first) (j2 last) in
  ("@@ -" ++ file1_range ++ " +" ++ file2_range ++ " @@" ++ lineterm)%string
  :: flat_map opcode_lines group.

(** ['\t{}'.format(date) if date else ''] *)
Definition date_suffix (date : string) : string :=
  match date with
  | EmptyString => EmptyString
  | _ => String (ascii_of_nat 9) date
  end.

(** The lines [unified_diff] yields once the matcher has given its
    opcodes. *)
Definition unified_diff_of_opcodes (codes : list opcode)
  (fromfile tofile fromfiledate tofiledate : string) (n : nat)
  (lineterm : string) : list string :=
  match get_grouped_opcodes n codes with
  | [] => []
  | groups =>
      ("--- " ++ fromfile ++ date_suffix fromfiledate ++ lineterm)%string
      :: ("+++ " ++ tofile ++ date_suffix tofiledate ++ lineterm)%string
      :: flat_map (hunk_lines lineterm) groups
  end.

(** The contract of [get_opcodes]: the tuples tile [a] and [b] from
    [(0, 0)] to [(len(a), len(b))], an [Equal] tuple covers equal
    slices, a [Delete] tuple has [j1 = j2] and an [Insert] tuple has
    [i1 = i2]. *)
Definition tag_ok (op : opcode) : bool :=
  match op_tag op with
  | Equal =>
      if list_eq_dec string_dec (Py.slice a (i1 op) (i2 op))
                                (Py.slice b (j1 op) (j2 op))
      then true else false
  | Delete => j1 op =? j2 op
  | Insert => i1 op =? i2 op
  | Replace => true
  end.

Fixpoint tiles (i j : nat) (codes : list opcode) : bool :=
  match codes with
  | [] => (i =? length a) && (j =? length b)
  | op :: rest =>
      (i1 op =? i) && (j1 op =? j) && (i1 op <=? i2 op) && (j1 op <=? j2 op)
      && tag_ok op && tiles (i2 op) (j2 op) rest
  end.

Definition valid_opcodes (codes : list opcode) : bool := tiles 0 0 codes.

(** *** [SequenceMatcher(None, a, b)] *)

(** [Match(a, b, size)] and the region [(alo, ahi, blo, bhi)] of the
    queue. *)
Definition block : Type := nat * nat * nat.
Definition region : Type := nat * nat * nat * nat.

(** The positions of [x] in [b], in increasing order: [b2j[x]] as
    [__chain_b] first builds it. *)
Fixpoint indices_from (x : string) (ys : list string) (j : nat) : list nat :=
  match ys with
  | [] => []
  | y :: ys' =>
      if String.eqb y x then j :: indices_from x ys' (S j)
      else indices_from x ys' (S j)
  end.

(** With [autojunk] and at least 200 elements, an element that fills more
    than one percent of [b], plus one, is popular and loses its entry. *)
Definition is_popular (x : string) : bool :=
  (200 <=? length b)
  && (length b / 100 + 1 <? length (indices_from x b 0)).

(** [b2j.get(x, [])]; without [isjunk] no element is junk. *)
Definition b2j_get (x : string) : list nat :=
  if is_popular x then [] else indices_from x b 0.

(** [j2len] and [newj2len] are only read through [get(_, 0)]: a dict is
    the function that maps the missing keys to [0].  [j2len.get(j-1, 0)]
    is [0] for [j = 0], where the key is [-1]. *)
Definition j2len_get_before (j2len : nat -> nat) (j : nat) : nat :=
  match j with
  | O => 0
  | S j' => j2len j'
  end.

Definition dict_set (d : nat -> nat) (j k : nat) : nat -> nat :=
  fun x => if x =? j then k else d x.

(** The loop [for j in b2j.get(a[i], nothing)] of [find_longest_match];
    [i - k + 1] is written [i + 1 - k]. *)
Fixpoint inner_loop (j2len : nat -> nat) (i blo bhi : nat) (js : list nat)
  (newj2len : nat -> nat) (best : block) : (nat -> nat) * block :=
  match js with
  | [] => (newj2len, best)
  | j :: js' =>
      if j <? blo then inner_loop j2len i blo bhi js' newj2len best
      else if bhi <=? j then (newj2len, best)
      else
        let k := j2len_get_before j2len j + 1 in
        let newj2len := dict_set newj2len j k in
        let best :=
          let '(_, _, bestsize) := best in
          if bestsize <? k then (i + 1 - k, j + 1 - k, k) else best in
        inner_loop j2len i blo bhi js' newj2len best
  end.

(** The loop [for i in range(alo, ahi)], with [count] iterations left. *)
Fixpoint outer_loop (count i blo bhi : nat) (j2len : nat -> nat) (best : block)
  : block :=
  match count with
  | O => best
  | S count' =>
      let '(newj2len, best) :=
        inner_loop j2len i blo bhi (b2j_get (nth i a EmptyString))
          (fun _ => 0) best in
      outer_loop count' (S i) blo bhi newj2len best
  end.

(** The first [while] that extends the best match: each iteration
    decrements [besti]. *)
Fixpoint extend_left (alo blo besti bestj bestsize : nat) : block :=
  match besti with
  | O => (besti, bestj, bestsize)
  | S besti' =>
      if (alo <? besti) && (blo <? bestj)
         && String.eqb (nth besti' a EmptyString) (nth (bestj - 1) b EmptyString)
      then extend_left alo blo besti' (bestj - 1) (bestsize + 1)
      else (besti, bestj, bestsize)
  end.

(** The second [while]: [room] is [ahi - (besti + bestsize)]. *)
Fixpoint extend_right (room bhi besti bestj bestsize : nat) : block :=
  match room with
  | O => (besti, bestj, bestsize)
  | S room' =>
      if (bestj + bestsize <? bhi)
         && String.eqb (nth (besti + bestsize) a EmptyString)
              (nth (bestj + bestsize) b EmptyString)
      then extend_right room' bhi besti bestj (bestsize + 1)
      else (besti, bestj, bestsize)
  end.

(** [find_longest_match(alo, ahi, blo, bhi)], for [alo <= ahi <= len(a)]
    and [blo <= bhi <= len(b)].  The last two loops of the function extend
    the match by junk elements, and there are none. *)
Definition find_longest_match (alo ahi blo bhi : nat) : block :=
  let '(besti, bestj, bestsize) :=
    outer_loop (ahi - alo) alo blo bhi (fun _ => 0) (alo, blo, 0) in
  let '(besti, bestj, bestsize) := extend_left alo blo besti bestj bestsize in
  extend_right (ahi - (besti + bestsize)) bhi besti bestj bestsize.

(** The loop [while queue] of [get_matching_blocks]: the head of the list
    is the end of the Python list, where [pop] and [append] work.  [None]
    is a queue that outlives the [fuel]. *)
Fixpoint blocks_loop (fuel : nat) (queue : list region)
  (matching_blocks : list block) : option (list block) :=
  match queue with
  | [] => Some matching_blocks
  | (alo, ahi, blo, bhi) :: queue =>
      match fuel with
      | O => None
      | S fuel' =>
          let '(i, j, k) := find_longest_match alo ahi blo bhi in
          if k =? 0 then blocks_loop fuel' queue matching_blocks
          else
            let queue :=
              if (alo <? i) && (blo <? j) then (alo, i, blo, j) :: queue
              else queue in
            let queue :=
              if (i + k <? ahi) && (j + k <? bhi) then (i + k, ahi, j + k, bhi) :: queue
              else queue in
            blocks_loop fuel' queue (matching_blocks ++ [(i, j, k)])
      end
  end.

(** The order of tuples. *)
Definition block_leb (x y : block) : bool :=
  let '(xi, xj, xk) := x in
  let '(yi, yj, yk) := y in
  (xi <? yi) || ((xi =? yi) && ((xj <? yj) || ((xj =? yj) && (xk <=? yk)))).

(** [matching_blocks.sort()] *)
Fixpoint insert_block (x : block) (l : list block) : list block :=
  match l with
  | [] => [x]
  | y :: l' => if block_leb x y then x :: l else y :: insert_block x l'
  end.

Fixpoint sort_blocks (l : list block) : list block :=
  match l with
  | [] => []
  | x :: l' => insert_block x (sort_blocks l')
  end.

(** The loop that collapses adjacent blocks, with the block
    [(i1, j1, k1)] to compare against, and the test after it. *)
Fixpoint collapse (pending : block) (blocks : list block) : list block :=
  let '(i1, j1, k1) := pending in
  match blocks with
  | [] => if k1 =? 0 then [] else [pending]
  | (i2, j2, k2) :: rest =>
      if (i1 + k1 =? i2) && (j1 + k1 =? j2) then collapse (i1, j1, k1 + k2) rest
      else (if k1 =? 0 then [] else [pending]) ++ collapse (i2, j2, k2) rest
  end.

(** [get_matching_blocks()]: every region the loop takes from the queue
    puts at most two smaller ones back, so that [2 * len(a) + 1]
    iterations empty it. *)
Definition get_matching_blocks : option (list block) :=
  match blocks_loop (2 * length a + 1) [(0, length a, 0, length b)] [] with
  | Some matching_blocks =>
      Some (collapse (0, 0, 0) (sort_blocks matching_blocks)
            ++ [(length a, length b, 0)])
  | None => None
  end.

(** The loop of [get_opcodes], from [(i, j)] on. *)
Fixpoint opcodes_from (i j : nat) (blocks : list block) : list opcode :=
  match blocks with
  | [] => []
  | (ai, bj, size) :: rest =>
      (if (i <? ai) && (j <? bj) then [mkOp Replace i ai j bj]
       else if i <? ai then [mkOp Delete i ai j bj]
       else if j <? bj then [mkOp Insert i ai j bj]
       else [])
      ++ (if size =? 0 then [] else [mkOp Equal ai (ai + size) bj (bj + size)])
      ++ opcodes_from (ai + size) (bj + size) rest
  end.

(** [get_opcodes()] *)
Definition get_opcodes : option (list opcode) :=
  match get_matching_blocks with
  | Some blocks => Some (opcodes_from 0 0 blocks)
  | None => None
  end.

(** [unified_diff(a, b, fromfile, tofile, fromfiledate, tofiledate, n,
    lineterm)] *)
Definition unified_diff (fromfile tofile fromfiledate tofiledate : string)
  (n : nat) (lineterm : string) : option (list string) :=
  match get_opcodes with
  | Some codes =>
      Some (unified_diff_of_opcodes codes fromfile tofile fromfiledate
              tofiledate n lineterm)
  | None => None
  end.
End Lines.

End Difflib.

(* ================================================================= *)
(** ** Vocabulary of the round-trip proof *)

(** Every character of a string passes a test. *)
Fixpoint all_chars (p : ascii -> bool) (s : string) : bool :=
  match s with
  | EmptyString => true
  | String c t => p c && all_chars p t
  end.

Definition is_digit (c : ascii) : bool :=
  match Py.digit_value c with Some _ => true | None => false end.

(** The characters of a range of a hunk header: digits and the comma. *)
Definition is_range_char (c : ascii) : bool := is_digit c || Ascii.eqb c ",".

Section Scripts.

Variables a b : list string.

(** The lines [a[i:i']] and [b[j:j']] exist and are the same lines. *)
Definition gap (i j i' j' : nat) : Prop :=
  i <= i' /\ i' <= length a /\ j <= j' /\ j' <= length b
  /\ Py.slice a i i' = Py.slice b j j'.

(** An opcode that lies within the two sequences and keeps the promise of
    its tag. *)
Definition op_ok (op : Difflib.opcode) : Prop :=
  Difflib.i1 op <= Difflib.i2 op /\ Difflib.i2 op <= length a
  /\ Difflib.j1 op <= Difflib.j2 op /\ Difflib.j2 op <= length b
  /\ match Difflib.op_tag op with
     | Difflib.Equal =>
         Py.slice a (Difflib.i1 op) (Difflib.i2 op)
         = Py.slice b (Difflib.j1 op) (Difflib.j2 op)
     | Difflib.Delete => Difflib.j1 op = Difflib.j2 op
     | Difflib.Insert => Difflib.i1 op = Difflib.i2 op
     | Difflib.Replace => True
     end.

(** Opcodes that follow one another from [(i, j)] to [(i', j')]. *)
Fixpoint chain (i j : nat) (ops : list Difflib.opcode) (i' j' : nat) : Prop :=
  match ops with
  | [] => i = i' /\ j = j'
  | op :: rest =>
      Difflib.i1 op = i /\ Difflib.j1 op = j /\ op_ok op
      /\ chain (Difflib.i2 op) (Difflib.j2 op) rest i' j'
  end.

(** Groups of opcodes that, from [(i, j)] on, describe how to turn [a]
    into [b]: between two groups, before the first and after the last the
    two sequences agree, and a group with an empty old range starts at
    the very beginning of [a]. *)
Inductive hunks : nat -> nat -> list (list Difflib.opcode) -> Prop :=
| hunks_nil (i j : nat) : gap i j (length a) (length b) -> hunks i j []
| hunks_cons (i j gi gj i' j' : nat) (g : list Difflib.opcode)
    (gs : list (list Difflib.opcode)) :
    g <> [] -> gap i j gi gj -> gi < i' \/ gi = 0 ->
    chain gi gj g i' j' -> hunks i' j' gs -> hunks i j (g :: gs).

(** *** The matcher *)

(** The [k] elements of [a] from [i] on are the [k] elements of [b] from
    [j] on. *)
Definition run_of (i j k : nat) : Prop :=
  forall t, t < k -> nth (i + t) a EmptyString = nth (j + t) b EmptyString.

(** A match within the region [(alo, ahi, blo, bhi)]. *)
Definition good_match (alo ahi blo bhi : nat) (x : Difflib.block) : Prop :=
  let '(i, j, k) := x in
  alo <= i /\ i + k <= ahi /\ blo <= j /\ j + k <= bhi /\ run_of i j k.

(** What [j2len] records before the iteration [i]: the matches that end
    with [a[i-1]] and [b[j]]. *)
Definition j2len_ok (alo ahi blo bhi i : nat) (j2len : nat -> nat) : Prop :=
  forall j, 0 < j2len j ->
    j2len j <= i /\ j2len j <= j + 1
    /\ good_match alo ahi blo bhi (i - j2len j, j + 1 - j2len j, j2len j).

Definition region_ok (r : Difflib.region) : Prop :=
  let '(alo, ahi, blo, bhi) := r in
  alo <= ahi /\ ahi <= length a /\ blo <= bhi /\ bhi <= length b.

(** A matching block, as a stretch on which the sequences agree. *)
Definition block_ok (x : Difflib.block) : Prop :=
  let '(i, j, k) := x in gap i j (i + k) (j + k).

(** Matching blocks in increasing order, from [(i, j)] on. *)
Fixpoint blocks_chain (i j : nat) (blocks : list Difflib.block) : Prop :=
  match blocks with
  | [] => i <= length a /\ j <= length b
  | (bi, bj, k) :: rest =>
      i <= bi /\ j <= bj /\ gap bi bj (bi + k) (bj + k)
      /\ blocks_chain (bi + k) (bj + k) rest
  end.

End Scripts.

(** The region a block covers. *)
Definition region_of (x : Difflib.block) : Difflib.region :=
  let '(i, j, k) := x in (i, i + k, j, j + k).

(** One region lies before another, in [a] and in [b]. *)
Definition before (r s : Difflib.region) : Prop :=
  let '(_, r_ahi, _, r_bhi) := r in
  let '(s_alo, _, s_blo, _) := s in
  r_ahi <= s_alo /\ r_bhi <= s_blo.

Definition apart (r s : Difflib.region) : Prop := before r s \/ before s r.

(** One region lies within another. *)
Definition within (r s : Difflib.region) : Prop :=
  let '(r_alo, r_ahi, r_blo, r_bhi) := r in
  let '(s_alo, s_ahi, s_blo, s_bhi) := s in
  s_alo <= r_alo /\ r_ahi <= s_ahi /\ s_blo <= r_blo /\ r_bhi <= s_bhi.

(** One block ends before another starts. *)
Definition block_before (x y : Difflib.block) : Prop :=
  before (region_of x) (region_of y).

(** What the loop of [get_matching_blocks] maintains: the regions of the
    queue and the blocks found so far are pairwise apart, the regions lie
    within the sequences and the blocks are non-empty matches. *)
Definition matcher_inv (a b : list string) (queue : list Difflib.region)
  (blocks : list Difflib.block) : Prop :=
  Forall (region_ok a b) queue
  /\ Forall (fun x => block_ok a b x /\ 1 <= snd x) blocks
  /\ ForallOrdPairs apart queue
  /\ (forall r x, In r queue -> In x blocks -> apart r (region_of x))
  /\ ForallOrdPairs (fun x y => apart (region_of x) (region_of y)) blocks.

(** The work a queue stands for: every region can give a block and two
    smaller regions. *)
Fixpoint queue_weight (queue : list Difflib.region) : nat :=
  match queue with
  | [] => 0
  | (alo, ahi, _, _) :: rest => 2 * (ahi - alo) + 1 + queue_weight rest
  end.


(* ================================================================= *)
(** ** [read_lines] and [write_lines]: text and lines *)

Module Text.

(** The characters at which [str.splitlines] ends a line, among the code
    points below 256: line feed, vertical tab, form feed, carriage return,
    the separators 28 to 30 and the next-line character.  A carriage
    return followed by a line feed ends one line. *)
Definition is_linebreak (c : ascii) : bool :=
  let n := nat_of_ascii c in
  ((10 <=? n) && (n <=? 13)) || ((28 <=? n) && (n <=? 30)) || (n =? 133).

Definition CR : ascii := "013"%char.

(** [s.splitlines(keepends=True)] *)
Fixpoint splitlines (s : string) : list string :=
  match s with
  | EmptyString => []
  | String c t =>
      if is_linebreak c then
        match t with
        | String c' t' =>
            if Ascii.eqb c CR && Ascii.eqb c' LF
            then String c (String c' EmptyString) :: splitlines t'
            else String c EmptyString :: splitlines t
        | EmptyString => [String c EmptyString]
        end
      else
        match splitlines t with
        | [] => [String c EmptyString]
        | l :: ls => String c l :: ls
        end
  end.

(** ["".join(lines)] *)
Fixpoint join (lines : list string) : string :=
  match lines with
  | [] => EmptyString
  | l :: rest => (l ++ join rest)%string
  end.

(** The shape of one line: [Some true] for text without line break
    followed by one line terminator, [Some false] for non-empty text
    without line break and without terminator, [None] for anything else. *)
Fixpoint line_kind (l : string) : option bool :=
  match l with
  | EmptyString => None
  | String c t =>
      if is_linebreak c then
        match t with
        | EmptyString => Some true
        | String c' EmptyString =>
            if Ascii.eqb c CR && Ascii.eqb c' LF then Some true else None
        | _ => None
        end
      else
        match t with
        | EmptyString => Some false
        | _ => line_kind t
        end
  end.

Definition is_terminated (l : string) : bool :=
  match line_kind l with Some true => true | _ => false end.

Definition is_line (l : string) : bool :=
  match line_kind l with Some _ => true | None => false end.

Fixpoint last_char (l : string) : option ascii :=
  match l with
  | EmptyString => None
  | String c EmptyString => Some c
  | String _ t => last_char t
  end.

(** A line that ends with a lone carriage return, followed by a line that
    starts with a line feed: written one after the other they read back
    as one line. *)
Definition seam (l l' : string) : bool :=
  match last_char l, l' with
  | Some c, String c' _ => Ascii.eqb c CR && Ascii.eqb c' LF
  | _, _ => false
  end.

(** The lists of lines that [splitlines] returns: every line but the last
    is terminated, the last is a line, and no two lines form a seam. *)
Fixpoint well_split (lines : list string) : bool :=
  match lines with
  | [] => true
  | [l] => is_line l
  | l :: ((l' :: _) as rest) =>
      is_terminated l && negb (seam l l') && well_split rest
  end.

(** The translation of line ends of a text-mode read ([newline=None], as
    [Path.read_text] and [open(path, "r")] read): a carriage return
    followed by a line feed, and a carriage return alone, are delivered as
    one line feed. *)
Fixpoint universal_newlines (s : string) : string :=
  match s with
  | EmptyString => EmptyString
  | String c t =>
      if Ascii.eqb c CR then
        match t with
        | String c' t' =>
            if Ascii.eqb c' LF then String LF (universal_newlines t')
            else String LF (universal_newlines t)
        | EmptyString => String LF EmptyString
        end
      else String c (universal_newlines t)
  end.

(** A text without carriage return. *)
Definition has_no_CR (s : string) : bool :=
  all_chars (fun c => negb (Ascii.eqb c CR)) s.

(** A character that ends no line. *)
Definition is_plain (c : ascii) : bool := negb (is_linebreak c).

(** A line as a patch file holds it: terminated, and not starting with a
    line feed. *)
Definition patch_line (l : string) : bool :=
  is_terminated l
  && match l with
     | String c _ => negb (Ascii.eqb c LF)
     | EmptyString => false
     end.

(** A text in which every line is terminated. *)
Definition ends_with_newline (text : string) : bool :=
  forallb is_terminated (splitlines text).

End Text.

(* ================================================================= *)
(** ** What a patch asks for *)

Definition count_starting (prefix : string) (lines : list string) : nat :=
  length (filter (fun l => Py.startswith l prefix) lines).

Definition insertions (patch_lines : list string) : nat :=
  count_starting "+" (body_lines Scanning patch_lines).

Definition deletions (patch_lines : list string) : nat :=
  count_starting "-" (body_lines Scanning patch_lines).

(** An outcome other than a result: [die] or an exception. *)
Definition failed {A : Type} (r : outcome A) : bool :=
  match r with
  | Return _ => false
  | _ => true
  end.

(** The first characters of the four kinds of lines a hunk body may hold. *)
Definition body_marks : list string := ["@@"; " "; "-"; "+"].

(** A deletion line of a patch, and a line it deletes. *)
Definition deleted_by (patch_lines : list string) (l : string) : Prop :=
  exists pline, In pline patch_lines /\ Py.startswith pline "-" = true
                /\ l = Py.drop 1 pline.

(** What one patch line does when the applier accepts it: it is skipped
    before the first hunk, it opens a hunk after a stretch of the original
    is copied, or, in a hunk body, it keeps the line under the cursor,
    deletes it, or inserts a line. *)
Inductive step_effect (O : list string) (line : string) (st : state)
  : mode -> mode -> state -> Prop :=
| skips :
    Py.startswith line "@@" = false ->
    step_effect O line st Scanning Scanning st
| opens_hunk (m : mode) (k : nat) :
    Py.startswith line "@@" = true ->
    orig_idx st + k <= length O ->
    step_effect O line st m InHunk
      {| orig_idx := orig_idx st + k;
         result := result st ++ Py.slice O (orig_idx st) (orig_idx st + k) |}
| keeps :
    Py.startswith line "@@" = false ->
    Py.startswith line " " = true ->
    nth_error O (orig_idx st) = Some (Py.drop 1 line) ->
    step_effect O line st InHunk InHunk
      {| orig_idx := S (orig_idx st);
         result := result st ++ [Py.drop 1 line] |}
| deletes :
    Py.startswith line "@@" = false ->
    Py.startswith line " " = false ->
    Py.startswith line "-" = true ->
    nth_error O (orig_idx st) = Some (Py.drop 1 line) ->
    step_effect O line st InHunk InHunk
      {| orig_idx := S (orig_idx st); result := result st |}
| inserts :
    Py.startswith line "@@" = false ->
    Py.startswith line " " = false ->
    Py.startswith line "-" = false ->
    Py.startswith line "+" = true ->
    step_effect O line st InHunk InHunk
      {| orig_idx := orig_idx st;
         result := result st ++ [Py.drop 1 line] |}.

(* ================================================================= *)
(** ** [main] *)

(** How a run of the script ends: it returns, it leaves through
    [sys.exit(code)], or an exception that nothing catches ends it. *)
Inductive ending : Type :=
| Done
| SystemExit (code : nat)
| Uncaught (exception : string).

Section Script.

(** The file system and the calls of [pathlib] the script makes on it are
    parameters.  [read_text] returns the text or the text of the exception
    it raises; [with_suffix] and [rename] return [None] when they raise,
    and a [rename] that raises changes nothing; [write_text] returns the
    file system it leaves and the text of the exception it raises, if
    any.  [exists] and [read_text] do not change the file system, and the
    text [read_text] returns is the text as Python delivers it, after the
    translation of line ends of a text-mode read. *)
Variable world : Type.
Variable path : Type.
Variable Path : string -> path.
Variable path_str : path -> string.
Variable path_exists : path -> world -> bool.
Variable read_text : path -> world -> string + string.
Variable suffix : path -> string.
Variable with_suffix : path -> string -> option path.
Variable rename : path -> path -> world -> option world.
Variable write_text : path -> string -> world -> world * option string.

(** The file system and what the script has printed so far. *)
Record process : Type :=
  mkProcess { fs : world; stdout : list string; stderr : list string }.

(** [print(text)] *)
Definition print (text : string) (p : process) : process :=
  {| fs := fs p; stdout := stdout p ++ [text]; stderr := stderr p |}.

(** [die(msg)], lines 20 to 22 *)
Definition die_process (msg : string) (p : process) : ending * process :=
  (SystemExit 1,
   {| fs := fs p; stdout := stdout p;
      stderr := stderr p ++ [("ERROR: " ++ msg)%string] |}).

(** [read_lines(path)], lines 24 to 28: the lines, or the way [die] ends
    the run. *)
Definition read_lines (pth : path) (p : process)
  : list string + ending * process :=
  match read_text pth (fs p) with
  | inl text => inl (Text.splitlines text)
  | inr e =>
      inr (die_process ("Failed to read " ++ path_str pth ++ ": " ++ e) p)
  end.

(** [write_lines(path, lines)], lines 30 to 34 *)
Definition write_lines (pth : path) (lines : list string) (p : process)
  : process + ending * process :=
  let (w, raised) := write_text pth (Text.join lines) (fs p) in
  let p' := {| fs := w; stdout := stdout p; stderr := stderr p |} in
  match raised with
  | None => inl p'
  | Some e =>
      inr (die_process ("Failed to write " ++ path_str pth ++ ": " ++ e) p')
  end.

Definition usage : string :=
  "Usage: python3 apply_unified_patch.py <original_file> <patch_file>".

(** [main()], lines 99 to 124, with [sys.argv], the value of
    [int(time.time())] and the file system it starts in. *)
Definition main (argv : list string) (now : nat) (w : world)
  : ending * process :=
  let p := {| fs := w; stdout := []; stderr := [] |} in
  match argv with
  | [_; original_file; patch_file] =>
      let original_path := Path original_file in
      let patch_path := Path patch_file in
      if negb (path_exists original_path (fs p)) then
        die_process ("Original file not found: " ++ path_str original_path) p
      else if negb (path_exists patch_path (fs p)) then
        die_process ("Patch file not found: " ++ path_str patch_path) p
      else
        match read_lines original_path p with
        | inr died => died
        | inl original_lines =>
        match read_lines patch_path p with
        | inr died => died
        | inl patch_lines =>
            let p := print "Applying patch..." p in
            match apply_patch original_lines patch_lines with
            | Exit msg => die_process msg p
            | IndexError => (Uncaught "IndexError", p)
            | Return patched_lines =>
            match with_suffix original_path
                    (suffix original_path ++ ".bak." ++ Py.str now) with
            | None => (Uncaught "ValueError", p)
            | Some backup_path =>
            match rename original_path backup_path (fs p) with
            | None => (Uncaught "OSError", p)
            | Some w' =>
                let p := {| fs := w'; stdout := stdout p; stderr := stderr p |} in
                let p := print ("Backup created: " ++ path_str backup_path) p in
                match write_lines original_path patched_lines p with
                | inr died => died
                | inl p => (Done, print "Patch applied successfully." p)
                end
            end
            end
            end
        end
        end
  | _ => die_process usage p
  end.

End Script.

(** A small file system for examples: a file system maps a path, which is
    a string, to the text of the file there. *)
Module Toy.

Definition world : Type := string -> option string.

Definition path_exists (p : string) (w : world) : bool :=
  match w p with Some _ => true | None => false end.

Definition read_text (p : string) (w : world) : string + string :=
  match w p with
  | Some text => inl text
  | None => inr "No such file or directory"
  end.

Definition with_suffix (p new_suffix : string) : option string :=
  Some (p ++ new_suffix)%string.

Definition rename (p q : string) (w : world) : option world :=
  match w p with
  | Some text =>
      Some (fun x => if String.eqb x q then Some text
                     else if String.eqb x p then None else w x)
  | None => None
  end.

Definition write_text (p text : string) (w : world) : world * option string :=
  (fun x => if String.eqb x p then Some text else w x, None).

(** The suffix is taken to be empty and [with_suffix] appends: together
    they name the backup as [pathlib] does, the file name followed by
    [.bak.] and the time. *)
Definition suffix (p : string) : string := "".

Definition run_main : list string -> nat -> world -> ending * process world :=
  main world string (fun s => s) (fun p => p) path_exists read_text suffix
    with_suffix
    rename write_text.

End Toy.

(* ================================================================= *)
(** ** [auto_patch.py]: the preview of the differences *)

Module AutoPatch.

Definition ORIGINAL_FILE : string := "admin_rescue_original.sh".
Definition PATCHED_FILE : string := "admin_rescue_patched.sh".

(** [readlines()] of a text-mode file, on the text as the file object
    delivers it, that is after the translation of line ends: the lines end
    at line feeds only. *)
Fixpoint readlines (s : string) : list string :=
  match s with
  | EmptyString => []
  | String c t =>
      if Ascii.eqb c LF then String c EmptyString :: readlines t
      else
        match readlines t with
        | [] => [String c EmptyString]
        | l :: ls => String c l :: ls
        end
  end.

(** A text in which every line boundary other than the line feed is the
    last character or is the carriage return of a carriage return and line
    feed. *)
Fixpoint newline_only (s : string) : bool :=
  match s with
  | EmptyString => true
  | String c t =>
      if Text.is_linebreak c && negb (Ascii.eqb c LF) then
        match t with
        | EmptyString => true
        | String c' t' =>
            Ascii.eqb c Text.CR && Ascii.eqb c' LF && newline_only t'
        end
      else newline_only t
  end.

(** Lines 33 and 34: the value of [orig_lines], for the text the original
    file holds.
    [open(ORIGINAL_FILE, "r")] translates the line ends before
    [readlines] splits the text. *)
Definition orig_lines_of (file_text : string) : list string :=
  readlines (Text.universal_newlines file_text).

(** Lines 36 to 43: [diff_text], for the lines read from the original file
    and the text of [PATCH_CONTENT]; [None] as for [unified_diff]. *)
Definition diff_text (orig_lines : list string) (PATCH_CONTENT : string)
  : option string :=
  let patched_lines := Text.splitlines PATCH_CONTENT in
  match Difflib.unified_diff orig_lines patched_lines ORIGINAL_FILE PATCHED_FILE
          "" "" 3 "" with
  | Some diff => Some (Text.join diff)
  | None => None
  end.

Definition no_differences : string :=
  "No differences detected (already patched?).".

(** Lines 44 to 48: what the script prints about the differences. *)
Definition preview (orig_lines : list string) (PATCH_CONTENT : string)
  : option (list string) :=
  match diff_text orig_lines PATCH_CONTENT with
  | Some EmptyString => Some [no_differences]
  | Some text => Some ["=== Diff Preview ==="; text]
  | None => None
  end.

End AutoPatch.

(* ================================================================= *)
(** ** Vocabulary for a sequence matched against itself *)

(** The number of elements just before position [i] of [a], in a row, that
    are not popular. *)
Fixpoint unpopular_run (a : list string) (i : nat) : nat :=
  match i with
  | O => 0
  | S i' =>
      if Difflib.is_popular a (nth i' a EmptyString) then 0
      else S (unpopular_run a i')
  end.

(** A list of positions that increases, from [lo] on. *)
Fixpoint increasing_from (lo : nat) (js : list nat) : Prop :=
  match js with
  | [] => True
  | j :: js' => lo <= j /\ increasing_from (S j) js'
  end.
(* ================================================================= *)
(** * Properties *)

(** ** The outcome monad and prefixes of strings *)

Lemma bind_Return_inv {A B : Type} (m : outcome A) (k : A -> outcome B) (b : B) :
  bind m k = Return b -> exists a, m = Return a /\ k a = Return b.
Proof.
  destruct m as [a | msg | ]; simpl; intros H; try discriminate.
  exists a; split; [reflexivity | exact H].
Qed.

Lemma prefix_cons (c : ascii) (p s : string) :
  String.prefix (String c p) s = true <->
  exists t, s = String c t /\ String.prefix p t = true.
Proof.
  split.
  - destruct s as [| c' t]; simpl; [discriminate |].
    destruct (ascii_dec c c') as [<- | _]; [| discriminate].
    intros H; exists t; split; [reflexivity | exact H].
  - intros (t & -> & H); simpl.
    destruct (ascii_dec c c) as [_ | Hn]; [exact H | now elim Hn].
Qed.

Lemma prefix_cons_other (c c' : ascii) (p t : string) :
  c <> c' -> String.prefix (String c p) (String c' t) = false.
Proof.
  intros Hc; simpl. destruct (ascii_dec c c') as [E | _]; [now elim Hc | reflexivity].
Qed.

Lemma startswith_char (s : string) (c : ascii) :
  Py.startswith s (String c EmptyString) = true <-> exists t, s = String c t.
Proof.
  unfold Py.startswith; rewrite prefix_cons; split.
  - intros (t & -> & _); now exists t.
  - intros (t & ->); exists t; split; [reflexivity | now destruct t].
Qed.

Lemma startswith_at_at (s : string) :
  Py.startswith s "@@" = true <-> exists t, s = String "@" (String "@" t).
Proof.
  unfold Py.startswith; rewrite prefix_cons; split.
  - intros (t & -> & H). apply prefix_cons in H as (t' & -> & _). now exists t'.
  - intros (t & ->). eexists; split; [reflexivity |].
    apply prefix_cons; exists t; split; [reflexivity | now destruct t].
Qed.

(** A hunk header is not one of the skipped header lines. *)
Lemma hunk_header_not_diff_header (line : string) :
  Py.startswith line "@@" = true -> Py.startswith_any line diff_headers = false.
Proof.
  intros H; apply startswith_at_at in H as (t & ->).
  unfold Py.startswith_any, diff_headers, Py.startswith; cbn [existsb].
  rewrite !prefix_cons_other by (intros E; discriminate E). reflexivity.
Qed.

(** ** The loops and the run *)

Lemma scan_line_hunk_header (O : list string) (line : string) (st : state) :
  Py.startswith line "@@" = true ->
  scan_line O line st =
    (old_start <- hunk_header line ;;
     st1 <- copy_before_hunk O old_start st ;;
     Return (InHunk, st1)).
Proof.
  intros H; unfold scan_line.
  now rewrite (hunk_header_not_diff_header line H), H.
Qed.

(** The nested loops of the script compute the state the line-by-line run
    reaches. *)
Lemma loops_run (O : list string) (P : list string) :
  (forall st, patch_loop O P st = (r <- run O Scanning P st ;; Return (snd r)))
  /\ (forall st, hunk_loop O (patch_loop O) P st
                 = (r <- run O InHunk P st ;; Return (snd r))).
Proof.
  induction P as [| line rest [IHs IHh]].
  - split; intros st; reflexivity.
  - assert (Hs : forall st, patch_loop O (line :: rest) st
                   = (r <- run O Scanning (line :: rest) st ;; Return (snd r))).
    { intros st; cbn [patch_loop run line_step]; unfold scan_line.
      destruct (Py.startswith_any line diff_headers); [apply IHs |].
      destruct (Py.startswith line "@@"); [| reflexivity].
      destruct (hunk_header line) as [old_start | msg | ]; cbn [bind];
        try reflexivity.
      destruct (copy_before_hunk O old_start st) as [st1 | msg | ]; cbn [bind];
        try reflexivity.
      apply IHh. }
    split; [exact Hs |].
    intros st. cbn [hunk_loop].
    destruct (Py.startswith line "@@") eqn:Hat.
    + rewrite Hs. cbn [run line_step]. now rewrite Hat.
    + cbn [run line_step]. rewrite Hat.
      destruct (hunk_line O line st) as [st' | msg | ]; cbn [bind];
        try reflexivity.
      apply IHh.
Qed.

Lemma apply_patch_run (O P : list string) :
  apply_patch O P =
    (r <- run O Scanning P initial ;;
     Return (result (snd r) ++ skipn (orig_idx (snd r)) O)).
Proof.
  unfold apply_patch. fold initial.
  rewrite (proj1 (loops_run O P)).
  now destruct (run O Scanning P initial) as [[m st] | msg | ].
Qed.

Lemma run_app (O : list string) (P1 P2 : list string) :
  forall m st,
    run O m (P1 ++ P2) st = (r <- run O m P1 st ;; run O (fst r) P2 (snd r)).
Proof.
  induction P1 as [| line rest IH]; intros m st; [reflexivity |].
  cbn [app run].
  destruct (line_step O m line st) as [[m' st'] | msg | ]; cbn [bind];
    try reflexivity.
  apply IH.
Qed.

Lemma run_cons (O : list string) (line : string) (rest : list string) m st :
  run O m (line :: rest) st
  = (r <- line_step O m line st ;; run O (fst r) rest (snd r)).
Proof. reflexivity. Qed.

(** ** One body line *)

(** The test of lines 74 and 80 is an exact comparison with the line under
    the cursor, and fails when there is no such line. *)
Lemma mismatch_spec (O : list string) (pline : string) (st : state) :
  mismatch O pline st =
    Return (match nth_error O (orig_idx st) with
            | Some l => negb (String.eqb l (Py.drop 1 pline))
            | None => true
            end).
Proof.
  unfold mismatch, getitem.
  destruct (Nat.leb_spec (length O) (orig_idx st)) as [Hle | Hlt].
  - apply nth_error_None in Hle. now rewrite Hle.
  - destruct (nth_error O (orig_idx st)) eqn:E; [reflexivity |].
    apply nth_error_None in E. lia.
Qed.

Lemma hunk_line_context (O : list string) (t : string) (st : state) :
  hunk_line O (String " " t) st =
    match nth_error O (orig_idx st) with
    | Some l =>
        if String.eqb l t
        then Return {| orig_idx := S (orig_idx st); result := result st ++ [l] |}
        else Exit context_mismatch
    | None => Exit context_mismatch
    end.
Proof.
  unfold hunk_line.
  replace (Py.startswith (String " " t) " ") with true
    by (symmetry; apply startswith_char; now exists t).
  rewrite mismatch_spec; cbn [bind Py.drop]; unfold getitem.
  destruct (nth_error O (orig_idx st)) as [l |]; [| reflexivity].
  now destruct (String.eqb l t).
Qed.

Lemma hunk_line_deletion (O : list string) (t : string) (st : state) :
  hunk_line O (String "-" t) st =
    match nth_error O (orig_idx st) with
    | Some l =>
        if String.eqb l t
        then Return {| orig_idx := S (orig_idx st); result := result st |}
        else Exit removal_mismatch
    | None => Exit removal_mismatch
    end.
Proof.
  unfold hunk_line.
  replace (Py.startswith (String "-" t) " ") with false
    by (symmetry; apply prefix_cons_other; discriminate).
  replace (Py.startswith (String "-" t) "-") with true
    by (symmetry; apply startswith_char; now exists t).
  rewrite mismatch_spec; cbn [bind Py.drop].
  destruct (nth_error O (orig_idx st)) as [l |]; [| reflexivity].
  now destruct (String.eqb l t).
Qed.

Lemma hunk_line_insertion (O : list string) (t : string) (st : state) :
  hunk_line O (String "+" t) st =
    Return {| orig_idx := orig_idx st; result := result st ++ [t] |}.
Proof.
  unfold hunk_line.
  replace (Py.startswith (String "+" t) " ") with false
    by (symmetry; apply prefix_cons_other; discriminate).
  replace (Py.startswith (String "+" t) "-") with false
    by (symmetry; apply prefix_cons_other; discriminate).
  replace (Py.startswith (String "+" t) "+") with true
    by (symmetry; apply startswith_char; now exists t).
  reflexivity.
Qed.

(** A body line is not a hunk header. *)
Lemma body_line_not_hunk_header (c : ascii) (t : string) :
  c <> "@"%char -> Py.startswith (String c t) "@@" = false.
Proof. intros H. apply prefix_cons_other. congruence. Qed.

(** ** The cursor and the provenance of the result *)

Section Invariant.

Variable O : list string.
(** A property of lines that holds of every original line. *)
Variable Q : string -> Prop.
Hypothesis Q_original : forall l, In l O -> Q l.

Local Abbreviation good := (good O Q).

Lemma good_append (st : state) (l : string) :
  good st -> nth_error O (orig_idx st) = Some l ->
  good {| orig_idx := S (orig_idx st); result := result st ++ [l] |}.
Proof.
  intros [Hb HQ] Hl; split; cbn [orig_idx result].
  - apply Nat.le_succ_l, nth_error_Some. congruence.
  - apply Forall_app; split; [exact HQ |].
    constructor; [| constructor]. eapply Q_original, nth_error_In, Hl.
Qed.

Lemma copy_loop_inv (fuel : nat) :
  forall st st',
    copy_loop O fuel st = Return st' -> good st ->
    orig_idx st' = orig_idx st + fuel /\ good st'.
Proof.
  induction fuel as [| fuel IH]; intros st st' H Hg.
  - injection H as <-. split; [lia | exact Hg].
  - cbn [copy_loop] in H. unfold getitem in H.
    destruct (nth_error O (orig_idx st)) as [l |] eqn:Hl; [| discriminate].
    cbn [bind] in H. apply IH in H as [Hi Hg'].
    + cbn [orig_idx] in Hi. split; [lia | exact Hg'].
    + now apply good_append.
Qed.

Lemma hunk_line_inv (pline : string) (st st' : state) :
  hunk_line O pline st = Return st' -> good st ->
  (Py.startswith pline "+" = true -> Q (Py.drop 1 pline)) ->
  orig_idx st <= orig_idx st' /\ good st'.
Proof.
  unfold hunk_line; intros H Hg Hins.
  destruct (Py.startswith pline " ").
  { rewrite mismatch_spec in H; cbn [bind] in H; unfold getitem in H.
    destruct (nth_error O (orig_idx st)) as [l |] eqn:Hl; [| discriminate].
    destruct (negb (String.eqb l (Py.drop 1 pline))); [discriminate |].
    injection H as <-. split; [cbn; lia | now apply good_append]. }
  destruct (Py.startswith pline "-").
  { rewrite mismatch_spec in H; cbn [bind] in H.
    destruct (nth_error O (orig_idx st)) as [l |] eqn:Hl; [| discriminate].
    destruct (negb (String.eqb l (Py.drop 1 pline))); [discriminate |].
    injection H as <-. destruct (good_append st l Hg Hl) as [Hb _].
    split; [cbn; lia |]. split; [exact Hb | apply Hg]. }
  destruct (Py.startswith pline "+"); [| discriminate].
  injection H as <-. split; [cbn; lia |].
  split; [apply Hg |]. cbn [result]. apply Forall_app; split; [apply Hg |].
  constructor; [now apply Hins | constructor].
Qed.

Lemma scan_line_inv (line : string) (st : state) (m' : mode) (st' : state) :
  scan_line O line st = Return (m', st') -> good st ->
  orig_idx st <= orig_idx st' /\ good st'.
Proof.
  unfold scan_line; intros H Hg.
  destruct (Py.startswith_any line diff_headers).
  { injection H as _ <-. split; [lia | exact Hg]. }
  destruct (Py.startswith line "@@"); [| discriminate].
  apply bind_Return_inv in H as (old_start & _ & H).
  apply bind_Return_inv in H as (st1 & Hc & H).
  injection H as _ <-. apply copy_loop_inv in Hc as [Hi Hg']; [| exact Hg].
  split; [lia | exact Hg'].
Qed.

Lemma line_step_inv (m : mode) (line : string) (st : state) (m' : mode)
  (st' : state) :
  line_step O m line st = Return (m', st') -> good st ->
  (Py.startswith line "+" = true -> Q (Py.drop 1 line)) ->
  orig_idx st <= orig_idx st' /\ good st'.
Proof.
  intros H Hg Hins. destruct m; cbn [line_step] in H.
  - eapply scan_line_inv; eassumption.
  - destruct (Py.startswith line "@@").
    + eapply scan_line_inv; eassumption.
    + apply bind_Return_inv in H as (st1 & Hl & H). injection H as _ <-.
      eapply hunk_line_inv; eassumption.
Qed.

(** Along a run the cursor never moves back and stays within the
    original, and the result only holds lines with the property, when the
    payload of every insertion line has it. *)
Lemma run_inv (lines : list string) :
  forall m st m' st',
    run O m lines st = Return (m', st') -> good st ->
    (forall pline, In pline lines -> Py.startswith pline "+" = true ->
                   Q (Py.drop 1 pline)) ->
    orig_idx st <= orig_idx st' /\ good st'.
Proof.
  induction lines as [| line rest IH]; intros m st m' st' H Hg Hins.
  - injection H as _ <-. split; [lia | exact Hg].
  - rewrite run_cons in H. apply bind_Return_inv in H as ([m1 st1] & Hl & H).
    cbn [fst snd] in H.
    apply line_step_inv in Hl as [Hi Hg1];
      [| exact Hg | apply Hins; now left].
    apply IH in H as [Hi' Hg'];
      [| exact Hg1 | intros p Hp; apply Hins; now right].
    split; [lia | exact Hg'].
Qed.

End Invariant.

Lemma copy_before_hunk_noop (O : list string) (old_start : Z) (st : state) :
  (old_start <= Z.of_nat (orig_idx st))%Z -> copy_before_hunk O old_start st = Return st.
Proof.
  intros H; unfold copy_before_hunk.
  now replace (Z.to_nat (old_start - Z.of_nat (orig_idx st))) with 0 by lia.
Qed.

Lemma copy_loop_overrun (O : list string) (fuel : nat) :
  forall st,
    orig_idx st <= length O -> length O - orig_idx st < fuel ->
    copy_loop O fuel st = IndexError.
Proof.
  induction fuel as [| fuel IH]; intros st Hb Hf; [lia |].
  cbn [copy_loop]; unfold getitem.
  destruct (nth_error O (orig_idx st)) as [l |] eqn:Hl; [| reflexivity].
  cbn [bind]. apply IH; cbn [orig_idx].
  - apply Nat.le_succ_l, nth_error_Some. congruence.
  - assert (orig_idx st < length O) by (apply nth_error_Some; congruence). lia.
Qed.

(** A header whose old start lies beyond the end of the original makes the
    copy loop read past the end. *)
Lemma copy_before_hunk_out_of_range (O : list string) (old_start : Z) (st : state) :
  orig_idx st <= length O -> (Z.of_nat (length O) < old_start)%Z ->
  copy_before_hunk O old_start st = IndexError.
Proof.
  intros Hb Hs; unfold copy_before_hunk. apply copy_loop_overrun; [exact Hb | lia].
Qed.

(** Along every run the cursor never moves back and never passes the end
    of the original. *)
Lemma cursor_monotone_bounded (O lines : list string) (m m' : mode) (st st' : state) :
  run O m lines st = Return (m', st') -> orig_idx st <= length O ->
  orig_idx st <= orig_idx st' /\ orig_idx st' <= length O.
Proof.
  intros H Hb.
  destruct (run_inv O (fun _ => True) (fun _ _ => I) lines m st m' st' H) as [Hi [Hb' _]].
  - split; [exact Hb | apply Forall_forall; intros; exact I].
  - intros; exact I.
  - split; assumption.
Qed.

Lemma initial_good (O : list string) (Q : string -> Prop) : good O Q initial.
Proof. split; [apply Nat.le_0_l | constructor]. Qed.

(** ** Header lines *)

Lemma scan_line_diff_header (O : list string) (line : string) (st : state) :
  Py.startswith_any line diff_headers = true ->
  scan_line O line st = Return (Scanning, st).
Proof. intros H; unfold scan_line; now rewrite H. Qed.

Lemma run_diff_headers (O lines : list string) (st : state) :
  Forall (fun l => Py.startswith_any l diff_headers = true) lines ->
  run O Scanning lines st = Return (Scanning, st).
Proof.
  induction 1 as [| line rest Hl _ IH]; [reflexivity |].
  rewrite run_cons. cbn [line_step]. now rewrite scan_line_diff_header.
Qed.

(** Before the first hunk header the outer loop either is still scanning,
    with the state untouched, or has met a line it rejects. *)
Lemma run_before_first_hunk (O lines : list string) (st : state) :
  Forall (fun l => Py.startswith l "@@" = false) lines ->
  run O Scanning lines st = Return (Scanning, st)
  \/ exists msg, run O Scanning lines st = Exit msg.
Proof.
  induction 1 as [| line rest Hl _ IH]; [now left |].
  rewrite run_cons. cbn [line_step]. unfold scan_line. rewrite Hl.
  destruct (Py.startswith_any line diff_headers).
  - exact IH.
  - right. now eexists.
Qed.

(** ** Malformed hunk headers *)

Lemma malformed_by_iff (line : string) : malformed_by line <-> malformed line.
Proof.
  unfold malformed, parse_hunk_header; split.
  - intros [l Hs Hn | l x r y Hs -> Hn | l x r y o nw Hs -> -> Hi];
      (split; [exact Hs |]).
    + destruct (Py.split_max "@@" 2 l) as [| ? [| ? [| ? [| ? ?]]]];
        try reflexivity. now elim Hn.
    + destruct (Py.split_max " " 1 (Py.strip r)) as [| ? [| ? [| ? ?]]];
        try reflexivity. now elim Hn.
    + now rewrite Hi.
  - intros [Hs Hp].
    destruct (Py.split_max "@@" 2 line) as [| x [| r [| y [| ? ?]]]] eqn:E1;
      try (apply missing_delimiter; [exact Hs | rewrite E1; discriminate]).
    destruct (Py.split_max " " 1 (Py.strip r)) as [| o [| nw [| ? ?]]] eqn:E2;
      try (eapply missing_blank; [exact Hs | exact E1 | rewrite E2; discriminate]).
    eapply non_numeric; [exact Hs | exact E1 | exact E2 |].
    destruct (Py.int _); [discriminate | reflexivity].
Qed.

Lemma line_step_malformed (O : list string) (m : mode) (line : string) (st : state) :
  malformed line -> line_step O m line st = Exit (malformed_hunk_header line).
Proof.
  intros [Hs Hp].
  assert (H : scan_line O line st = Exit (malformed_hunk_header line)).
  { rewrite scan_line_hunk_header by exact Hs. unfold hunk_header. now rewrite Hp. }
  destruct m; cbn [line_step]; [exact H | now rewrite Hs].
Qed.

(* ================================================================= *)
(** * The round trip through the unified diff *)

(** ** Strings *)

Lemma string_app_assoc (s t u : string) :
  ((s ++ t) ++ u = s ++ (t ++ u))%string.
Proof. induction s as [| c s IH]; cbn; [reflexivity | now rewrite IH]. Qed.

Lemma all_chars_app (p : ascii -> bool) (s t : string) :
  all_chars p (s ++ t) = all_chars p s && all_chars p t.
Proof.
  induction s as [| c s IH]; cbn; [reflexivity |].
  now rewrite IH, andb_assoc.
Qed.

Lemma all_chars_impl (p q : ascii -> bool) (s : string) :
  (forall c, p c = true -> q c = true) ->
  all_chars p s = true -> all_chars q s = true.
Proof.
  intros Hpq. induction s as [| c s IH]; cbn; [reflexivity |].
  intros H. apply andb_true_iff in H as [Hc Hs].
  now rewrite (Hpq c Hc), IH.
Qed.

Lemma prefix_app (s t : string) : String.prefix s (s ++ t) = true.
Proof.
  induction s as [| c s IH]; cbn; [now destruct t |].
  destruct (ascii_dec c c) as [_ | Hn]; [exact IH | now elim Hn].
Qed.

Lemma drop_app (s t : string) : Py.drop (String.length s) (s ++ t) = t.
Proof. induction s as [| c s IH]; cbn; [now destruct t | exact IH]. Qed.

(** The first separator is found behind a text that does not hold the
    first character of the separator. *)
Lemma partition_found (c : ascii) (sep body rest : string) :
  all_chars (fun x => negb (Ascii.eqb x c)) body = true ->
  Py.partition (String c sep) (body ++ String c sep ++ rest)
  = Some (body, rest).
Proof.
  induction body as [| x body IH]; intros H.
  - change (EmptyString ++ String c sep ++ rest)%string
      with (String c sep ++ rest)%string.
    destruct (String c sep ++ rest)%string eqn:E; [discriminate E |].
    cbn [Py.partition]. rewrite <- E, prefix_app, drop_app. reflexivity.
  - cbn [all_chars] in H. apply andb_true_iff in H as [Hx Hb].
    apply negb_true_iff, Ascii.eqb_neq in Hx.
    change ((String x body ++ String c sep ++ rest)%string)
      with (String x (body ++ String c sep ++ rest)%string).
    cbn [Py.partition]. rewrite prefix_cons_other by congruence.
    now rewrite IH.
Qed.

Lemma partition_not_found (c : ascii) (sep s : string) :
  all_chars (fun x => negb (Ascii.eqb x c)) s = true ->
  Py.partition (String c sep) s = None.
Proof.
  induction s as [| x s IH]; intros H; [reflexivity |].
  cbn [all_chars] in H. apply andb_true_iff in H as [Hx Hs].
  apply negb_true_iff, Ascii.eqb_neq in Hx.
  cbn [Py.partition]. rewrite prefix_cons_other by congruence.
  now rewrite IH.
Qed.

Lemma lstrip_by_keep (p : ascii -> bool) (s : string) :
  all_chars (fun x => negb (p x)) s = true -> Py.lstrip_by p s = s.
Proof.
  destruct s as [| c s]; [reflexivity |]. cbn.
  intros H. apply andb_true_iff in H as [Hc _].
  apply negb_true_iff in Hc. now rewrite Hc.
Qed.

Lemma rstrip_by_keep (p : ascii -> bool) (pre s : string) :
  s <> EmptyString -> all_chars (fun x => negb (p x)) s = true ->
  Py.rstrip_by p (pre ++ s) = (pre ++ s)%string.
Proof.
  intros Hne Hs. induction pre as [| c pre IH].
  - cbn [append]. clear Hne. induction s as [| x s IHs]; [reflexivity |].
    cbn [all_chars] in Hs. apply andb_true_iff in Hs as [Hx Hs].
    apply negb_true_iff in Hx. cbn [Py.rstrip_by]. rewrite (IHs Hs), Hx.
    now destruct s.
  - change ((String c pre ++ s)%string) with (String c (pre ++ s)%string).
    cbn [Py.rstrip_by]. rewrite IH.
    destruct (pre ++ s)%string eqn:E; [| reflexivity].
    destruct pre; [now elim Hne | discriminate E].
Qed.

Lemma rstrip_by_drop (p : ascii -> bool) (s t : string) :
  all_chars p t = true -> Py.rstrip_by p (s ++ t) = Py.rstrip_by p s.
Proof.
  intros Ht. induction s as [| c s IH].
  - cbn [append]. induction t as [| x t IHt]; [reflexivity |].
    cbn [all_chars] in Ht. apply andb_true_iff in Ht as [Hx Ht].
    cbn [Py.rstrip_by]. now rewrite (IHt Ht), Hx.
  - change ((String c s ++ t)%string) with (String c (s ++ t)%string).
    cbn [Py.rstrip_by]. now rewrite IH.
Qed.

(** ** Character classes *)

Ltac string_assoc :=
  cbn [append]; repeat (rewrite string_app_assoc; cbn [append]); reflexivity.

Ltac all_chars_by H1 H2 :=
  cbn [append all_chars];
  repeat (rewrite all_chars_app; cbn [append all_chars]);
  rewrite ?H1, ?H2; reflexivity.

Ltac by_ascii_cases c :=
  destruct c as [[] [] [] [] [] [] [] []]; vm_compute; intros;
  solve [reflexivity | discriminate].

Lemma digit_is_range_char (c : ascii) : is_digit c = true -> is_range_char c = true.
Proof. unfold is_range_char; intros ->; reflexivity. Qed.

Lemma digit_not_int_isspace (c : ascii) :
  is_digit c = true -> negb (Py.int_isspace c) = true.
Proof. by_ascii_cases c. Qed.

Lemma digit_not_minus (c : ascii) :
  is_digit c = true ->
  negb (existsb (Ascii.eqb c) (list_ascii_of_string "-")) = true.
Proof. by_ascii_cases c. Qed.

Lemma digit_not_comma (c : ascii) :
  is_digit c = true -> negb (Ascii.eqb c ",") = true.
Proof. by_ascii_cases c. Qed.

Lemma range_char_not_isspace (c : ascii) :
  is_range_char c = true -> negb (Py.isspace c) = true.
Proof. by_ascii_cases c. Qed.

Lemma range_char_not_blank (c : ascii) :
  is_range_char c = true -> negb (Ascii.eqb c " ") = true.
Proof. by_ascii_cases c. Qed.

Lemma range_char_not_at (c : ascii) :
  is_range_char c = true -> negb (Ascii.eqb c "@") = true.
Proof. by_ascii_cases c. Qed.

(** ** Numbers in decimal *)

Lemma uint_digits (d : Decimal.uint) :
  all_chars is_digit (NilEmpty.string_of_uint d) = true.
Proof.
  induction d as [| d IH | d IH | d IH | d IH | d IH | d IH | d IH | d IH | d IH | d IH];
    cbn [NilEmpty.string_of_uint all_chars]; [reflexivity | ..];
    rewrite IH; reflexivity.
Qed.

Lemma str_digits (n : nat) : all_chars is_digit (Py.str n) = true.
Proof.
  unfold Py.str, NilZero.string_of_uint.
  destruct (Nat.to_uint n); try apply uint_digits. reflexivity.
Qed.

Lemma str_nonempty (n : nat) : Py.str n <> EmptyString.
Proof.
  unfold Py.str, NilZero.string_of_uint.
  destruct (Nat.to_uint n); cbn; discriminate.
Qed.

Lemma int_digits_uint (d : Decimal.uint) :
  forall (acc : nat) (after_digit : bool),
    d <> Decimal.Nil \/ after_digit = true ->
    Py.int_digits (NilEmpty.string_of_uint d) (Z.of_nat acc) after_digit
    = Some (Z.of_nat (Nat.of_uint_acc d acc)).
Proof.
  induction d as [| d IH | d IH | d IH | d IH | d IH | d IH | d IH | d IH | d IH | d IH];
    intros acc after_digit H.
  1: { destruct H as [H | ->]; [now elim H | reflexivity]. }
  all: cbn [NilEmpty.string_of_uint Py.int_digits Nat.of_uint_acc].
  all: match goal with
       | |- context [Ascii.eqb ?c "_"] =>
           change (Ascii.eqb c "_") with false;
           let v := eval vm_compute in (Py.digit_value c) in
           change (Py.digit_value c) with v
       end.
  all: cbv iota.
  all: match goal with
       | |- Py.int_digits _ ?z true = Some (Z.of_nat (Nat.of_uint_acc _ ?k)) =>
           replace z with (Z.of_nat k)
             by (rewrite Nat.tail_mul_spec; lia)
       end.
  all: apply IH; now right.
Qed.

Lemma int_of_digits (s : string) :
  s <> EmptyString -> all_chars is_digit s = true ->
  Py.int s = Py.int_digits s 0 false.
Proof.
  intros Hne Hd. unfold Py.int, Py.strip_by.
  assert (Hsp : all_chars (fun x => negb (Py.int_isspace x)) s = true)
    by (eapply all_chars_impl; [apply digit_not_int_isspace | exact Hd]).
  pose proof (rstrip_by_keep Py.int_isspace EmptyString s Hne Hsp) as E.
  cbn [append] in E. rewrite E, lstrip_by_keep
    by (eapply all_chars_impl; [apply digit_not_int_isspace | exact Hd]).
  destruct s as [| c t]; [now elim Hne |].
  cbn [all_chars] in Hd. apply andb_true_iff in Hd as [Hc _].
  revert Hc. destruct c as [[] [] [] [] [] [] [] []];
    solve [reflexivity | vm_compute; discriminate].
Qed.

(** [int(str(n))] is [n]. *)
Lemma int_str (n : nat) : Py.int (Py.str n) = Some (Z.of_nat n).
Proof.
  rewrite int_of_digits by (apply str_nonempty || apply str_digits).
  unfold Py.str, NilZero.string_of_uint.
  rewrite <- (Unsigned.of_to n) at 2. unfold Nat.of_uint.
  destruct (Nat.to_uint n) eqn:E; try (apply (int_digits_uint _ 0 false); left; discriminate).
  reflexivity.
Qed.

(** ** Reading back a formatted hunk header *)

Lemma format_range_chars (start stop : nat) :
  all_chars is_range_char (Difflib.format_range_unified start stop) = true
  /\ Difflib.format_range_unified start stop <> EmptyString.
Proof.
  assert (Hd : forall n, all_chars is_range_char (Py.str n) = true)
    by (intros n; eapply all_chars_impl; [apply digit_is_range_char | apply str_digits]).
  unfold Difflib.format_range_unified.
  destruct (stop - start =? 1); [split; [apply Hd | apply str_nonempty] |].
  split.
  - rewrite !all_chars_app, !Hd. reflexivity.
  - intros E. destruct (Py.str _) eqn:E' in E; [| discriminate E].
    now apply str_nonempty in E'.
Qed.

(** The header of a hunk whose old range is printed as the number [x],
    alone or followed by a comma and a count, is read back as [x - 1]. *)
Lemma parse_header_generic (x : nat) (count new_range lineterm : string) :
  count = EmptyString \/ (exists y, count = ("," ++ Py.str y)%string) ->
  all_chars is_range_char new_range = true -> new_range <> EmptyString ->
  parse_hunk_header
    ("@@ -" ++ (Py.str x ++ count) ++ " +" ++ new_range ++ " @@" ++ lineterm)
  = Some (Z.of_nat x - 1)%Z.
Proof.
  intros Hcount Hnew Hne.
  assert (Hx : all_chars is_range_char (Py.str x) = true)
    by (eapply all_chars_impl; [apply digit_is_range_char | apply str_digits]).
  assert (Hc : all_chars is_range_char count = true).
  { destruct Hcount as [-> | [y ->]]; [reflexivity |].
    cbn [append all_chars]. eapply all_chars_impl;
      [apply digit_is_range_char | apply str_digits]. }
  remember (Py.str x ++ count)%string as old_range eqn:Hdef.
  assert (Hold : all_chars is_range_char old_range = true)
    by (rewrite Hdef; now rewrite all_chars_app, Hx, Hc).
  unfold parse_hunk_header.
  (* the two "@@" *)
  remember (" -" ++ old_range ++ " +" ++ new_range ++ " ")%string as ranges
    eqn:Hranges.
  assert (E1 : Py.split_max "@@" 2
                 ("@@ -" ++ old_range ++ " +" ++ new_range ++ " @@" ++ lineterm)
               = [EmptyString; ranges; lineterm]).
  { cbn [Py.split_max].
    replace ("@@ -" ++ old_range ++ " +" ++ new_range ++ " @@" ++ lineterm)%string
      with (EmptyString ++ "@@" ++ ranges ++ "@@" ++ lineterm)%string
      by (rewrite Hranges; string_assoc).
    rewrite (partition_found "@" "@" EmptyString) by reflexivity.
    rewrite (partition_found "@" "@" ranges); [reflexivity |].
    rewrite Hranges.
    all_chars_by (all_chars_impl _ _ _ range_char_not_at Hold)
                 (all_chars_impl _ _ _ range_char_not_at Hnew). }
  rewrite E1.
  (* the blanks around the ranges *)
  assert (E2 : Py.strip ranges = ("-" ++ old_range ++ " +" ++ new_range)%string).
  { unfold Py.strip, Py.strip_by. rewrite Hranges.
    replace (" -" ++ old_range ++ " +" ++ new_range ++ " ")%string
      with (((" -" ++ old_range ++ " +") ++ new_range) ++ " ")%string
      by string_assoc.
    rewrite rstrip_by_drop by reflexivity.
    rewrite rstrip_by_keep;
      [| exact Hne
       | eapply all_chars_impl; [apply range_char_not_isspace | exact Hnew]].
    string_assoc. }
  rewrite E2.
  (* the blank between the two ranges *)
  assert (E3 : Py.split_max " " 1 ("-" ++ old_range ++ " +" ++ new_range)
               = [("-" ++ old_range)%string; ("+" ++ new_range)%string]).
  { cbn [Py.split_max].
    replace ("-" ++ old_range ++ " +" ++ new_range)%string
      with (("-" ++ old_range) ++ " " ++ ("+" ++ new_range))%string
      by (cbn [append]; reflexivity).
    rewrite partition_found; [reflexivity |].
    cbn [append all_chars].
    now rewrite (all_chars_impl _ _ _ range_char_not_blank Hold). }
  rewrite E3.
  (* the text before the first comma *)
  assert (E4 : hd EmptyString (Py.split "," ("-" ++ old_range))
               = ("-" ++ Py.str x)%string).
  { unfold Py.split. cbn [append String.length Py.split_max].
    assert (Hnc : all_chars (fun c => negb (Ascii.eqb c ",")) (String "-" (Py.str x))
                  = true).
    { cbn [all_chars]. rewrite (all_chars_impl _ _ _ digit_not_comma (str_digits x)).
      reflexivity. }
    rewrite Hdef. destruct Hcount as [-> | [y ->]].
    - replace (Py.str x ++ "")%string with (Py.str x)
        by (clear; induction (Py.str x) as [| c s IH]; cbn; [| rewrite <- IH]; reflexivity).
      now rewrite partition_not_found.
    - replace (String "-" (Py.str x ++ "," ++ Py.str y))%string
        with (String "-" (Py.str x) ++ "," ++ Py.str y)%string by reflexivity.
      now rewrite partition_found. }
  rewrite E4.
  (* the number *)
  unfold Py.lstrip. cbn [append Py.lstrip_by list_ascii_of_string existsb].
  change (Ascii.eqb "-" "-" || false) with true. cbv iota.
  rewrite lstrip_by_keep
    by (eapply all_chars_impl; [apply digit_not_minus | apply str_digits]).
  now rewrite int_str.
Qed.

Lemma parse_formatted_header (start stop : nat) (new_range lineterm : string) :
  all_chars is_range_char new_range = true -> new_range <> EmptyString ->
  parse_hunk_header
    ("@@ -" ++ Difflib.format_range_unified start stop ++ " +" ++ new_range
     ++ " @@" ++ lineterm)
  = Some (if stop - start =? 0 then (Z.of_nat start - 1)%Z else Z.of_nat start).
Proof.
  intros Hnew Hne. unfold Difflib.format_range_unified.
  destruct (stop - start =? 1) eqn:E1.
  - apply Nat.eqb_eq in E1. replace (stop - start =? 0) with false
      by (symmetry; apply Nat.eqb_neq; lia).
    replace (Py.str (start + 1)) with (Py.str (start + 1) ++ "")%string
      by (induction (Py.str (start + 1)) as [| c s IH]; cbn; [| rewrite IH]; reflexivity).
    rewrite parse_header_generic; [f_equal; lia | now left | exact Hnew | exact Hne].
  - destruct (stop - start =? 0); cbv zeta.
    + rewrite parse_header_generic;
        [f_equal; lia | right; eexists; reflexivity | exact Hnew | exact Hne].
    + rewrite parse_header_generic;
        [f_equal; lia | right; eexists; reflexivity | exact Hnew | exact Hne].
Qed.

(** ** Slices *)

Section Slices.

Context {A : Type}.
Implicit Types xs : list A.

Lemma slice_length xs (i k : nat) :
  k <= length xs -> length (Py.slice xs i k) = k - i.
Proof.
  intros H. unfold Py.slice. rewrite length_firstn, length_skipn. lia.
Qed.

Lemma slice_from_0 xs (k : nat) : Py.slice xs 0 k = firstn k xs.
Proof. unfold Py.slice. now rewrite Nat.sub_0_r. Qed.

Lemma slice_to_end xs (i : nat) : Py.slice xs i (length xs) = skipn i xs.
Proof.
  unfold Py.slice. apply firstn_all2. rewrite length_skipn. lia.
Qed.

Lemma firstn_add xs (n m : nat) :
  firstn (n + m) xs = firstn n xs ++ firstn m (skipn n xs).
Proof.
  revert xs; induction n as [| n IH]; intros xs; [reflexivity |].
  destruct xs as [| x xs]; cbn.
  - now destruct m.
  - now rewrite IH.
Qed.

Lemma slice_app xs (i k l : nat) :
  i <= k -> k <= l -> Py.slice xs i l = Py.slice xs i k ++ Py.slice xs k l.
Proof.
  intros Hik Hkl. unfold Py.slice.
  replace (l - i) with ((k - i) + (l - k)) by lia.
  rewrite firstn_add, skipn_skipn.
  now replace (k - i + i) with k by lia.
Qed.

Lemma skipn_cons_inv xs (i : nat) (x : A) (tl : list A) :
  skipn i xs = x :: tl -> nth_error xs i = Some x /\ skipn (S i) xs = tl.
Proof.
  revert xs; induction i as [| i IH]; intros xs H.
  - cbn in H. subst xs. split; reflexivity.
  - destruct xs as [| y xs]; [discriminate H |]. cbn in H. now apply IH in H.
Qed.

Lemma firstn_length_firstn xs (k : nat) :
  firstn (length (firstn k xs)) xs = firstn k xs.
Proof.
  rewrite length_firstn.
  destruct (Nat.le_ge_cases k (length xs)) as [H | H].
  - now rewrite Nat.min_l.
  - rewrite Nat.min_r by exact H. now rewrite firstn_all, firstn_all2.
Qed.

(** Equal lists split at the same place into equal parts. *)
Lemma app_eq_length_inv (l1 l2 r1 r2 : list A) :
  length l1 = length r1 -> l1 ++ l2 = r1 ++ r2 -> l1 = r1 /\ l2 = r2.
Proof.
  revert r1; induction l1 as [| x l1 IH]; intros [| y r1] Hlen H;
    try discriminate Hlen.
  - now split.
  - cbn in H. injection H as -> H. injection Hlen as Hlen.
    destruct (IH r1 Hlen H) as [-> ->]. now split.
Qed.

End Slices.

(** ** The body lines of a hunk *)

Section BodyLines.

Variable O : list string.

Lemma state_eta (st : state) (i : nat) (r : list string) :
  orig_idx st = i -> result st = r -> st = {| orig_idx := i; result := r |}.
Proof. destruct st; cbn; now intros -> ->. Qed.

Lemma run_context_lines (xs : list string) :
  forall st,
    firstn (length xs) (skipn (orig_idx st) O) = xs ->
    run O InHunk (map (String " ") xs) st
    = Return (InHunk, {| orig_idx := orig_idx st + length xs;
                         result := result st ++ xs |}).
Proof.
  induction xs as [| x xs IH]; intros st H.
  - cbn [map run length]. do 2 f_equal.
    apply state_eta; [lia | now rewrite app_nil_r].
  - cbn [length firstn] in H.
    destruct (skipn (orig_idx st) O) as [| y tl] eqn:E; [discriminate H |].
    injection H as -> H. apply skipn_cons_inv in E as [Hn Htl].
    cbn [map]. rewrite run_cons. cbn [line_step].
    rewrite body_line_not_hunk_header by discriminate.
    rewrite hunk_line_context, Hn, String.eqb_refl. cbn [bind fst snd].
    rewrite IH by (cbn [orig_idx]; now rewrite Htl).
    cbn [orig_idx result length]. do 3 f_equal; [lia | now rewrite <- app_assoc].
Qed.

Lemma run_deletion_lines (xs : list string) :
  forall st,
    firstn (length xs) (skipn (orig_idx st) O) = xs ->
    run O InHunk (map (String "-") xs) st
    = Return (InHunk, {| orig_idx := orig_idx st + length xs;
                         result := result st |}).
Proof.
  induction xs as [| x xs IH]; intros st H.
  - cbn [map run length]. do 2 f_equal. apply state_eta; [lia | reflexivity].
  - cbn [length firstn] in H.
    destruct (skipn (orig_idx st) O) as [| y tl] eqn:E; [discriminate H |].
    injection H as -> H. apply skipn_cons_inv in E as [Hn Htl].
    cbn [map]. rewrite run_cons. cbn [line_step].
    rewrite body_line_not_hunk_header by discriminate.
    rewrite hunk_line_deletion, Hn, String.eqb_refl. cbn [bind fst snd].
    rewrite IH by (cbn [orig_idx]; now rewrite Htl).
    cbn [orig_idx result length]. do 3 f_equal. lia.
Qed.

Lemma run_insertion_lines (xs : list string) :
  forall st,
    run O InHunk (map (String "+") xs) st
    = Return (InHunk, {| orig_idx := orig_idx st; result := result st ++ xs |}).
Proof.
  induction xs as [| x xs IH]; intros st.
  - cbn [map run]. do 2 f_equal. apply state_eta; [reflexivity | now rewrite app_nil_r].
  - cbn [map]. rewrite run_cons. cbn [line_step].
    rewrite body_line_not_hunk_header by discriminate.
    rewrite hunk_line_insertion. cbn [bind fst snd]. rewrite IH.
    cbn [orig_idx result]. do 3 f_equal. now rewrite <- app_assoc.
Qed.

(** The copy loop copies a slice of the original when it stays within it. *)
Lemma copy_loop_slice (fuel : nat) :
  forall st,
    orig_idx st + fuel <= length O ->
    copy_loop O fuel st
    = Return {| orig_idx := orig_idx st + fuel;
                result := result st ++ Py.slice O (orig_idx st) (orig_idx st + fuel) |}.
Proof.
  induction fuel as [| fuel IH]; intros st H.
  - cbn [copy_loop]. f_equal. apply state_eta; [lia |].
    unfold Py.slice. replace (orig_idx st + 0 - orig_idx st) with 0 by lia.
    now rewrite app_nil_r.
  - cbn [copy_loop]. unfold getitem.
    destruct (nth_error O (orig_idx st)) as [l |] eqn:Hl.
    2: { apply nth_error_None in Hl. lia. }
    cbn [bind]. rewrite IH by (cbn [orig_idx]; lia).
    cbn [orig_idx result]. f_equal. f_equal; [lia |].
    rewrite <- app_assoc. f_equal.
    rewrite (slice_app O (orig_idx st) (S (orig_idx st)) (orig_idx st + S fuel))
      by lia.
    replace (S (orig_idx st) + fuel) with (orig_idx st + S fuel) by lia.
    f_equal. unfold Py.slice.
    replace (S (orig_idx st) - orig_idx st) with 1 by lia.
    destruct (skipn (orig_idx st) O) as [| y tl] eqn:E.
    + apply (f_equal (@length string)) in E. rewrite length_skipn in E.
      cbn in E.
      assert (orig_idx st < length O) by (apply nth_error_Some; congruence). lia.
    + apply skipn_cons_inv in E as [Hn _]. cbn. congruence.
Qed.

End BodyLines.

(** ** Stretches on which the two sequences agree *)

Section Gaps.

Variables a b : list string.
Local Abbreviation gap := (gap a b).

Lemma gap_length (i j i' j' : nat) : gap i j i' j' -> i' - i = j' - j.
Proof.
  intros (_ & Ha & _ & Hb & E).
  apply (f_equal (@length string)) in E.
  now rewrite !slice_length in E.
Qed.

Lemma gap_refl (i j : nat) : i <= length a -> j <= length b -> gap i j i j.
Proof.
  intros Ha Hb. repeat split; try lia.
  unfold Py.slice. now rewrite !Nat.sub_diag.
Qed.

Lemma gap_trans (i j k l i' j' : nat) :
  gap i j k l -> gap k l i' j' -> gap i j i' j'.
Proof.
  intros (H1 & H2 & H3 & H4 & E1) (H5 & H6 & H7 & H8 & E2).
  repeat split; try lia.
  rewrite (slice_app a i k i'), (slice_app b j l j') by lia. now rewrite E1, E2.
Qed.

Lemma gap_split (i j i' j' d : nat) :
  gap i j i' j' -> d <= i' - i ->
  gap i j (i + d) (j + d) /\ gap (i + d) (j + d) i' j'.
Proof.
  intros G Hd. pose proof (gap_length _ _ _ _ G) as Hlen.
  destruct G as (H1 & H2 & H3 & H4 & E).
  rewrite (slice_app a i (i + d) i'), (slice_app b j (j + d) j') in E by lia.
  apply app_eq_length_inv in E as [E1 E2].
  - repeat split; (lia || assumption).
  - rewrite !slice_length by lia. lia.
Qed.

(** From a point from which the two sequences agree to their ends, what is
    left of [a] completes the lines of [b] read so far. *)
Lemma gap_to_end (i j : nat) :
  gap i j (length a) (length b) -> firstn j b ++ skipn i a = b.
Proof.
  intros (_ & _ & _ & _ & E). rewrite !slice_to_end in E.
  rewrite E. apply firstn_skipn.
Qed.

(** Copying a stretch on which the sequences agree extends the lines of [b]
    read so far. *)
Lemma gap_result (i j i' j' : nat) :
  gap i j i' j' -> firstn j b ++ Py.slice a i i' = firstn j' b.
Proof.
  intros (_ & _ & Hj & _ & E). rewrite E, <- !slice_from_0.
  symmetry. apply slice_app; lia.
Qed.

Lemma insert_result (j j' : nat) :
  j <= j' -> firstn j b ++ Py.slice b j j' = firstn j' b.
Proof.
  intros Hj. rewrite <- !slice_from_0. symmetry. apply slice_app; lia.
Qed.

End Gaps.

(** ** Applying opcodes, groups and hunks *)

Section ApplyScript.

Variables a b : list string.
Local Abbreviation op_ok := (op_ok a b).
Local Abbreviation gap := (gap a b).
Local Abbreviation hunks := (hunks a b).

Lemma slice_is_prefix (i k : nat) :
  firstn (length (Py.slice a i k)) (skipn i a) = Py.slice a i k.
Proof. unfold Py.slice. apply firstn_length_firstn. Qed.

(** The body lines of one opcode move the cursor to the end of its old
    range and the result to the end of its new range. *)
Lemma run_opcode (op : Difflib.opcode) :
  op_ok op ->
  run a InHunk (Difflib.opcode_lines a b op)
    {| orig_idx := Difflib.i1 op; result := firstn (Difflib.j1 op) b |}
  = Return (InHunk, {| orig_idx := Difflib.i2 op;
                       result := firstn (Difflib.j2 op) b |}).
Proof.
  intros (Hi & Ha & Hj & Hb & Htag). unfold Difflib.opcode_lines.
  destruct (Difflib.op_tag op).
  - (* replace *)
    rewrite run_app, run_deletion_lines by (cbn [orig_idx]; apply slice_is_prefix).
    cbn [bind fst snd]. rewrite run_insertion_lines. cbn [orig_idx result].
    rewrite slice_length, insert_result by lia.
    do 3 f_equal. lia.
  - (* delete *)
    rewrite run_deletion_lines by (cbn [orig_idx]; apply slice_is_prefix).
    cbn [orig_idx result]. rewrite slice_length by lia. rewrite Htag.
    do 3 f_equal. lia.
  - (* insert *)
    rewrite run_insertion_lines. cbn [orig_idx result].
    rewrite insert_result by lia. now rewrite Htag.
  - (* equal *)
    rewrite run_context_lines by (cbn [orig_idx]; apply slice_is_prefix).
    cbn [orig_idx result]. rewrite slice_length by lia.
    rewrite (gap_result a b _ _ (Difflib.i2 op) (Difflib.j2 op))
      by (repeat split; (lia || assumption)).
    do 3 f_equal. lia.
Qed.

Lemma chain_app (g1 g2 : list Difflib.opcode) :
  forall i j i' j',
    chain a b i j (g1 ++ g2) i' j' <->
    exists k l, chain a b i j g1 k l /\ chain a b k l g2 i' j'.
Proof.
  induction g1 as [| op g1 IH]; intros i j i' j'; cbn [app chain].
  - split.
    + intros H. now exists i, j.
    + now intros (k & l & [-> ->] & H).
  - rewrite IH. split.
    + intros (H1 & H2 & H3 & k & l & H4 & H5). exists k, l.
      exact (conj (conj H1 (conj H2 (conj H3 H4))) H5).
    + intros (k & l & (H1 & H2 & H3 & H4) & H5).
      refine (conj H1 (conj H2 (conj H3 _))). now exists k, l.
Qed.

Lemma chain_bounds (g : list Difflib.opcode) :
  forall i j i' j',
    chain a b i j g i' j' -> i <= length a -> j <= length b ->
    i <= i' /\ i' <= length a /\ j <= j' /\ j' <= length b.
Proof.
  induction g as [| op g IH]; intros i j i' j'; cbn [chain].
  - intros [-> ->] Ha Hb. lia.
  - intros (<- & <- & (Hi & Ha & Hj & Hb & _) & H) _ _.
    apply IH in H; lia.
Qed.

Lemma chain_ends (g : list Difflib.opcode) :
  forall i j i' j',
    g <> [] -> chain a b i j g i' j' ->
    Difflib.i1 (hd Difflib.no_op g) = i /\ Difflib.j1 (hd Difflib.no_op g) = j
    /\ Difflib.i2 (last g Difflib.no_op) = i'
    /\ Difflib.j2 (last g Difflib.no_op) = j'.
Proof.
  induction g as [| op g IH]; intros i j i' j' Hne; [now elim Hne |].
  cbn [chain hd]. intros (H1 & H2 & _ & H).
  split; [exact H1 |]. split; [exact H2 |].
  destruct g as [| op' g].
  - cbn in H. destruct H as [<- <-]. now split.
  - apply IH in H as (_ & _ & H3 & H4); [| discriminate].
    change (last (op :: op' :: g) Difflib.no_op) with (last (op' :: g) Difflib.no_op).
    now split.
Qed.

(** The body lines of opcodes that follow one another. *)
Lemma run_chain (g : list Difflib.opcode) :
  forall i j i' j',
    chain a b i j g i' j' ->
    run a InHunk (flat_map (Difflib.opcode_lines a b) g)
      {| orig_idx := i; result := firstn j b |}
    = Return (InHunk, {| orig_idx := i'; result := firstn j' b |}).
Proof.
  induction g as [| op g IH]; intros i j i' j'; cbn [chain flat_map].
  - now intros [-> ->].
  - intros (<- & <- & Hok & H).
    rewrite run_app, run_opcode by exact Hok. cbn [bind fst snd]. now apply IH.
Qed.

(** A hunk, header and body, applied where the sequences agree up to its
    start. *)
Lemma run_hunk (lineterm : string) (g : list Difflib.opcode) (m : mode)
  (i j gi gj i' j' : nat) :
  g <> [] -> gap i j gi gj -> gi < i' \/ gi = 0 -> chain a b gi gj g i' j' ->
  run a m (Difflib.hunk_lines a b lineterm g)
    {| orig_idx := i; result := firstn j b |}
  = Return (InHunk, {| orig_idx := i'; result := firstn j' b |}).
Proof.
  intros Hne G Hstart Hchain.
  pose proof (gap_length a b _ _ _ _ G) as Hlen.
  destruct G as (Hi & Ha & Hj & Hb & E).
  destruct (chain_bounds g _ _ _ _ Hchain Ha Hb) as (Hgi & Ha' & Hgj & Hb').
  destruct (chain_ends g _ _ _ _ Hne Hchain) as (E1 & E2 & E3 & E4).
  unfold Difflib.hunk_lines. cbv zeta. rewrite E1, E2, E3, E4, run_cons.
  destruct (format_range_chars gj j') as [Hchars Hnonempty].
  set (header := ("@@ -" ++ _)%string).
  assert (Hat : Py.startswith header "@@" = true)
    by (apply startswith_at_at; eexists; reflexivity).
  assert (Hstep : line_step a m header {| orig_idx := i; result := firstn j b |}
                  = Return (InHunk, {| orig_idx := gi; result := firstn gj b |})).
  { assert (Hscan : scan_line a header {| orig_idx := i; result := firstn j b |}
                    = Return (InHunk, {| orig_idx := gi; result := firstn gj b |})).
    { rewrite scan_line_hunk_header by exact Hat. unfold hunk_header, header.
      rewrite parse_formatted_header by assumption.
      destruct (i' - gi =? 0) eqn:Hempty; cbn [bind].
      - apply Nat.eqb_eq in Hempty.
        assert (Hg0 : gi = 0) by lia. assert (Hi0 : i = 0) by lia.
        assert (Hgj0 : gj = j) by lia.
        rewrite copy_before_hunk_noop by (cbn [orig_idx]; lia).
        now rewrite Hg0, Hi0, Hgj0.
      - unfold copy_before_hunk. cbn [orig_idx].
        replace (Z.to_nat (Z.of_nat gi - Z.of_nat i)) with (gi - i) by lia.
        rewrite copy_loop_slice by (cbn [orig_idx]; lia). cbn [orig_idx result bind].
        replace (i + (gi - i)) with gi by lia.
        rewrite (gap_result a b i j gi gj) by (repeat split; (lia || assumption)).
        reflexivity. }
    destruct m; cbn [line_step]; [exact Hscan | now rewrite Hat]. }
  rewrite Hstep. cbn [bind fst snd]. now apply run_chain.
Qed.

(** The hunks of a script turn [a] into [b]. *)
Lemma run_hunks (lineterm : string) (gs : list (list Difflib.opcode)) :
  forall i j,
    hunks i j gs ->
    forall m, exists m' st',
      run a m (flat_map (Difflib.hunk_lines a b lineterm) gs)
        {| orig_idx := i; result := firstn j b |} = Return (m', st')
      /\ result st' ++ skipn (orig_idx st') a = b.
Proof.
  intros i j H. induction H as [i j G | i j gi gj i' j' g gs Hne G Hs Hc _ IH];
    intros m.
  - exists m, {| orig_idx := i; result := firstn j b |}.
    split; [reflexivity | now apply gap_to_end].
  - destruct (IH InHunk) as (m' & st' & Hrun & Hres).
    exists m', st'. split; [| exact Hres].
    cbn [flat_map]. rewrite run_app, (run_hunk lineterm g m i j gi gj i' j')
      by assumption.
    exact Hrun.
Qed.

End ApplyScript.

(** ** The contract of the opcodes *)

Section Contract.

Variables a b : list string.

(** A valid list of opcodes is a chain from the start to the ends of the
    two sequences. *)
Lemma tiles_chain (codes : list Difflib.opcode) :
  forall i j,
    Difflib.tiles a b i j codes = true ->
    chain a b i j codes (length a) (length b)
    /\ i <= length a /\ j <= length b.
Proof.
  induction codes as [| op codes IH]; intros i j H; cbn [Difflib.tiles chain] in *.
  - apply andb_true_iff in H as [Hi Hj].
    apply Nat.eqb_eq in Hi, Hj. subst. repeat split; lia.
  - repeat (apply andb_true_iff in H as [H ?]).
    repeat match goal with
           | H : (_ =? _) = true |- _ => apply Nat.eqb_eq in H
           | H : (_ <=? _) = true |- _ => apply Nat.leb_le in H
           end.
    match goal with
    | H : Difflib.tiles _ _ _ _ _ = true |- _ => apply IH in H as (Hc & Ha & Hb)
    end.
    assert (Hok : op_ok a b op).
    { unfold op_ok. repeat split; try lia.
      match goal with H : Difflib.tag_ok _ _ _ = true |- _ => revert H end.
      unfold Difflib.tag_ok. destruct (Difflib.op_tag op); try (intros _; exact I).
      - now intros ->%Nat.eqb_eq.
      - now intros ->%Nat.eqb_eq.
      - now destruct (list_eq_dec _ _ _). }
    split; [repeat (split; [assumption |]); assumption | lia].
Qed.

End Contract.

(** ** Grouping keeps a script a script *)

Section GroupedScript.

Variables a b : list string.
Variable n : nat.
Hypothesis n_positive : 1 <= n.

Lemma is_equal_true (t : Difflib.tag) :
  Difflib.is_equal t = true -> t = Difflib.Equal.
Proof. now destruct t. Qed.

(** An [Equal] opcode is a stretch on which the sequences agree. *)
Lemma equal_op_ok (i j i' j' : nat) :
  op_ok a b (Difflib.mkOp Difflib.Equal i i' j j') <-> gap a b i j i' j'.
Proof. unfold op_ok, gap; cbn. tauto. Qed.

(** The last [n] lines of an [Equal] opcode. *)
Lemma trim_leading_equal (i j i' j' : nat) :
  gap a b i j i' j' ->
  exists e,
    e = (i' - i) - Nat.min n (i' - i)
    /\ Difflib.trim_leading n (Difflib.mkOp Difflib.Equal i i' j j')
       = Difflib.mkOp Difflib.Equal (i + e) i' (j + e) j'
    /\ gap a b i j (i + e) (j + e) /\ gap a b (i + e) (j + e) i' j'.
Proof.
  intros G. pose proof (gap_length a b _ _ _ _ G) as Hlen.
  exists ((i' - i) - Nat.min n (i' - i)). split; [reflexivity |].
  split.
  - destruct G as (Hi & _ & Hj & _). unfold Difflib.trim_leading; cbn. f_equal; lia.
  - apply gap_split; [exact G | lia].
Qed.

(** The first [n] lines of an [Equal] opcode. *)
Lemma trim_trailing_equal (i j i' j' : nat) :
  gap a b i j i' j' ->
  exists d,
    d = Nat.min n (i' - i)
    /\ Difflib.trim_trailing n (Difflib.mkOp Difflib.Equal i i' j j')
       = Difflib.mkOp Difflib.Equal i (i + d) j (j + d)
    /\ gap a b i j (i + d) (j + d) /\ gap a b (i + d) (j + d) i' j'.
Proof.
  intros G. pose proof (gap_length a b _ _ _ _ G) as Hlen.
  exists (Nat.min n (i' - i)). split; [reflexivity |].
  split.
  - destruct G as (Hi & _ & Hj & _). unfold Difflib.trim_trailing; cbn. f_equal; lia.
  - apply gap_split; [exact G | lia].
Qed.

(** The loop of [get_grouped_opcodes].  The groups already handed out end
    at [(pi, pj)]; the pending group runs from [(gi, gj)] to [(i, j)], where
    the codes still to come start. *)
Lemma group_loop_hunks (codes : list Difflib.opcode) :
  forall group pi pj gi gj i j i' j',
    gap a b pi pj gi gj ->
    chain a b gi gj group i j ->
    chain a b i j codes i' j' ->
    gap a b i' j' (length a) (length b) ->
    gi = 0 \/ gi < i
    \/ (exists op rest, codes = op :: rest /\ gi < Difflib.i2 op) ->
    hunks a b pi pj (Difflib.group_loop n codes group).
Proof.
  induction codes as [| op codes IH];
    intros group pi pj gi gj i j i' j' Gp Hg Hc Gend Hstart.
  - (* the test after the loop *)
    cbn [chain] in Hc. destruct Hc as [<- <-].
    assert (Hs : gi < i \/ gi = 0).
    { destruct Hstart as [H | [H | (op & rest & H & _)]];
        [now right | now left | discriminate H]. }
    assert (Hyield : group <> [] -> hunks a b pi pj [group]).
    { intros Hne. eapply hunks_cons; try eassumption. now constructor. }
    cbn [Difflib.group_loop]. destruct group as [| op [| op' group]].
    + cbn [chain] in Hg. destruct Hg as [<- <-].
      constructor. eapply gap_trans; eassumption.
    + destruct (Difflib.is_equal (Difflib.op_tag op)) eqn:Heq;
        [| apply Hyield; discriminate].
      apply is_equal_true in Heq. destruct op as [t x x' y y'].
      cbn [Difflib.op_tag] in Heq. subst t.
      cbn [chain Difflib.i1 Difflib.j1 Difflib.i2 Difflib.j2] in Hg.
      destruct Hg as (<- & <- & Hok & <- & <-).
      apply (proj1 (equal_op_ok x y x' y')) in Hok.
      constructor. eapply gap_trans; [exact Gp |]. eapply gap_trans; eassumption.
    + apply Hyield; discriminate.
  - cbn [chain] in Hc. destruct Hc as (Hi1 & Hj1 & Hok & Hc).
    assert (Hb : gi <= i).
    { destruct Gp as (_ & Ha & _ & Hb & _).
      now destruct (chain_bounds a b group _ _ _ _ Hg Ha Hb). }
    cbn [Difflib.group_loop].
    destruct (Difflib.is_equal (Difflib.op_tag op)
              && (n + n <? Difflib.i2 op - Difflib.i1 op)) eqn:Hsplit.
    + (* a long stretch without changes ends the group *)
      apply andb_true_iff in Hsplit as [Heq Hlong].
      apply Nat.ltb_lt in Hlong. apply is_equal_true in Heq.
      destruct op as [t x x' y y'].
      cbn [Difflib.op_tag Difflib.i1 Difflib.j1 Difflib.i2 Difflib.j2] in *.
      subst t x y. apply (proj1 (equal_op_ok i j x' y')) in Hok.
      destruct (trim_trailing_equal _ _ _ _ Hok) as (d & Hd & Et & Gt & Gt').
      destruct (trim_leading_equal _ _ _ _ Gt') as (e & He & _ & Gm & Gl).
      assert (El : Difflib.trim_leading n (Difflib.mkOp Difflib.Equal i x' j y')
                   = Difflib.mkOp Difflib.Equal (i + d + e) x' (j + d + e) y').
      { pose proof (gap_length a b _ _ _ _ Hok) as Hlen.
        destruct Hok as (? & _ & ? & _).
        unfold Difflib.trim_leading; cbn. f_equal; lia. }
      rewrite El, Et.
      eapply (hunks_cons a b pi pj gi gj (i + d) (j + d)).
      * now destruct group.
      * exact Gp.
      * left. lia.
      * apply chain_app. exists i, j. split; [exact Hg |].
        cbn [chain Difflib.i1 Difflib.j1 Difflib.i2 Difflib.j2].
        repeat (split; [reflexivity |]). split; [| now split].
        now apply (proj2 (equal_op_ok i j (i + d) (j + d))).
      * eapply (IH _ (i + d) (j + d) (i + d + e) (j + d + e) x' y' i' j');
          try eassumption.
        -- cbn [chain Difflib.i1 Difflib.j1 Difflib.i2 Difflib.j2].
           repeat (split; [reflexivity |]). split; [| now split].
           now apply (proj2 (equal_op_ok (i + d + e) (j + d + e) x' y')).
        -- right; left. lia.
    + (* the opcode joins the pending group *)
      eapply (IH _ pi pj gi gj (Difflib.i2 op) (Difflib.j2 op) i' j');
        try eassumption.
      * apply chain_app. exists i, j. split; [exact Hg |].
        cbn [chain]. repeat (split; [assumption |]). now split.
      * destruct Hok as (Hle & _).
        destruct Hstart as [H | [H | (op0 & rest & H & Hlt)]].
        -- now left.
        -- right; left. lia.
        -- injection H as <- _. right; left. exact Hlt.
Qed.

(** Trimming the leading [Equal] opcode moves the start of the chain
    forward over lines on which the sequences agree. *)
Lemma fix_first_chain (codes : list Difflib.opcode) (i' j' : nat) :
  chain a b 0 0 codes i' j' ->
  exists i0 j0,
    gap a b 0 0 i0 j0
    /\ chain a b i0 j0 (Difflib.fix_first n codes) i' j'
    /\ (i0 = 0
        \/ exists op rest,
             Difflib.fix_first n codes = op :: rest /\ i0 < Difflib.i2 op).
Proof.
  intros Hc.
  assert (Hkeep : exists i0 j0,
             gap a b 0 0 i0 j0 /\ chain a b i0 j0 codes i' j'
             /\ (i0 = 0 \/ exists op rest, codes = op :: rest /\ i0 < Difflib.i2 op)).
  { exists 0, 0. split; [apply gap_refl; lia |]. split; [exact Hc | now left]. }
  destruct codes as [| op rest]; [exact Hkeep |].
  cbn [Difflib.fix_first].
  destruct (Difflib.is_equal (Difflib.op_tag op)) eqn:Heq; [| exact Hkeep].
  clear Hkeep. apply is_equal_true in Heq. destruct op as [t x x' y y'].
  cbn [chain Difflib.op_tag Difflib.i1 Difflib.j1 Difflib.i2 Difflib.j2] in *.
  destruct Hc as (-> & -> & Hok & Hc). subst t.
  apply (proj1 (equal_op_ok 0 0 x' y')) in Hok.
  destruct (trim_leading_equal _ _ _ _ Hok) as (e & He & -> & G1 & G2).
  exists (0 + e), (0 + e). split; [exact G1 |]. split.
  - cbn [chain Difflib.i1 Difflib.j1 Difflib.i2 Difflib.j2].
    repeat (split; [reflexivity |]). split; [| exact Hc].
    now apply (proj2 (equal_op_ok (0 + e) (0 + e) x' y')).
  - destruct (Nat.eq_dec x' 0) as [-> | Hpos]; [left; lia |].
    right. eexists _, _. split; [reflexivity |]. cbn [Difflib.i2]. lia.
Qed.

(** Trimming the trailing [Equal] opcode moves the end of the chain back
    over lines on which the sequences agree. *)
Lemma fix_last_chain (codes : list Difflib.opcode) :
  forall i j i' j',
    chain a b i j codes i' j' ->
    gap a b i' j' (length a) (length b) ->
    exists i'' j'',
      chain a b i j (Difflib.fix_last n codes) i'' j''
      /\ gap a b i'' j'' (length a) (length b).
Proof.
  induction codes as [| op codes IH]; intros i j i' j' Hc Gend.
  - exists i', j'. now split.
  - destruct codes as [| op' codes].
    + cbn [Difflib.fix_last].
      destruct (Difflib.is_equal (Difflib.op_tag op)) eqn:Heq;
        [| exists i', j'; now split].
      apply is_equal_true in Heq. destruct op as [t x x' y y'].
      cbn [chain Difflib.op_tag Difflib.i1 Difflib.j1 Difflib.i2 Difflib.j2] in *.
      destruct Hc as (-> & -> & Hok & -> & ->). subst t.
      apply (proj1 (equal_op_ok i j i' j')) in Hok.
      destruct (trim_trailing_equal _ _ _ _ Hok) as (d & Hd & -> & G1 & G2).
      exists (i + d), (j + d). split.
      * cbn [chain Difflib.i1 Difflib.j1 Difflib.i2 Difflib.j2].
        repeat (split; [reflexivity |]). split; [| now split].
        now apply (proj2 (equal_op_ok i j (i + d) (j + d))).
      * eapply gap_trans; eassumption.
    + change (Difflib.fix_last n (op :: op' :: codes))
        with (op :: Difflib.fix_last n (op' :: codes)).
      cbn [chain] in Hc. destruct Hc as (H1 & H2 & Hok & Hc).
      destruct (IH _ _ _ _ Hc Gend) as (i'' & j'' & Hc' & G).
      exists i'', j''. split; [| exact G].
      cbn [chain]. repeat (split; [assumption |]). exact Hc'.
Qed.

Lemma fix_last_start (codes : list Difflib.opcode) (i j i' j' : nat) :
  chain a b i j codes i' j' ->
  (exists op rest, codes = op :: rest /\ i < Difflib.i2 op) ->
  exists op rest, Difflib.fix_last n codes = op :: rest /\ i < Difflib.i2 op.
Proof.
  intros Hc (op & rest & -> & Hlt). destruct rest as [| op' rest].
  - cbn [Difflib.fix_last]. destruct (Difflib.is_equal (Difflib.op_tag op)).
    + eexists _, _. split; [reflexivity |].
      cbn [chain] in Hc. destruct Hc as (Hi & _).
      unfold Difflib.trim_trailing. cbn [Difflib.i2]. lia.
    + now eexists _, _.
  - change (Difflib.fix_last n (op :: op' :: rest))
      with (op :: Difflib.fix_last n (op' :: rest)).
    now eexists _, _.
Qed.

(** The groups of a valid script are hunks that turn [a] into [b]. *)
Lemma grouped_hunks (codes : list Difflib.opcode) :
  chain a b 0 0 codes (length a) (length b) ->
  hunks a b 0 0 (Difflib.get_grouped_opcodes n codes).
Proof.
  intros Hc. unfold Difflib.get_grouped_opcodes.
  destruct codes as [| op codes].
  - (* no opcode: both sequences are empty *)
    cbn [chain] in Hc. destruct Hc as [Ha Hb].
    destruct n as [| n']; [lia |]. cbn.
    constructor. rewrite <- Ha, <- Hb. apply gap_refl; lia.
  - destruct (fix_first_chain _ _ _ Hc) as (i0 & j0 & G0 & Hc1 & Hs1).
    destruct (fix_last_chain _ _ _ _ _ Hc1 (gap_refl a b _ _ (le_n _) (le_n _)))
      as (i'' & j'' & Hc2 & Gend).
    eapply (group_loop_hunks _ [] 0 0 i0 j0 i0 j0 i'' j''); try eassumption.
    + now split.
    + destruct Hs1 as [H0 | Hs1]; [now left |].
      right; right. eapply fix_last_start; eassumption.
Qed.

End GroupedScript.

(** The two file-header lines of a unified diff are skipped. *)
Lemma run_file_headers (O : list string) (from_line to_line : string)
  (rest : list string) (st : state) :
  run O Scanning (("--- " ++ from_line)%string :: ("+++ " ++ to_line)%string :: rest) st
  = run O Scanning rest st.
Proof.
  assert (Hfrom : Py.startswith_any ("--- " ++ from_line) diff_headers = true).
  { unfold Py.startswith_any, diff_headers, Py.startswith. cbn [existsb append].
    pose proof (prefix_app "---" (String " " from_line)) as P.
    cbn [append] in P. now rewrite P. }
  assert (Hto : Py.startswith_any ("+++ " ++ to_line) diff_headers = true).
  { unfold Py.startswith_any, diff_headers, Py.startswith. cbn [existsb append].
    pose proof (prefix_app "+++" (String " " to_line)) as P.
    cbn [append] in P. rewrite P, prefix_cons_other by discriminate.
    reflexivity. }
  rewrite run_cons. cbn [line_step].
  rewrite (scan_line_diff_header O _ st Hfrom). cbn [bind fst snd].
  rewrite run_cons. cbn [line_step].
  now rewrite (scan_line_diff_header O _ st Hto).
Qed.

(** The round trip for any valid script, whichever matcher it comes
    from. *)
Lemma round_trip_of_script (O T : list string) (codes : list Difflib.opcode)
  (fromfile tofile fromfiledate tofiledate : string) (n : nat)
  (lineterm : string) :
  1 <= n -> chain O T 0 0 codes (length O) (length T) ->
  apply_patch O
    (Difflib.unified_diff_of_opcodes O T codes fromfile tofile fromfiledate
       tofiledate n lineterm)
  = Return T.
Proof.
  intros Hn Hc.
  pose proof (grouped_hunks O T n Hn codes Hc) as Hh.
  unfold Difflib.unified_diff_of_opcodes.
  destruct (Difflib.get_grouped_opcodes n codes) as [| g gs] eqn:Eg.
  - inversion Hh as [i j G |]; subst.
    apply gap_to_end in G. cbn [firstn skipn app] in G. subst T.
    rewrite apply_patch_run. cbn [run bind snd initial result orig_idx skipn app].
    reflexivity.
  - rewrite apply_patch_run, run_file_headers.
    destruct (run_hunks O T lineterm (g :: gs) 0 0 Hh Scanning)
      as (m' & st' & Hrun & Hres).
    cbn [firstn] in Hrun. unfold initial. rewrite Hrun. cbn [bind snd].
    now rewrite Hres.
Qed.

Lemma round_trip_of_valid_opcodes (O T : list string)
  (codes : list Difflib.opcode)
  (fromfile tofile fromfiledate tofiledate : string) (n : nat)
  (lineterm : string) :
  1 <= n -> Difflib.valid_opcodes O T codes = true ->
  apply_patch O
    (Difflib.unified_diff_of_opcodes O T codes fromfile tofile fromfiledate
       tofiledate n lineterm)
  = Return T.
Proof.
  intros Hn Hv. apply round_trip_of_script; [exact Hn |].
  now apply (tiles_chain O T) in Hv.
Qed.

(* ================================================================= *)
(** * The matcher keeps its contract *)

Section FindLongestMatch.

Variables a b : list string.

Lemma indices_from_spec (x : string) (ys : list string) :
  forall j0 j,
    In j (Difflib.indices_from x ys j0) ->
    j0 <= j /\ j < j0 + length ys /\ nth (j - j0) ys EmptyString = x.
Proof.
  induction ys as [| y ys IH]; intros j0 j H; cbn [Difflib.indices_from] in H.
  - destruct H.
  - assert (Hrec : In j (Difflib.indices_from x ys (S j0)) ->
                   j0 <= j /\ j < j0 + length (y :: ys)
                   /\ nth (j - j0) (y :: ys) EmptyString = x).
    { intros Hin. apply IH in Hin as (H1 & H2 & H3). cbn [length].
      split; [lia |]. split; [lia |].
      replace (j - j0) with (S (j - S j0)) by lia. exact H3. }
    destruct (String.eqb_spec y x) as [-> | _]; [| exact (Hrec H)].
    destruct H as [<- | H]; [| exact (Hrec H)].
    cbn [length]. split; [lia |]. split; [lia |].
    now rewrite Nat.sub_diag.
Qed.

(** The entries of [b2j] are positions of the element in [b]. *)
Lemma b2j_get_spec (x : string) (j : nat) :
  In j (Difflib.b2j_get b x) -> j < length b /\ nth j b EmptyString = x.
Proof.
  unfold Difflib.b2j_get. destruct (Difflib.is_popular b x); [intros [] |].
  intros H. apply indices_from_spec in H as (_ & H2 & H3).
  rewrite Nat.sub_0_r in H3. split; [lia | exact H3].
Qed.

Section Region.

Variables alo ahi blo bhi : nat.
Local Abbreviation good := (good_match a b alo ahi blo bhi).
Local Abbreviation recorded := (j2len_ok a b alo ahi blo bhi).

Lemma run_of_extend (i j k : nat) :
  run_of a b i j k ->
  nth (i + k) a EmptyString = nth (j + k) b EmptyString ->
  run_of a b i j (k + 1).
Proof.
  intros H Hk t Ht. destruct (Nat.eq_dec t k) as [-> | Hne]; [exact Hk |].
  apply H. lia.
Qed.

Lemma run_of_extend_left (i j k : nat) :
  run_of a b (S i) (S j) k ->
  nth i a EmptyString = nth j b EmptyString ->
  run_of a b i j (k + 1).
Proof.
  intros H H0 t Ht. destruct t as [| t].
  - now rewrite !Nat.add_0_r.
  - replace (i + S t) with (S i + t) by lia.
    replace (j + S t) with (S j + t) by lia. apply H. lia.
Qed.

(** The match that [j2len] records before [b[j]], of length [0] when it
    records none. *)
Lemma j2len_get_before_ok (i j : nat) (j2len : nat -> nat) :
  recorded i j2len -> alo <= i -> blo <= j ->
  let d := Difflib.j2len_get_before j2len j in
  d <= i /\ d <= j /\ alo <= i - d /\ blo <= j - d /\ run_of a b (i - d) (j - d) d.
Proof.
  intros Hrec Hi Hj. cbv zeta.
  assert (H0 : 0 <= i /\ 0 <= j /\ alo <= i - 0 /\ blo <= j - 0
               /\ run_of a b (i - 0) (j - 0) 0).
  { repeat split; try lia. intros t Ht. lia. }
  destruct j as [| j']; cbn [Difflib.j2len_get_before]; [exact H0 |].
  destruct (Nat.eq_dec (j2len j') 0) as [-> | Hpos]; [exact H0 |].
  destruct (Hrec j') as (H1 & H2 & H3 & _ & H4 & _ & H5); [lia |].
  replace (S j' - j2len j') with (j' + 1 - j2len j') by lia.
  repeat split; (lia || assumption).
Qed.

Lemma inner_loop_ok (i : nat) (j2len : nat -> nat) (js : list nat) :
  alo <= i -> i < ahi -> recorded i j2len ->
  (forall j, In j js -> nth j b EmptyString = nth i a EmptyString) ->
  forall newj2len best,
    recorded (S i) newj2len -> good best ->
    recorded (S i) (fst (Difflib.inner_loop j2len i blo bhi js newj2len best))
    /\ good (snd (Difflib.inner_loop j2len i blo bhi js newj2len best)).
Proof.
  intros Hi Hlt Hrec. induction js as [| j js IH]; intros Hjs newj2len best Hnew Hbest.
  - now split.
  - cbn [Difflib.inner_loop].
    assert (Hjs' : forall j', In j' js -> nth j' b EmptyString = nth i a EmptyString)
      by (intros j' Hin; apply Hjs; now right).
    destruct (Nat.ltb_spec j blo) as [Hlo | Hlo]; [now apply IH |].
    destruct (Nat.leb_spec bhi j) as [Hhi | Hhi]; [now split |].
    destruct (j2len_get_before_ok i j j2len Hrec Hi Hlo)
      as (H1 & H2 & H3 & H4 & H5).
    set (d := Difflib.j2len_get_before j2len j) in *.
    assert (Hgood : good (i + 1 - (d + 1), j + 1 - (d + 1), d + 1)).
    { replace (i + 1 - (d + 1)) with (i - d) by lia.
      replace (j + 1 - (d + 1)) with (j - d) by lia.
      repeat split; try lia.
      apply run_of_extend; [exact H5 |].
      replace (i - d + d) with i by lia. replace (j - d + d) with j by lia.
      symmetry. apply Hjs. now left. }
    apply IH; [exact Hjs' | |].
    + unfold j2len_ok. intros j' Hpos. unfold Difflib.dict_set in *.
      destruct (Nat.eqb_spec j' j) as [E | Hne]; [| now apply Hnew].
      rewrite E. split; [lia |]. split; [lia |].
      replace (S i - (d + 1)) with (i + 1 - (d + 1)) by lia. exact Hgood.
    + destruct best as [[besti bestj] bestsize].
      now destruct (bestsize <? d + 1).
Qed.

Lemma outer_loop_ok (count : nat) :
  forall i j2len best,
    alo <= i -> i + count = ahi -> recorded i j2len -> good best ->
    good (Difflib.outer_loop a b count i blo bhi j2len best).
Proof.
  induction count as [| count IH]; intros i j2len best Hi Hend Hrec Hbest.
  - exact Hbest.
  - cbn [Difflib.outer_loop].
    destruct (inner_loop_ok i j2len (Difflib.b2j_get b (nth i a EmptyString))
                Hi ltac:(lia) Hrec
                (fun j Hin => proj2 (b2j_get_spec _ _ Hin))
                (fun _ => 0) best) as [Hnew Hbest'].
    + unfold j2len_ok. intros j Hpos. lia.
    + exact Hbest.
    + destruct (Difflib.inner_loop _ _ _ _ _ _ _) as [newj2len best'].
      apply IH; (lia || assumption).
Qed.

Lemma extend_left_ok (besti : nat) :
  forall bestj bestsize,
    good (besti, bestj, bestsize) ->
    good (Difflib.extend_left a b alo blo besti bestj bestsize).
Proof.
  induction besti as [| besti IH]; intros bestj bestsize Hgood; [exact Hgood |].
  cbn [Difflib.extend_left].
  destruct (Nat.ltb_spec alo (S besti)) as [Hi | _]; [| exact Hgood].
  destruct (Nat.ltb_spec blo bestj) as [Hj | _]; [| exact Hgood].
  cbn [andb].
  destruct (String.eqb_spec (nth besti a EmptyString) (nth (bestj - 1) b EmptyString))
    as [Heq | _]; [| exact Hgood].
  apply IH. destruct Hgood as (H1 & H2 & H3 & H4 & H5).
  repeat split; try lia.
  apply run_of_extend_left; [| exact Heq].
  now replace (S (bestj - 1)) with bestj by lia.
Qed.

Lemma extend_right_ok (room : nat) :
  forall besti bestj bestsize,
    besti + bestsize + room = ahi ->
    good (besti, bestj, bestsize) ->
    good (Difflib.extend_right a b room bhi besti bestj bestsize).
Proof.
  induction room as [| room IH]; intros besti bestj bestsize Hroom Hgood;
    [exact Hgood |].
  cbn [Difflib.extend_right].
  destruct (Nat.ltb_spec (bestj + bestsize) bhi) as [Hj | _]; [| exact Hgood].
  cbn [andb].
  destruct (String.eqb_spec (nth (besti + bestsize) a EmptyString)
              (nth (bestj + bestsize) b EmptyString)) as [Heq | _];
    [| exact Hgood].
  apply IH; [lia |]. destruct Hgood as (H1 & H2 & H3 & H4 & H5).
  repeat split; try lia. now apply run_of_extend.
Qed.

(** [find_longest_match] returns a match within its region. *)
Lemma find_longest_match_ok :
  alo <= ahi -> blo <= bhi ->
  good (Difflib.find_longest_match a b alo ahi blo bhi).
Proof.
  intros Ha Hb. unfold Difflib.find_longest_match.
  assert (H0 : good (Difflib.outer_loop a b (ahi - alo) alo blo bhi (fun _ => 0)
                       (alo, blo, 0))).
  { apply outer_loop_ok; try lia.
    - unfold j2len_ok. intros j Hpos. lia.
    - repeat split; try lia. intros t Ht. lia. }
  destruct (Difflib.outer_loop _ _ _ _ _ _ _ _) as [[besti bestj] bestsize].
  apply extend_left_ok in H0.
  destruct (Difflib.extend_left _ _ _ _ _ _ _) as [[besti' bestj'] bestsize'].
  apply extend_right_ok; [| exact H0].
  destruct H0 as (_ & H & _). lia.
Qed.

End Region.

End FindLongestMatch.

(** ** The loop of [get_matching_blocks] *)

Lemma apart_sym (r s : Difflib.region) : apart r s -> apart s r.
Proof. unfold apart. tauto. Qed.

Lemma apart_within (r' r s : Difflib.region) :
  within r' r -> apart r s -> apart r' s.
Proof.
  destruct r' as [[[x1 x2] x3] x4], r as [[[y1 y2] y3] y4], s as [[[z1 z2] z3] z4].
  unfold within, apart, before. lia.
Qed.

Lemma FOP_snoc {A : Type} (R : A -> A -> Prop) (l : list A) (x : A) :
  ForallOrdPairs R l -> (forall y, In y l -> R y x) ->
  ForallOrdPairs R (l ++ [x]).
Proof.
  induction 1 as [| y l Hy _ IH]; intros Hx; cbn [app].
  - constructor; constructor.
  - constructor.
    + apply Forall_app. split; [exact Hy |].
      constructor; [apply Hx; now left | constructor].
    + apply IH. intros z Hz. apply Hx. now right.
Qed.

Section MatchingBlocks.

Variables a b : list string.

Lemma run_of_gap (i j k : nat) :
  i + k <= length a -> j + k <= length b -> run_of a b i j k ->
  gap a b i j (i + k) (j + k).
Proof.
  intros Ha Hb Hrun. unfold gap. repeat split; try lia.
  apply (nth_ext _ _ EmptyString EmptyString).
  - rewrite !slice_length by lia. lia.
  - intros t Ht. rewrite slice_length in Ht by lia.
    unfold Py.slice. rewrite !nth_firstn, !nth_skipn.
    replace (t <? i + k - i) with true by (symmetry; apply Nat.ltb_lt; lia).
    replace (t <? j + k - j) with true by (symmetry; apply Nat.ltb_lt; lia).
    apply Hrun. lia.
Qed.

Lemma good_match_block (alo ahi blo bhi : nat) (x : Difflib.block) :
  region_ok a b (alo, ahi, blo, bhi) -> good_match a b alo ahi blo bhi x ->
  block_ok a b x /\ within (region_of x) (alo, ahi, blo, bhi).
Proof.
  destruct x as [[i j] k]. intros (H1 & H2 & H3 & H4) (G1 & G2 & G3 & G4 & G5).
  split; [apply run_of_gap; (lia || assumption) |].
  unfold within, region_of. lia.
Qed.

Lemma matcher_inv_pop (r : Difflib.region) (queue : list Difflib.region)
  (blocks : list Difflib.block) :
  matcher_inv a b (r :: queue) blocks -> matcher_inv a b queue blocks.
Proof.
  intros (H1 & H2 & H3 & H4 & H5).
  inversion H1; subst. inversion H3; subst.
  repeat split; try assumption. intros r' x Hr Hx. apply H4; [now right | exact Hx].
Qed.

Lemma matcher_inv_push (r : Difflib.region) (queue : list Difflib.region)
  (blocks : list Difflib.block) :
  matcher_inv a b queue blocks -> region_ok a b r ->
  (forall s, In s queue -> apart r s) ->
  (forall x, In x blocks -> apart r (region_of x)) ->
  matcher_inv a b (r :: queue) blocks.
Proof.
  intros (H1 & H2 & H3 & H4 & H5) Hr Hq Hb.
  split; [now constructor |]. split; [exact H2 |].
  split; [constructor; [now apply Forall_forall | exact H3] |].
  split; [| exact H5].
  intros r' x [<- | Hr'] Hx; [now apply Hb | now apply H4].
Qed.

(** A block found in the region at the head of the queue joins the
    blocks. *)
Lemma matcher_inv_found (r : Difflib.region) (queue : list Difflib.region)
  (blocks : list Difflib.block) (x : Difflib.block) :
  matcher_inv a b (r :: queue) blocks ->
  block_ok a b x -> 1 <= snd x -> within (region_of x) r ->
  matcher_inv a b queue (blocks ++ [x]).
Proof.
  intros (H1 & H2 & H3 & H4 & H5) Hx Hk Hin.
  inversion H1 as [| ? ? Hr H1']; subst. inversion H3 as [| ? ? Hrq H3']; subst.
  assert (Hxb : forall y, In y blocks -> apart (region_of y) (region_of x)).
  { intros y Hy. apply apart_sym. eapply apart_within; [exact Hin |].
    apply H4; [now left | exact Hy]. }
  split; [exact H1' |].
  split; [apply Forall_app; split; [exact H2 | now repeat constructor] |].
  split; [exact H3' |].
  split; [| now apply FOP_snoc].
  intros r' y Hr' Hy. apply in_app_or in Hy as [Hy | [<- | []]].
  - apply H4; [now right | exact Hy].
  - apply apart_sym. eapply apart_within; [exact Hin |].
    rewrite Forall_forall in Hrq. now apply Hrq.
Qed.

(** The loop ends before the fuel does, with blocks that are non-empty
    matches and pairwise apart. *)
Lemma blocks_loop_spec (fuel : nat) :
  forall queue blocks,
    queue_weight queue <= fuel -> matcher_inv a b queue blocks ->
    exists found,
      Difflib.blocks_loop a b fuel queue blocks = Some found
      /\ matcher_inv a b [] found.
Proof.
  induction fuel as [| fuel IH]; intros queue blocks Hw Hinv.
  - destruct queue as [| [[[alo ahi] blo] bhi] queue]; [now exists blocks |].
    cbn [queue_weight] in Hw. lia.
  - destruct queue as [| [[[alo ahi] blo] bhi] queue]; [now exists blocks |].
    cbn [queue_weight] in Hw. cbn [Difflib.blocks_loop].
    assert (Hr : region_ok a b (alo, ahi, blo, bhi))
      by (destruct Hinv as (H & _); now inversion H).
    pose proof (find_longest_match_ok a b alo ahi blo bhi
                  ltac:(now destruct Hr) ltac:(now destruct Hr)) as Hgood.
    destruct (good_match_block _ _ _ _ _ Hr Hgood) as [Hblock Hwithin].
    destruct (Difflib.find_longest_match a b alo ahi blo bhi) as [[i j] k].
    destruct (Nat.eqb_spec k 0) as [_ | Hk].
    + apply IH; [lia | eapply matcher_inv_pop; exact Hinv].
    + destruct Hgood as (G1 & G2 & G3 & G4 & _).
      destruct Hr as (R1 & R2 & R3 & R4).
      pose proof (matcher_inv_found _ _ _ (i, j, k) Hinv Hblock
                    ltac:(cbn; lia) Hwithin) as Hinv0.
      assert (Hapart_queue : forall r', within r' (alo, ahi, blo, bhi) ->
                 forall s, In s queue -> apart r' s).
      { intros r' Hr' s Hs. eapply apart_within; [exact Hr' |].
        destruct Hinv as (_ & _ & H3 & _). inversion H3 as [| ? ? Hall _]; subst.
        rewrite Forall_forall in Hall. now apply Hall. }
      assert (Hapart_blocks : forall r', within r' (alo, ahi, blo, bhi) ->
                 forall y, In y blocks -> apart r' (region_of y)).
      { intros r' Hr' y Hy. eapply apart_within; [exact Hr' |].
        destruct Hinv as (_ & _ & _ & H4 & _). apply H4; [now left | exact Hy]. }
      (* the region before the block *)
      set (queue1 := if (alo <? i) && (blo <? j) then (alo, i, blo, j) :: queue
                     else queue).
      assert (Hinv1 : matcher_inv a b queue1 (blocks ++ [(i, j, k)])
                      /\ queue_weight queue1
                         <= 2 * (i - alo) + 1 + queue_weight queue
                      /\ forall s, In s queue1 ->
                                   apart (i + k, ahi, j + k, bhi) s).
      { assert (Hright : forall s, In s queue ->
                                   apart (i + k, ahi, j + k, bhi) s)
          by (apply Hapart_queue; unfold within; lia).
        unfold queue1. destruct ((alo <? i) && (blo <? j)).
        - split; [| split; [cbn [queue_weight]; lia |]].
          + apply matcher_inv_push; [exact Hinv0 | unfold region_ok; lia | |].
            * apply Hapart_queue. unfold within; lia.
            * intros y Hy. apply in_app_or in Hy as [Hy | [<- | []]].
              -- apply Hapart_blocks; [unfold within; lia | exact Hy].
              -- left. unfold before, region_of. lia.
          + intros s [<- | Hs]; [| now apply Hright].
            right. unfold before. lia.
        - split; [exact Hinv0 |]. split; [lia | exact Hright]. }
      destruct Hinv1 as (Hinv1 & Hw1 & Hright).
      (* the region after the block *)
      destruct ((i + k <? ahi) && (j + k <? bhi)).
      * apply IH; [cbn [queue_weight]; lia |].
        apply matcher_inv_push; [exact Hinv1 | unfold region_ok; lia | exact Hright |].
        intros y Hy. apply in_app_or in Hy as [Hy | [<- | []]].
        -- apply Hapart_blocks; [unfold within; lia | exact Hy].
        -- right. unfold before, region_of. lia.
      * apply IH; [lia | exact Hinv1].
Qed.

End MatchingBlocks.

(** ** Sorting the blocks *)

Lemma insert_block_in (x y : Difflib.block) (l : list Difflib.block) :
  In y (Difflib.insert_block x l) <-> y = x \/ In y l.
Proof.
  induction l as [| z l IH]; cbn [Difflib.insert_block].
  - cbn. intuition congruence.
  - destruct (Difflib.block_leb x z); cbn [In]; [intuition congruence |].
    rewrite IH. intuition congruence.
Qed.

Lemma sort_blocks_in (y : Difflib.block) (l : list Difflib.block) :
  In y (Difflib.sort_blocks l) <-> In y l.
Proof.
  induction l as [| x l IH]; cbn [Difflib.sort_blocks]; [reflexivity |].
  rewrite insert_block_in, IH. cbn [In]. intuition congruence.
Qed.

(** Of two non-empty blocks that are apart, the smaller tuple is the
    block that comes first. *)
Lemma apart_leb_before (x y : Difflib.block) :
  1 <= snd x -> 1 <= snd y -> apart (region_of x) (region_of y) ->
  if Difflib.block_leb x y then block_before x y else block_before y x.
Proof.
  destruct x as [[xi xj] xk], y as [[yi yj] yk]. cbn [snd].
  unfold apart, block_before, before, region_of, Difflib.block_leb.
  intros Hx Hy H.
  destruct (Nat.ltb_spec xi yi), (Nat.eqb_spec xi yi),
    (Nat.ltb_spec xj yj), (Nat.eqb_spec xj yj), (Nat.leb_spec xk yk);
    cbn [orb andb]; lia.
Qed.

Lemma insert_block_hd (x y : Difflib.block) (l : list Difflib.block) :
  HdRel block_before y l -> block_before y x ->
  HdRel block_before y (Difflib.insert_block x l).
Proof.
  intros Hl Hx. destruct l as [| z l]; cbn [Difflib.insert_block].
  - now constructor.
  - destruct (Difflib.block_leb x z); constructor; [exact Hx |].
    now inversion Hl.
Qed.

Lemma insert_block_sorted (x : Difflib.block) (l : list Difflib.block) :
  1 <= snd x -> Forall (fun y => 1 <= snd y) l ->
  (forall y, In y l -> apart (region_of x) (region_of y)) ->
  Sorted block_before l -> Sorted block_before (Difflib.insert_block x l).
Proof.
  intros Hx Hl Hapart Hs. induction Hs as [| y l Hs IH Hhd].
  - cbn. repeat constructor.
  - cbn [Difflib.insert_block].
    inversion Hl as [| ? ? Hy Hl']; subst.
    pose proof (apart_leb_before x y Hx Hy (Hapart y (or_introl eq_refl))) as Hxy.
    destruct (Difflib.block_leb x y).
    + constructor; [now constructor | now constructor].
    + constructor.
      * apply IH; [exact Hl' |]. intros z Hz. apply Hapart. now right.
      * now apply insert_block_hd.
Qed.

Lemma sort_blocks_sorted (l : list Difflib.block) :
  Forall (fun y => 1 <= snd y) l ->
  ForallOrdPairs (fun x y => apart (region_of x) (region_of y)) l ->
  Sorted block_before (Difflib.sort_blocks l).
Proof.
  intros Hl Hp. induction Hp as [| x l Hx _ IH]; cbn [Difflib.sort_blocks].
  - constructor.
  - inversion Hl as [| ? ? Hk Hl']; subst.
    apply insert_block_sorted; [exact Hk | | | now apply IH].
    + apply Forall_forall. intros y Hy. apply (proj1 (sort_blocks_in _ _)) in Hy.
      rewrite Forall_forall in Hl'. now apply Hl'.
    + intros y Hy. apply (proj1 (sort_blocks_in _ _)) in Hy.
      rewrite Forall_forall in Hx. now apply Hx.
Qed.

(** ** From the blocks to the opcodes *)

Section Opcodes.

Variables a b : list string.

(** Sorted matches form a chain of blocks. *)
Lemma sorted_blocks_chain (l : list Difflib.block) :
  Sorted block_before l -> Forall (block_ok a b) l ->
  forall i j,
    i <= length a -> j <= length b ->
    HdRel (fun _ x => i <= fst (fst x) /\ j <= snd (fst x)) (0, 0, 0) l ->
    blocks_chain a b i j l.
Proof.
  induction 1 as [| [[bi bj] k] l Hs IH Hhd]; intros Hok i j Ha Hb Hfirst.
  - now split.
  - inversion Hok as [| ? ? Hx Hok']; subst.
    inversion Hfirst as [| ? ? [Hi Hj]]; subst. cbn [fst snd] in Hi, Hj.
    cbn [blocks_chain]. split; [exact Hi |]. split; [exact Hj |].
    split; [exact Hx |].
    destruct Hx as (_ & Hla & _ & Hlb & _).
    apply IH; try assumption.
    destruct Hhd as [| [[yi yj] yk] l' Hy]; constructor.
    unfold block_before, before, region_of in Hy. cbn [fst snd]. lia.
Qed.

(** Collapsing adjacent blocks keeps a chain of blocks. *)
Lemma collapse_chain (blocks : list Difflib.block) :
  forall pending i j,
    blocks_chain a b i j (pending :: blocks) ->
    blocks_chain a b i j (Difflib.collapse pending blocks).
Proof.
  induction blocks as [| [[i2 j2] k2] rest IH]; intros [[i1 j1] k1] i j H;
    cbn [Difflib.collapse].
  - destruct (Nat.eqb_spec k1 0) as [-> | _]; [| exact H].
    cbn [blocks_chain] in *. destruct H as (H1 & H2 & G & _).
    destruct G as (_ & G2 & _ & G4 & _). lia.
  - cbn [blocks_chain] in H. destruct H as (H1 & H2 & G1 & H3 & H4 & G2 & H5).
    destruct ((i1 + k1 =? i2) && (j1 + k1 =? j2)) eqn:Hadj.
    + apply andb_true_iff in Hadj as [Ei Ej].
      apply Nat.eqb_eq in Ei, Ej. apply IH. cbn [blocks_chain].
      split; [exact H1 |]. split; [exact H2 |].
      replace (i1 + (k1 + k2)) with (i2 + k2) by lia.
      replace (j1 + (k1 + k2)) with (j2 + k2) by lia.
      split; [| exact H5]. eapply gap_trans; [exact G1 |].
      now rewrite Ei, Ej.
    + assert (Hrest : forall i' j', i' <= i2 -> j' <= j2 ->
                 blocks_chain a b i' j' (Difflib.collapse (i2, j2, k2) rest)).
      { intros i' j' Hi' Hj'. apply IH. cbn [blocks_chain].
        exact (conj Hi' (conj Hj' (conj G2 H5))). }
      destruct (Nat.eqb_spec k1 0) as [-> | _]; cbn [app].
      * apply Hrest; lia.
      * cbn [blocks_chain]. split; [exact H1 |]. split; [exact H2 |].
        split; [exact G1 |]. now apply Hrest.
Qed.

(** The opcodes between and over the blocks of a chain that ends with the
    sentinel are a valid script. *)
Lemma opcodes_from_chain (blocks : list Difflib.block) :
  forall i j,
    blocks_chain a b i j blocks ->
    chain a b i j
      (Difflib.opcodes_from i j (blocks ++ [(length a, length b, 0)]))
      (length a) (length b).
Proof.
  assert (Hbetween : forall i j ai bj rest,
             i <= ai -> j <= bj -> ai <= length a -> bj <= length b ->
             chain a b ai bj rest (length a) (length b) ->
             chain a b i j
               ((if (i <? ai) && (j <? bj) then [Difflib.mkOp Difflib.Replace i ai j bj]
                 else if i <? ai then [Difflib.mkOp Difflib.Delete i ai j bj]
                 else if j <? bj then [Difflib.mkOp Difflib.Insert i ai j bj]
                 else []) ++ rest)
               (length a) (length b)).
  { intros i j ai bj rest Hi Hj Ha Hb Hrest.
    destruct (Nat.ltb_spec i ai), (Nat.ltb_spec j bj); cbn [andb app chain];
      unfold op_ok; cbn [Difflib.op_tag Difflib.i1 Difflib.i2 Difflib.j1 Difflib.j2].
    - repeat split; (lia || assumption).
    - repeat split; (lia || assumption).
    - repeat split; (lia || assumption).
    - replace i with ai by lia. replace j with bj by lia. exact Hrest. }
  induction blocks as [| [[ai bj] size] rest IH]; intros i j H;
    cbn [app Difflib.opcodes_from].
  - destruct H as [Ha Hb]. apply Hbetween; try lia.
    cbn [Nat.eqb app Difflib.opcodes_from chain]. split; lia.
  - cbn [blocks_chain] in H. destruct H as (Hi & Hj & G & H).
    pose proof G as (_ & Ha & _ & Hb & _).
    apply Hbetween; try lia.
    destruct (Nat.eqb_spec size 0) as [-> | Hsize]; cbn [app].
    + rewrite !Nat.add_0_r in *. now apply IH.
    + cbn [chain Difflib.i1 Difflib.i2 Difflib.j1 Difflib.j2].
      repeat (split; [reflexivity |]). split; [| now apply IH].
      now apply (proj2 (equal_op_ok a b ai bj (ai + size) (bj + size))).
Qed.

(** [get_opcodes] ends and returns a valid script. *)
Lemma get_opcodes_chain :
  exists codes,
    Difflib.get_opcodes a b = Some codes
    /\ chain a b 0 0 codes (length a) (length b).
Proof.
  unfold Difflib.get_opcodes, Difflib.get_matching_blocks.
  destruct (blocks_loop_spec a b (2 * length a + 1)
              [(0, length a, 0, length b)] []) as (found & -> & Hinv).
  - cbn [queue_weight]. lia.
  - unfold matcher_inv. repeat split.
    + constructor; [unfold region_ok; lia | constructor].
    + constructor.
    + constructor; constructor.
    + intros r x _ [].
    + constructor.
  - destruct Hinv as (_ & Hblocks & _ & _ & Hpairs).
    eexists. split; [reflexivity |].
    apply opcodes_from_chain, collapse_chain.
    cbn [blocks_chain]. split; [lia |]. split; [lia |].
    split; [apply gap_refl; lia |]. rewrite !Nat.add_0_r.
    apply sorted_blocks_chain; try lia.
    + apply sort_blocks_sorted; [| exact Hpairs].
      eapply Forall_impl; [| exact Hblocks]. now intros x [_ Hk].
    + apply Forall_forall. intros x Hx. apply (proj1 (sort_blocks_in _ _)) in Hx.
      rewrite Forall_forall in Hblocks. now apply Hblocks.
    + destruct (Difflib.sort_blocks found); constructor. cbn. lia.
Qed.

End Opcodes.

(** With no context lines the round trip can fail: a hunk that only
    inserts names the line before the insertion, and the applier inserts
    one line too early. *)
Lemma round_trip_needs_context :
  Difflib.unified_diff [ln "a"; ln "b"] [ln "a"; ln "x"; ln "b"] "a" "b" "" "" 0
    (ln "")
  = Some [ln "--- a"; ln "+++ b"; ln "@@ -1,0 +2 @@"; ln "+x"]
  /\ apply_patch [ln "a"; ln "b"] [ln "--- a"; ln "+++ b"; ln "@@ -1,0 +2 @@"; ln "+x"]
     = Return [ln "x"; ln "a"; ln "b"].
Proof. split; vm_compute; reflexivity. Qed.

(* ================================================================= *)
(** * Lemmas on the rest of the two scripts *)

(** ** Text and lines *)

Module TextFacts.
Import Text.

(** Induction on a string, two characters at a time. *)
Lemma string_ind2 (P : string -> Prop) :
  P EmptyString ->
  (forall c, P (String c EmptyString)) ->
  (forall c c' t, P t -> P (String c' t) -> P (String c (String c' t))) ->
  forall s, P s.
Proof.
  intros H0 H1 H2 s.
  assert (both : P s /\ forall c, P (String c s)).
  { induction s as [| c' t [IHt IHct]].
    - split; [exact H0 | exact H1].
    - split; [apply IHct |].
      intro c. apply H2; [exact IHt | apply IHct]. }
  exact (proj1 both).
Qed.

Lemma join_app (xs ys : list string) :
  join (xs ++ ys) = (join xs ++ join ys)%string.
Proof.
  induction xs as [| x xs IH]; cbn [join app]; [reflexivity |].
  rewrite IH. symmetry. apply string_app_assoc.
Qed.

Lemma append_empty (s : string) : (s ++ "")%string = s.
Proof. induction s as [| c s IH]; cbn [append]; [reflexivity | now rewrite IH]. Qed.

Lemma splitlines_plain (c : ascii) (t : string) :
  is_linebreak c = false ->
  splitlines (String c t)
  = match splitlines t with
    | [] => [String c EmptyString]
    | l :: ls => String c l :: ls
    end.
Proof. intro H. cbn [splitlines]. now rewrite H. Qed.

Lemma splitlines_break (c c' : ascii) (t : string) :
  is_linebreak c = true ->
  splitlines (String c (String c' t))
  = if Ascii.eqb c CR && Ascii.eqb c' LF
    then String c (String c' EmptyString) :: splitlines t
    else String c EmptyString :: splitlines (String c' t).
Proof. intro H. cbn [splitlines]. rewrite H. reflexivity. Qed.

Lemma splitlines_nil (s : string) : splitlines s = [] -> s = EmptyString.
Proof.
  destruct s as [| c t]; [reflexivity |]. cbn [splitlines].
  destruct (is_linebreak c).
  - destruct t as [| c' t']; [discriminate |].
    destruct (Ascii.eqb c CR && Ascii.eqb c' LF); discriminate.
  - destruct (splitlines t); discriminate.
Qed.

Lemma line_kind_cons (c : ascii) (l : string) :
  is_linebreak c = false -> l <> EmptyString ->
  line_kind (String c l) = line_kind l.
Proof.
  intros H Hl. cbn [line_kind]. rewrite H.
  destruct l; [contradiction | reflexivity].
Qed.

Lemma last_char_cons (c : ascii) (l : string) :
  l <> EmptyString -> last_char (String c l) = last_char l.
Proof. intro Hl. destruct l; [contradiction | reflexivity]. Qed.

Lemma line_kind_nonempty (l : string) (k : bool) :
  line_kind l = Some k -> l <> EmptyString.
Proof. destruct l; [discriminate | discriminate]. Qed.

Lemma well_split_two (l l' : string) (rest : list string) :
  well_split (l :: l' :: rest)
  = is_terminated l && negb (seam l l') && well_split (l' :: rest).
Proof. reflexivity. Qed.

Lemma well_split_head (l : string) (ls : list string) :
  well_split (l :: ls) = true -> l <> EmptyString.
Proof.
  destruct l; [| discriminate]. intro H. exfalso.
  destruct ls; cbn in H; discriminate.
Qed.

Lemma well_split_cons (c : ascii) (l : string) (ls : list string) :
  is_linebreak c = false -> well_split (l :: ls) = true ->
  well_split (String c l :: ls) = true.
Proof.
  intros Hc H. pose proof (well_split_head _ _ H) as Hl.
  destruct ls as [| l' ls].
  - cbn [well_split] in *. unfold is_line in *.
    now rewrite (line_kind_cons c l Hc Hl).
  - rewrite well_split_two in *. unfold is_terminated, seam in *.
    now rewrite (line_kind_cons c l Hc Hl), (last_char_cons c l Hl).
Qed.

Lemma splitlines_first_char (c : ascii) (t l : string) (ls : list string) :
  splitlines (String c t) = l :: ls -> exists l', l = String c l'.
Proof.
  cbn [splitlines]. destruct (is_linebreak c).
  - destruct t as [| c' t'].
    + intro H. injection H as <- _. now eexists.
    + destruct (Ascii.eqb c CR && Ascii.eqb c' LF);
        intro H; injection H as <- _; now eexists.
  - destruct (splitlines t); intro H; injection H as <- _; now eexists.
Qed.

Lemma split_terminated (l r : string) :
  line_kind l = Some true -> seam l r = false ->
  splitlines (l ++ r) = l :: splitlines r.
Proof.
  induction l as [| c t IH]; [discriminate |].
  intros K S. cbn [line_kind] in K. cbn [append].
  destruct (is_linebreak c) eqn:Hc.
  - destruct t as [| c' t'].
    + cbn [append splitlines]. rewrite Hc.
      destruct r as [| c' r']; [reflexivity |].
      cbn [seam last_char] in S. now rewrite S.
    + destruct t'; [| discriminate].
      destruct (Ascii.eqb c CR && Ascii.eqb c' LF) eqn:E; [| discriminate].
      cbn [append splitlines]. now rewrite Hc, E.
  - destruct t as [| c' t'] eqn:Et; [discriminate |]. rewrite <- Et in *.
    assert (Ht : t <> EmptyString) by (rewrite Et; discriminate).
    unfold seam in S. rewrite (last_char_cons c t Ht) in S.
    rewrite (splitlines_plain c _ Hc), (IH K S). reflexivity.
Qed.

Lemma split_unterminated (l : string) :
  line_kind l = Some false -> splitlines l = [l].
Proof.
  induction l as [| c t IH]; [discriminate |].
  intro K. cbn [line_kind] in K.
  destruct (is_linebreak c) eqn:Hc.
  - destruct t as [| c' [| ? ?]]; try discriminate.
    destruct (Ascii.eqb c CR && Ascii.eqb c' LF); discriminate.
  - rewrite (splitlines_plain c _ Hc).
    destruct t as [| c' t'] eqn:Et; [reflexivity |]. rewrite <- Et in *.
    now rewrite (IH K).
Qed.

Lemma seam_join (l l' : string) (rest : list string) :
  l' <> EmptyString -> seam l (join (l' :: rest)) = seam l l'.
Proof.
  intro H. destruct l' as [| c t]; [contradiction |].
  unfold seam. cbn [join append]. reflexivity.
Qed.

Lemma join_splitlines (s : string) : join (splitlines s) = s.
Proof.
  induction s as [| c | c c' t IHt IHct] using string_ind2.
  - reflexivity.
  - cbn [splitlines]. now destruct (is_linebreak c).
  - destruct (is_linebreak c) eqn:Hc.
    + rewrite (splitlines_break c c' t Hc).
      destruct (Ascii.eqb c CR && Ascii.eqb c' LF).
      * cbn [join append]. now rewrite IHt.
      * cbn [join append] in *. now rewrite IHct.
    + rewrite (splitlines_plain c _ Hc).
      destruct (splitlines (String c' t)) as [| l ls] eqn:E.
      * apply splitlines_nil in E. discriminate.
      * cbn [join append] in *. now rewrite IHct.
Qed.

Lemma splitlines_well_split (s : string) : well_split (splitlines s) = true.
Proof.
  induction s as [| c | c c' t IHt IHct] using string_ind2.
  - reflexivity.
  - cbn [splitlines]. destruct (is_linebreak c) eqn:Hc;
      cbn [well_split]; unfold is_line; cbn [line_kind]; now rewrite Hc.
  - destruct (is_linebreak c) eqn:Hc.
    + rewrite (splitlines_break c c' t Hc).
      destruct (Ascii.eqb c CR && Ascii.eqb c' LF) eqn:E.
      * destruct (splitlines t) as [| l' ls] eqn:Et.
        -- cbn [well_split]. unfold is_line. cbn [line_kind]. now rewrite Hc, E.
        -- rewrite well_split_two, IHt. unfold is_terminated, seam.
           cbn [line_kind last_char]. rewrite Hc, E.
           apply andb_prop in E. destruct E as [_ E'].
           apply Ascii.eqb_eq in E'. subst c'.
           now destruct l'.
      * destruct (splitlines (String c' t)) as [| l' ls] eqn:Et.
        -- apply splitlines_nil in Et. discriminate.
        -- destruct (splitlines_first_char _ _ _ _ Et) as [l'' ->].
           rewrite well_split_two, IHct. unfold is_terminated, seam.
           cbn [line_kind last_char]. now rewrite Hc, E.
    + rewrite (splitlines_plain c _ Hc).
      destruct (splitlines (String c' t)) as [| l ls] eqn:E.
      * apply splitlines_nil in E. discriminate.
      * now apply well_split_cons.
Qed.

Lemma splitlines_join (lines : list string) :
  well_split lines = true -> splitlines (join lines) = lines.
Proof.
  induction lines as [| l rest IH]; [reflexivity |].
  intro W. destruct rest as [| l' rest].
  - cbn [join]. rewrite append_empty. cbn [well_split] in W.
    unfold is_line in W. destruct (line_kind l) as [[|] |] eqn:K.
    + rewrite <- (append_empty l) at 1.
      rewrite (split_terminated l "" K); [reflexivity |].
      unfold seam. now destruct (last_char l).
    + now apply split_unterminated.
    + discriminate.
  - rewrite well_split_two in W.
    apply andb_prop in W. destruct W as [W Wrest].
    apply andb_prop in W. destruct W as [T S].
    unfold is_terminated in T.
    destruct (line_kind l) as [[|] |] eqn:K; try discriminate.
    change (join (l :: l' :: rest)) with (l ++ join (l' :: rest))%string.
    rewrite (split_terminated _ _ K).
    + now rewrite (IH Wrest).
    + rewrite seam_join; [now destruct (seam l l') |].
      exact (well_split_head _ _ Wrest).
Qed.

(** *** The translation of line ends *)

Lemma universal_newlines_no_CR (s : string) :
  has_no_CR (universal_newlines s) = true.
Proof.
  unfold has_no_CR.
  induction s as [| c | c c' t IHt IHct] using string_ind2.
  - reflexivity.
  - cbn [universal_newlines].
    destruct (Ascii.eqb c CR) eqn:E; cbn [all_chars]; [reflexivity |].
    now rewrite E.
  - cbn [universal_newlines] in *.
    destruct (Ascii.eqb c CR) eqn:E.
    + destruct (Ascii.eqb c' LF); cbn [all_chars negb andb];
        change (Ascii.eqb LF CR) with false; cbn [negb andb];
        [exact IHt | exact IHct].
    + cbn [all_chars]. rewrite E. cbn [negb andb]. exact IHct.
Qed.

Lemma universal_newlines_id (s : string) :
  has_no_CR s = true -> universal_newlines s = s.
Proof.
  unfold has_no_CR. induction s as [| c t IH]; [reflexivity |].
  cbn [all_chars universal_newlines]. intro H.
  apply andb_prop in H as [Hc Ht].
  destruct (Ascii.eqb c CR); [discriminate |]. now rewrite IH.
Qed.

Lemma universal_newlines_fixed (s : string) :
  universal_newlines s = s <-> has_no_CR s = true.
Proof.
  split; [| apply universal_newlines_id].
  intro H. rewrite <- H. apply universal_newlines_no_CR.
Qed.

Lemma has_no_CR_join (lines : list string) :
  has_no_CR (join lines) = forallb has_no_CR lines.
Proof.
  induction lines as [| l rest IH]; [reflexivity |].
  cbn [join forallb]. unfold has_no_CR in *. now rewrite all_chars_app, IH.
Qed.

(** Written and read again through a file, a list of lines comes back as
    it was exactly when [splitlines] can return it and no line holds a
    carriage return. *)
Lemma lines_through_a_file (lines : list string) :
  splitlines (universal_newlines (join lines)) = lines
  <-> well_split lines && forallb has_no_CR lines = true.
Proof.
  rewrite <- has_no_CR_join. split.
  - intro H.
    assert (Hfix : universal_newlines (join lines) = join lines).
    { rewrite <- H at 2. now rewrite join_splitlines. }
    rewrite Hfix in H. apply universal_newlines_fixed in Hfix.
    rewrite Hfix, andb_true_r, <- H. apply splitlines_well_split.
  - intro H. apply andb_prop in H as [Hw Hc].
    rewrite (universal_newlines_id _ Hc). now apply splitlines_join.
Qed.

End TextFacts.

(* ================================================================= *)
(** ** The applier, one accepted line at a time *)

Lemma startswith_char_other (s : string) (c c' : ascii) :
  Py.startswith s (String c EmptyString) = true -> c <> c' ->
  Py.startswith s (String c' EmptyString) = false.
Proof.
  intros H Hc. apply startswith_char in H as (t & ->).
  apply prefix_cons_other. congruence.
Qed.

Lemma firstn_succ_nth_error {A : Type} (xs : list A) (i : nat) (x : A) :
  nth_error xs i = Some x -> firstn (S i) xs = firstn i xs ++ [x].
Proof.
  revert xs; induction i as [| i IH]; intros [| y xs] H; try discriminate H.
  - injection H as ->. reflexivity.
  - cbn [nth_error] in H. cbn [firstn app]. f_equal. now apply IH.
Qed.

Lemma firstn_slice {A : Type} (xs : list A) (i k : nat) :
  firstn (i + k) xs = firstn i xs ++ Py.slice xs i (i + k).
Proof.
  rewrite firstn_add. unfold Py.slice.
  now replace (i + k - i) with k by lia.
Qed.

Lemma slice_In {A : Type} (xs : list A) (i j : nat) (x : A) :
  In x (Py.slice xs i j) -> In x xs.
Proof.
  unfold Py.slice. intro H.
  rewrite <- (firstn_skipn i xs). apply in_or_app. right.
  rewrite <- (firstn_skipn (j - i) (skipn i xs)). apply in_or_app. now left.
Qed.

Lemma count_starting_cons (prefix line : string) (lines : list string) :
  count_starting prefix (line :: lines)
  = (if Py.startswith line prefix then 1 else 0) + count_starting prefix lines.
Proof.
  unfold count_starting. cbn [filter].
  now destruct (Py.startswith line prefix).
Qed.

Lemma body_lines_hunk_header (m : mode) (line : string) (rest : list string) :
  Py.startswith line "@@" = true ->
  body_lines m (line :: rest) = body_lines InHunk rest.
Proof. intro H. cbn [body_lines]. now rewrite H. Qed.

Lemma body_lines_scanning (line : string) (rest : list string) :
  Py.startswith line "@@" = false ->
  body_lines Scanning (line :: rest) = body_lines Scanning rest.
Proof. intro H. cbn [body_lines]. now rewrite H. Qed.

Lemma body_lines_in_hunk (line : string) (rest : list string) :
  Py.startswith line "@@" = false ->
  body_lines InHunk (line :: rest) = line :: body_lines InHunk rest.
Proof. intro H. cbn [body_lines]. now rewrite H. Qed.

Section Steps.

Variable O : list string.

Lemma copy_loop_Return (fuel : nat) (st st' : state) :
  copy_loop O fuel st = Return st' -> orig_idx st <= length O ->
  orig_idx st + fuel <= length O
  /\ st' = {| orig_idx := orig_idx st + fuel;
              result := result st
                        ++ Py.slice O (orig_idx st) (orig_idx st + fuel) |}.
Proof.
  intros H Hb.
  destruct (copy_loop_inv O (fun _ => True) (fun _ _ => I) fuel st st' H)
    as [Hi [Hb' _]].
  { split; [exact Hb | apply Forall_forall; intros; exact I]. }
  assert (Hle : orig_idx st + fuel <= length O) by lia.
  split; [exact Hle |].
  rewrite (copy_loop_slice O fuel st Hle) in H. now injection H as <-.
Qed.

Lemma scan_line_effect (line : string) (st : state) (m m' : mode) (st' : state) :
  scan_line O line st = Return (m', st') -> orig_idx st <= length O ->
  (m = InHunk -> Py.startswith line "@@" = true) ->
  step_effect O line st m m' st'.
Proof.
  unfold scan_line. intros H Hb Hm.
  destruct (Py.startswith_any line diff_headers) eqn:Hd.
  - injection H as <- <-.
    destruct (Py.startswith line "@@") eqn:Hat.
    + rewrite (hunk_header_not_diff_header line Hat) in Hd. discriminate.
    + destruct m; [now constructor | now specialize (Hm eq_refl)].
  - destruct (Py.startswith line "@@") eqn:Hat; [| discriminate].
    apply bind_Return_inv in H as (old_start & _ & H).
    apply bind_Return_inv in H as (st1 & Hc & H).
    injection H as <- <-.
    apply copy_loop_Return in Hc as [Hle ->]; [| exact Hb].
    now constructor.
Qed.

Lemma hunk_line_effect (line : string) (st st' : state) :
  hunk_line O line st = Return st' ->
  Py.startswith line "@@" = false ->
  step_effect O line st InHunk InHunk st'.
Proof.
  unfold hunk_line. intros H Hat.
  destruct (Py.startswith line " ") eqn:Hc.
  { rewrite mismatch_spec in H; cbn [bind] in H; unfold getitem in H.
    destruct (nth_error O (orig_idx st)) as [l |] eqn:Hl; [| discriminate].
    destruct (String.eqb l (Py.drop 1 line)) eqn:E; [| discriminate].
    apply String.eqb_eq in E. subst l.
    cbn [negb bind] in H. injection H as <-. now constructor. }
  destruct (Py.startswith line "-") eqn:Hd.
  { rewrite mismatch_spec in H; cbn [bind] in H.
    destruct (nth_error O (orig_idx st)) as [l |] eqn:Hl; [| discriminate].
    destruct (String.eqb l (Py.drop 1 line)) eqn:E; [| discriminate].
    apply String.eqb_eq in E. subst l.
    cbn [negb] in H. injection H as <-. now constructor. }
  destruct (Py.startswith line "+") eqn:Hi; [| discriminate].
  injection H as <-. now constructor.
Qed.

(** Every accepted patch line has one of the five effects. *)
Lemma line_step_effect (m : mode) (line : string) (st : state) (m' : mode)
  (st' : state) :
  line_step O m line st = Return (m', st') -> orig_idx st <= length O ->
  step_effect O line st m m' st'.
Proof.
  intros H Hb. destruct m; cbn [line_step] in H.
  - apply scan_line_effect; [exact H | exact Hb | discriminate].
  - destruct (Py.startswith line "@@") eqn:Hat.
    + apply scan_line_effect; [exact H | exact Hb | intros _; exact Hat].
    + apply bind_Return_inv in H as (st1 & Hl & H). injection H as <- <-.
      now apply hunk_line_effect.
Qed.

Lemma step_effect_bound (line : string) (st : state) (m m' : mode) (st' : state) :
  step_effect O line st m m' st' -> orig_idx st <= length O ->
  orig_idx st' <= length O.
Proof.
  intros E Hb. destruct E; cbn [orig_idx]; try assumption;
    apply Nat.le_succ_l, nth_error_Some; congruence.
Qed.

(** *** The lengths *)

Lemma run_accounting (lines : list string) :
  forall m st m' st',
    run O m lines st = Return (m', st') -> orig_idx st <= length O ->
    length (result st') + orig_idx st + count_starting "-" (body_lines m lines)
    = length (result st) + orig_idx st' + count_starting "+" (body_lines m lines).
Proof.
  induction lines as [| line rest IH]; intros m st m' st' H Hb.
  - injection H as _ <-. cbn [body_lines]. unfold count_starting. cbn. lia.
  - rewrite run_cons in H. apply bind_Return_inv in H as ([m1 st1] & Hl & H).
    cbn [fst snd] in H. apply line_step_effect in Hl; [| exact Hb].
    pose proof (step_effect_bound _ _ _ _ _ Hl Hb) as Hb1.
    specialize (IH _ _ _ _ H Hb1).
    destruct Hl as [Hat | m k Hat Hk | Hat Hc Hn | Hat Hc Hd Hn | Hat Hc Hd Hi].
    + rewrite (body_lines_scanning _ _ Hat). exact IH.
    + rewrite (body_lines_hunk_header _ _ _ Hat).
      cbn [orig_idx result] in IH. rewrite length_app in IH.
      rewrite slice_length in IH by lia. lia.
    + rewrite (body_lines_in_hunk _ _ Hat), !count_starting_cons.
      rewrite (startswith_char_other line " " "-" Hc) by discriminate.
      rewrite (startswith_char_other line " " "+" Hc) by discriminate.
      cbn [orig_idx result] in IH. rewrite length_app in IH. cbn [length] in IH.
      lia.
    + rewrite (body_lines_in_hunk _ _ Hat), !count_starting_cons.
      rewrite Hd, (startswith_char_other line "-" "+" Hd) by discriminate.
      cbn [orig_idx result] in IH. lia.
    + rewrite (body_lines_in_hunk _ _ Hat), !count_starting_cons.
      rewrite Hd, Hi.
      cbn [orig_idx result] in IH. rewrite length_app in IH. cbn [length] in IH.
      lia.
Qed.

(** *** A patch that neither inserts nor deletes *)

Lemma run_unchanged (lines : list string) :
  forall m st m' st',
    run O m lines st = Return (m', st') -> orig_idx st <= length O ->
    count_starting "+" (body_lines m lines) = 0 ->
    count_starting "-" (body_lines m lines) = 0 ->
    result st = firstn (orig_idx st) O ->
    result st' = firstn (orig_idx st') O /\ orig_idx st' <= length O.
Proof.
  induction lines as [| line rest IH]; intros m st m' st' H Hb Hp Hm Hr.
  - injection H as _ <-. now split.
  - rewrite run_cons in H. apply bind_Return_inv in H as ([m1 st1] & Hl & H).
    cbn [fst snd] in H. apply line_step_effect in Hl; [| exact Hb].
    pose proof (step_effect_bound _ _ _ _ _ Hl Hb) as Hb1.
    destruct Hl as [Hat | m k Hat Hk | Hat Hc Hn | Hat Hc Hd Hn | Hat Hc Hd Hi].
    + rewrite (body_lines_scanning _ _ Hat) in Hp, Hm.
      now apply (IH _ _ _ _ H Hb1).
    + rewrite (body_lines_hunk_header _ _ _ Hat) in Hp, Hm.
      apply (IH _ _ _ _ H Hb1 Hp Hm). cbn [orig_idx result].
      now rewrite firstn_slice, Hr.
    + rewrite (body_lines_in_hunk _ _ Hat), count_starting_cons in Hp, Hm.
      apply (IH _ _ _ _ H Hb1); [lia | lia |]. cbn [orig_idx result].
      now rewrite (firstn_succ_nth_error _ _ _ Hn), Hr.
    + rewrite (body_lines_in_hunk _ _ Hat), count_starting_cons in Hm.
      rewrite Hd in Hm. discriminate.
    + rewrite (body_lines_in_hunk _ _ Hat), count_starting_cons in Hp.
      rewrite Hi in Hp. discriminate.
Qed.

(** *** No line of the original is lost *)

Section Conservation.

Variable D : string -> Prop.

Lemma run_conservation (lines : list string) :
  forall m st m' st',
    run O m lines st = Return (m', st') -> orig_idx st <= length O ->
    (forall pline, In pline lines -> Py.startswith pline "-" = true ->
                   D (Py.drop 1 pline)) ->
    (forall l, In l (firstn (orig_idx st) O) -> In l (result st) \/ D l) ->
    orig_idx st' <= length O
    /\ forall l, In l (firstn (orig_idx st') O) -> In l (result st') \/ D l.
Proof.
  induction lines as [| line rest IH]; intros m st m' st' H Hb Hdel Hr.
  - injection H as _ <-. now split.
  - rewrite run_cons in H. apply bind_Return_inv in H as ([m1 st1] & Hl & H).
    cbn [fst snd] in H. apply line_step_effect in Hl; [| exact Hb].
    pose proof (step_effect_bound _ _ _ _ _ Hl Hb) as Hb1.
    apply (IH _ _ _ _ H Hb1); [intros p Hp; apply Hdel; now right |].
    destruct Hl as [Hat | m k Hat Hk | Hat Hc Hn | Hat Hc Hd Hn | Hat Hc Hd Hi];
      cbn [orig_idx result]; intros l Hin.
    + now apply Hr.
    + rewrite firstn_slice in Hin. apply in_app_or in Hin as [Hin | Hin].
      * destruct (Hr l Hin) as [Hres | HD]; [left | now right].
        apply in_or_app. now left.
      * left. apply in_or_app. now right.
    + rewrite (firstn_succ_nth_error _ _ _ Hn) in Hin.
      apply in_app_or in Hin as [Hin | Hin].
      * destruct (Hr l Hin) as [Hres | HD]; [left | now right].
        apply in_or_app. now left.
      * left. apply in_or_app. now right.
    + rewrite (firstn_succ_nth_error _ _ _ Hn) in Hin.
      apply in_app_or in Hin as [Hin | Hin].
      * now apply Hr.
      * destruct Hin as [<- | []]. right. apply Hdel; [now left | exact Hd].
    + destruct (Hr l Hin) as [Hres | HD]; [left | now right].
      apply in_or_app. now left.
Qed.

End Conservation.

(** *** Where the lines of the result come from *)

Section Provenance.

Variable Q : string -> Prop.
Hypothesis Q_original : forall l, In l O -> Q l.

(** The result only holds lines with a property that the lines of the
    original have and that the payloads of the insertion lines of the hunk
    bodies have. *)
Lemma run_provenance (lines : list string) :
  forall m st m' st',
    run O m lines st = Return (m', st') -> orig_idx st <= length O ->
    (forall pline, In pline (body_lines m lines) ->
                   Py.startswith pline "+" = true -> Q (Py.drop 1 pline)) ->
    Forall Q (result st) ->
    Forall Q (result st').
Proof.
  induction lines as [| line rest IH]; intros m st m' st' H Hb Hins Hr.
  - now injection H as _ <-.
  - rewrite run_cons in H. apply bind_Return_inv in H as ([m1 st1] & Hl & H).
    cbn [fst snd] in H. apply line_step_effect in Hl; [| exact Hb].
    pose proof (step_effect_bound _ _ _ _ _ Hl Hb) as Hb1.
    destruct Hl as [Hat | m k Hat Hk | Hat Hc Hn | Hat Hc Hd Hn | Hat Hc Hd Hi].
    + rewrite (body_lines_scanning _ _ Hat) in Hins.
      exact (IH _ _ _ _ H Hb1 Hins Hr).
    + rewrite (body_lines_hunk_header _ _ _ Hat) in Hins.
      apply (IH _ _ _ _ H Hb1 Hins). cbn [result].
      apply Forall_app; split; [exact Hr |].
      apply Forall_forall. intros l Hin. apply Q_original.
      exact (slice_In _ _ _ _ Hin).
    + rewrite (body_lines_in_hunk _ _ Hat) in Hins.
      apply (IH _ _ _ _ H Hb1); [intros p Hp; apply Hins; now right |].
      cbn [result]. apply Forall_app; split; [exact Hr |].
      constructor; [| constructor].
      apply Q_original. exact (nth_error_In _ _ Hn).
    + rewrite (body_lines_in_hunk _ _ Hat) in Hins.
      apply (IH _ _ _ _ H Hb1); [intros p Hp; apply Hins; now right |].
      exact Hr.
    + rewrite (body_lines_in_hunk _ _ Hat) in Hins.
      apply (IH _ _ _ _ H Hb1); [intros p Hp; apply Hins; now right |].
      cbn [result]. apply Forall_app; split; [exact Hr |].
      constructor; [| constructor].
      apply Hins; [now left | exact Hi].
Qed.

End Provenance.

End Steps.

(** A patch without hunk header has no body line, so that none of its
    lines is an insertion line, a "+++" line included. *)
Lemma headers_insert_nothing (P : list string) (l : string) :
  Forall (fun p => Py.startswith p "@@" = false) P -> ~ inserted_by P l.
Proof.
  intros HP (pline & Hin & _).
  induction P as [| p rest IH]; [destruct Hin |].
  inversion HP as [| ? ? Hp Hrest]; subst.
  rewrite (body_lines_scanning _ _ Hp) in Hin. exact (IH Hrest Hin).
Qed.

(** *** Lines after the end of the original *)

Section Frame.

Variables O E : list string.

Lemma getitem_frame (i : nat) (l : string) :
  getitem O i = Return l -> getitem (O ++ E) i = Return l.
Proof.
  unfold getitem. destruct (nth_error O i) as [x |] eqn:Hx; [| discriminate].
  intro H. rewrite nth_error_app1 by (apply nth_error_Some; congruence).
  now rewrite Hx.
Qed.

Lemma copy_loop_frame (fuel : nat) :
  forall st st',
    copy_loop O fuel st = Return st' -> copy_loop (O ++ E) fuel st = Return st'.
Proof.
  induction fuel as [| fuel IH]; intros st st' H; [exact H |].
  cbn [copy_loop] in *. apply bind_Return_inv in H as (l & Hl & H).
  rewrite (getitem_frame _ _ Hl). cbn [bind]. now apply IH.
Qed.

Lemma hunk_line_frame (line : string) (st st' : state) :
  hunk_line O line st = Return st' -> hunk_line (O ++ E) line st = Return st'.
Proof.
  unfold hunk_line. rewrite !mismatch_spec. cbn [bind]. unfold getitem.
  destruct (nth_error O (orig_idx st)) as [l |] eqn:Hl.
  - rewrite nth_error_app1 by (apply nth_error_Some; congruence).
    rewrite Hl. exact (fun H => H).
  - destruct (Py.startswith line " "); [discriminate |].
    destruct (Py.startswith line "-"); [discriminate |].
    exact (fun H => H).
Qed.

Lemma scan_line_frame (line : string) (st : state) (r : mode * state) :
  scan_line O line st = Return r -> scan_line (O ++ E) line st = Return r.
Proof.
  unfold scan_line.
  destruct (Py.startswith_any line diff_headers); [exact (fun H => H) |].
  destruct (Py.startswith line "@@"); [| discriminate].
  intro H. apply bind_Return_inv in H as (old_start & Hh & H).
  apply bind_Return_inv in H as (st1 & Hc & H).
  rewrite Hh. cbn [bind]. unfold copy_before_hunk in *.
  now rewrite (copy_loop_frame _ _ _ Hc).
Qed.

Lemma line_step_frame (m : mode) (line : string) (st : state) (r : mode * state) :
  line_step O m line st = Return r -> line_step (O ++ E) m line st = Return r.
Proof.
  destruct m; cbn [line_step]; [apply scan_line_frame |].
  destruct (Py.startswith line "@@"); [apply scan_line_frame |].
  intro H. apply bind_Return_inv in H as (st1 & Hl & H).
  now rewrite (hunk_line_frame _ _ _ Hl).
Qed.

Lemma run_frame (lines : list string) :
  forall m st r,
    run O m lines st = Return r -> run (O ++ E) m lines st = Return r.
Proof.
  induction lines as [| line rest IH]; intros m st r H; [exact H |].
  rewrite run_cons in *. apply bind_Return_inv in H as (r1 & Hl & H).
  rewrite (line_step_frame _ _ _ _ Hl). cbn [bind]. now apply IH.
Qed.

End Frame.

(** *** Reading past the end *)

Section PastTheEnd.

Variable O : list string.

Lemma hunk_line_no_IndexError (line : string) (st : state) :
  hunk_line O line st <> IndexError.
Proof.
  unfold hunk_line. rewrite !mismatch_spec. cbn [bind]. unfold getitem.
  destruct (nth_error O (orig_idx st)) as [l |];
    destruct (Py.startswith line " ");
    try destruct (negb (String.eqb l (Py.drop 1 line)));
    try discriminate;
    destruct (Py.startswith line "-"); try discriminate;
    destruct (Py.startswith line "+"); discriminate.
Qed.

Lemma copy_loop_IndexError (fuel : nat) (st : state) :
  copy_loop O fuel st = IndexError -> length O < orig_idx st + fuel.
Proof.
  intro H. destruct (Nat.le_gt_cases (orig_idx st + fuel) (length O)) as [Hle | Hgt];
    [| exact Hgt].
  rewrite (copy_loop_slice O fuel st Hle) in H. discriminate.
Qed.

Lemma scan_line_IndexError (line : string) (st : state) :
  scan_line O line st = IndexError -> orig_idx st <= length O ->
  Py.startswith line "@@" = true
  /\ exists old_start, parse_hunk_header line = Some old_start
                       /\ (Z.of_nat (length O) < old_start)%Z.
Proof.
  unfold scan_line. intros H Hb.
  destruct (Py.startswith_any line diff_headers); [discriminate |].
  destruct (Py.startswith line "@@"); [| discriminate].
  split; [reflexivity |]. unfold hunk_header in H.
  destruct (parse_hunk_header line) as [old_start |]; [| discriminate].
  exists old_start. split; [reflexivity |]. cbn [bind] in H.
  destruct (copy_before_hunk O old_start st) as [st1 | msg |] eqn:Hc;
    try discriminate.
  unfold copy_before_hunk in Hc. apply copy_loop_IndexError in Hc. lia.
Qed.

Lemma line_step_IndexError (m : mode) (line : string) (st : state) :
  line_step O m line st = IndexError -> orig_idx st <= length O ->
  Py.startswith line "@@" = true
  /\ exists old_start, parse_hunk_header line = Some old_start
                       /\ (Z.of_nat (length O) < old_start)%Z.
Proof.
  destruct m; cbn [line_step]; [apply scan_line_IndexError |].
  destruct (Py.startswith line "@@") eqn:Hat.
  { intros H Hb. destruct (scan_line_IndexError line st H Hb) as [_ Hs].
    split; [reflexivity | exact Hs]. }
  intros H _. exfalso.
  destruct (hunk_line O line st) as [st1 | msg |] eqn:Hl; try discriminate.
  now apply hunk_line_no_IndexError in Hl.
Qed.

Lemma run_IndexError (lines : list string) :
  forall m st,
    run O m lines st = IndexError -> orig_idx st <= length O ->
    exists pre line post m1 st1 old_start,
      lines = pre ++ line :: post
      /\ run O m pre st = Return (m1, st1)
      /\ Py.startswith line "@@" = true
      /\ parse_hunk_header line = Some old_start
      /\ (Z.of_nat (length O) < old_start)%Z.
Proof.
  induction lines as [| line rest IH]; intros m st H Hb; [discriminate |].
  rewrite run_cons in H.
  destruct (line_step O m line st) as [[m1 st1] | msg |] eqn:Hl;
    cbn [bind fst snd] in H; try discriminate.
  - pose proof (step_effect_bound O _ _ _ _ _ (line_step_effect O _ _ _ _ _ Hl Hb) Hb)
      as Hb1.
    destruct (IH _ _ H Hb1) as (pre & l & post & m2 & st2 & s & -> & Hr & Hrest).
    exists (line :: pre), l, post, m2, st2, s. split; [reflexivity |].
    split; [| exact Hrest]. rewrite run_cons, Hl. exact Hr.
  - destruct (line_step_IndexError _ _ _ Hl Hb) as (Hat & s & Hp & Hs).
    exists [], line, rest, m, st, s. repeat (split; [reflexivity || assumption |]).
    exact Hs.
Qed.

Lemma run_past_the_end (pre post : list string) (line : string) (m m1 : mode)
  (st st1 : state) (old_start : Z) :
  run O m pre st = Return (m1, st1) -> orig_idx st <= length O ->
  Py.startswith line "@@" = true ->
  parse_hunk_header line = Some old_start ->
  (Z.of_nat (length O) < old_start)%Z ->
  run O m (pre ++ line :: post) st = IndexError.
Proof.
  intros Hr Hb Hat Hp Hs.
  rewrite run_app, Hr. cbn [bind fst snd]. rewrite run_cons.
  assert (Hl : line_step O m1 line st1 = IndexError).
  { assert (Hsc : scan_line O line st1 = IndexError).
    { rewrite (scan_line_hunk_header O line st1 Hat). unfold hunk_header.
      rewrite Hp. cbn [bind].
      rewrite copy_before_hunk_out_of_range; [reflexivity | | exact Hs].
      now apply (cursor_monotone_bounded O pre m m1 st st1 Hr). }
    destruct m1; cbn [line_step]; [exact Hsc | now rewrite Hat]. }
  now rewrite Hl.
Qed.

(** Once in a hunk body the applier stays in hunk bodies; before that it
    leaves the outer loop exactly at a hunk header. *)
Lemma run_mode (lines : list string) :
  forall m st m' st',
    run O m lines st = Return (m', st') -> orig_idx st <= length O ->
    m' = if existsb (fun l => Py.startswith l "@@") lines then InHunk else m.
Proof.
  induction lines as [| line rest IH]; intros m st m' st' H Hb.
  - now injection H as <- _.
  - rewrite run_cons in H. apply bind_Return_inv in H as ([m1 st1] & Hl & H).
    cbn [fst snd] in H. apply line_step_effect in Hl; [| exact Hb].
    pose proof (step_effect_bound O _ _ _ _ _ Hl Hb) as Hb1.
    specialize (IH _ _ _ _ H Hb1). cbn [existsb].
    destruct Hl as [Hat | m k Hat Hk | Hat Hc Hn | Hat Hc Hd Hn | Hat Hc Hd Hi];
      rewrite Hat; cbn [orb]; try exact IH;
      now destruct (existsb (fun l => Py.startswith l "@@") rest).
Qed.

End PastTheEnd.

(* ================================================================= *)
(** ** A sequence matched against itself *)

Lemma increasing_from_weaken (lo lo' : nat) (js : list nat) :
  lo <= lo' -> increasing_from lo' js -> increasing_from lo js.
Proof.
  destruct js as [| j js]; [trivial |]. cbn [increasing_from].
  intros H [H1 H2]. split; [lia | exact H2].
Qed.

Lemma increasing_from_In (js : list nat) :
  forall lo j, increasing_from lo js -> In j js -> lo <= j.
Proof.
  induction js as [| x js IH]; intros lo j H Hin; [destruct Hin |].
  destruct H as [H1 H2]. destruct Hin as [<- | Hin]; [exact H1 |].
  specialize (IH _ _ H2 Hin). lia.
Qed.

Lemma indices_from_increasing (x : string) (ys : list string) :
  forall j0, increasing_from j0 (Difflib.indices_from x ys j0).
Proof.
  induction ys as [| y ys IH]; intros j0; cbn [Difflib.indices_from];
    [exact I |].
  destruct (String.eqb y x).
  - split; [lia | apply IH].
  - apply (increasing_from_weaken j0 (S j0)); [lia | apply IH].
Qed.

Lemma indices_from_complete (x : string) (ys : list string) :
  forall j0 j,
    j0 <= j -> j < j0 + length ys -> nth (j - j0) ys EmptyString = x ->
    In j (Difflib.indices_from x ys j0).
Proof.
  induction ys as [| y ys IH]; intros j0 j H1 H2 H3; cbn [length] in H2;
    [lia |].
  cbn [Difflib.indices_from].
  destruct (Nat.eq_dec j j0) as [-> | Hne].
  - rewrite Nat.sub_diag in H3. cbn [nth] in H3. subst y.
    rewrite String.eqb_refl. now left.
  - assert (Hin : In j (Difflib.indices_from x ys (S j0))).
    { apply IH; [lia | lia |].
      replace (j - j0) with (S (j - S j0)) in H3 by lia. exact H3. }
    destruct (String.eqb y x); [now right | exact Hin].
Qed.

Section Diagonal.

Variable a : list string.

Local Abbreviation item i := (nth i a EmptyString).
Local Abbreviation run_before := (unpopular_run a).
Local Abbreviation before j2len := (Difflib.j2len_get_before j2len).

Lemma unpopular_run_le (i : nat) : run_before i <= i.
Proof.
  induction i as [| i IH]; [apply le_n |]. cbn [unpopular_run].
  destruct (Difflib.is_popular a (item i)); lia.
Qed.

Lemma unpopular_run_succ (i : nat) :
  Difflib.is_popular a (item i) = false ->
  run_before (S i) = S (run_before i).
Proof. intro H. cbn [unpopular_run]. now rewrite H. Qed.

(** One row of the table of [find_longest_match]: the longest match found
    so far stays on the diagonal, and is at least as long as every run of
    elements that are not popular up to the row. *)
Lemma inner_loop_diagonal (i : nat) (j2len : nat -> nat) :
  Difflib.is_popular a (item i) = false ->
  (forall j, before j2len j <= run_before j) ->
  (forall j, before j2len j <= run_before i) ->
  before j2len i = run_before i ->
  forall js lo newj2len besti bestj bestsize new' bi bj bs,
    increasing_from lo js ->
    (forall j, In j js -> j < length a /\ item j = item i) ->
    (forall j, newj2len j <= run_before (S j)) ->
    (forall j, newj2len j <= run_before (S i)) ->
    besti = bestj -> besti + bestsize <= S i ->
    (forall i', i' <= i -> run_before i' <= bestsize) ->
    (In i js \/ (newj2len i = run_before (S i) /\ run_before (S i) <= bestsize)) ->
    Difflib.inner_loop j2len i 0 (length a) js newj2len (besti, bestj, bestsize)
    = (new', (bi, bj, bs)) ->
    (forall j, new' j <= run_before (S j))
    /\ (forall j, new' j <= run_before (S i))
    /\ new' i = run_before (S i)
    /\ bi = bj /\ bi + bs <= S i
    /\ (forall i', i' <= S i -> run_before i' <= bs).
Proof.
  intros Hpop G1 G2 G3.
  pose proof (unpopular_run_succ i Hpop) as HSi.
  induction js as [| j js IH];
    intros lo newj2len besti bestj bestsize new' bi bj bs Hinc Hjs N1 N2 Hd Hb
      Hruns Hreach H.
  - cbn [Difflib.inner_loop] in H. injection H as <- <- <- <-.
    destruct Hreach as [[] | [Hi Hle]].
    repeat (split; [assumption |]).
    intros i' Hi'. destruct (Nat.eq_dec i' (S i)) as [-> | Hne]; [exact Hle |].
    apply Hruns. lia.
  - cbn [Difflib.inner_loop] in H.
    destruct (Hjs j (or_introl eq_refl)) as [Hj Hitem].
    destruct (Nat.leb_spec (length a) j) as [Hge | _]; [lia |].
    destruct Hinc as [_ Hinc].
    assert (HSj : run_before (S j) = S (run_before j)).
    { apply unpopular_run_succ. now rewrite Hitem. }
    assert (Hjs' : forall j', In j' js -> j' < length a /\ item j' = item i).
    { intros j' Hin. apply Hjs. now right. }
    assert (Hafter : forall j', In j' js -> S j <= j').
    { intros j' Hin. exact (increasing_from_In js _ _ Hinc Hin). }
    set (k := before j2len j + 1) in *.
    assert (Hk1 : k <= run_before (S j)) by (specialize (G1 j); lia).
    assert (Hk2 : k <= run_before (S i)) by (specialize (G2 j); lia).
    assert (N1' : forall x, Difflib.dict_set newj2len j k x <= run_before (S x)).
    { intros x. unfold Difflib.dict_set.
      destruct (Nat.eqb_spec x j) as [-> | _]; [exact Hk1 | apply N1]. }
    assert (N2' : forall x, Difflib.dict_set newj2len j k x <= run_before (S i)).
    { intros x. unfold Difflib.dict_set.
      destruct (Nat.eqb_spec x j) as [-> | _]; [exact Hk2 | apply N2]. }
    destruct (Nat.ltb_spec bestsize k) as [Hlt | Hge].
    + (* a longer match: it ends on the diagonal *)
      assert (Hji : j = i).
      { destruct (Nat.lt_trichotomy j i) as [Hlo | [Heq | Hhi]]; [| exact Heq |].
        - specialize (Hruns (S j) Hlo). lia.
        - destruct Hreach as [[Heq | Hin] | [_ Hle]]; [lia | | lia].
          specialize (Hafter i Hin). lia. }
      subst j.
      assert (Hk : k = run_before (S i)) by (unfold k; rewrite G3; lia).
      apply (IH (S i) _ _ _ _ _ _ _ _ Hinc Hjs' N1' N2') in H;
        [exact H | reflexivity | | |].
      * pose proof (unpopular_run_le (S i)). lia.
      * intros i' Hi'. specialize (Hruns i' Hi'). lia.
      * right. unfold Difflib.dict_set. rewrite Nat.eqb_refl. lia.
    + apply (IH (S j) _ _ _ _ _ _ _ _ Hinc Hjs' N1' N2' Hd Hb Hruns) in H;
        [exact H |].
      destruct (Nat.eq_dec j i) as [-> | Hne].
      * right. unfold Difflib.dict_set. rewrite Nat.eqb_refl.
        assert (Hk : k = run_before (S i)) by (unfold k; rewrite G3; lia).
        lia.
      * destruct Hreach as [[Heq | Hin] | [Hi Hle]]; [lia | now left |].
        right. unfold Difflib.dict_set.
        destruct (Nat.eqb_spec i j) as [Heq | _]; [lia | now split].
Qed.

Lemma outer_loop_diagonal (count : nat) :
  forall i j2len besti bestj bestsize bi bj bs,
    i + count = length a ->
    (forall j, before j2len j <= run_before j) ->
    (forall j, before j2len j <= run_before i) ->
    before j2len i = run_before i ->
    besti = bestj -> besti + bestsize <= i ->
    (forall i', i' <= i -> run_before i' <= bestsize) ->
    Difflib.outer_loop a a count i 0 (length a) j2len (besti, bestj, bestsize)
    = (bi, bj, bs) ->
    bi = bj /\ bi + bs <= length a.
Proof.
  induction count as [| count IH];
    intros i j2len besti bestj bestsize bi bj bs Hi G1 G2 G3 Hd Hb Hruns H.
  - cbn [Difflib.outer_loop] in H. injection H as <- <- <-. split; [exact Hd | lia].
  - cbn [Difflib.outer_loop] in H.
    destruct (Difflib.inner_loop _ _ _ _ _ _ _) as [new' [[bi' bj'] bs']] eqn:E.
    unfold Difflib.b2j_get in E.
    destruct (Difflib.is_popular a (item i)) eqn:Hpop.
    + cbn [Difflib.inner_loop] in E. injection E as <- <- <- <-.
      assert (H0 : run_before (S i) = 0) by (cbn [unpopular_run]; now rewrite Hpop).
      apply (IH (S i) _ _ _ _ _ _ _ ltac:(lia)) in H; try assumption.
      * intros [| j]; cbn; lia.
      * intros [| j]; cbn [Difflib.j2len_get_before]; lia.
      * now rewrite H0.
      * lia.
      * intros i' Hi'. destruct (Nat.eq_dec i' (S i)) as [-> | Hne]; [lia |].
        apply Hruns. lia.
    + apply (inner_loop_diagonal i j2len Hpop G1 G2 G3 _ 0) in E.
      * destruct E as (N1 & N2 & N3 & Hd' & Hb' & Hruns').
        apply (IH (S i) _ _ _ _ _ _ _ ltac:(lia)) in H; try assumption.
        -- intros [| j]; cbn [Difflib.j2len_get_before]; [lia | apply N1].
        -- intros [| j]; cbn [Difflib.j2len_get_before]; [lia | apply N2].
      * apply indices_from_increasing.
      * intros j Hin. apply indices_from_spec in Hin as (_ & H2 & H3).
        rewrite Nat.sub_0_r in H3. split; [lia | exact H3].
      * intros j. lia.
      * intros j. lia.
      * exact Hd.
      * lia.
      * exact Hruns.
      * left. apply indices_from_complete; [lia | lia | now rewrite Nat.sub_0_r].
Qed.

Lemma extend_left_diagonal (d : nat) :
  forall s, Difflib.extend_left a a 0 0 d d s = (0, 0, s + d).
Proof.
  induction d as [| d IH]; intros s; cbn [Difflib.extend_left].
  - now rewrite Nat.add_0_r.
  - replace (S d - 1) with d by lia.
    replace (0 <? S d) with true by (symmetry; apply Nat.ltb_lt; lia).
    rewrite String.eqb_refl. cbn [andb]. rewrite IH. f_equal. lia.
Qed.

Lemma extend_right_diagonal (room : nat) :
  forall s,
    s + room = length a ->
    Difflib.extend_right a a room (length a) 0 0 s = (0, 0, length a).
Proof.
  induction room as [| room IH]; intros s Hs; cbn [Difflib.extend_right].
  - f_equal. lia.
  - replace (0 + s <? length a) with true by (symmetry; apply Nat.ltb_lt; lia).
    rewrite String.eqb_refl. cbn [andb]. apply IH. lia.
Qed.

(** The longest match of a sequence with itself is the whole sequence. *)
Lemma find_longest_match_diagonal :
  Difflib.find_longest_match a a 0 (length a) 0 (length a) = (0, 0, length a).
Proof.
  unfold Difflib.find_longest_match.
  destruct (Difflib.outer_loop _ _ _ _ _ _ _ _) as [[bi bj] bs] eqn:E.
  apply outer_loop_diagonal in E as [<- Hb]; try reflexivity; try lia.
  - rewrite extend_left_diagonal. apply extend_right_diagonal. lia.
  - intros [| j]; cbn; lia.
  - intros [| j]; cbn; lia.
  - intros i' Hi'. replace i' with 0 by lia. apply le_n.
Qed.

Lemma get_opcodes_diagonal :
  Difflib.get_opcodes a a
  = Some (match a with
          | [] => []
          | _ => [Difflib.mkOp Difflib.Equal 0 (length a) 0 (length a)]
          end).
Proof.
  unfold Difflib.get_opcodes, Difflib.get_matching_blocks.
  replace (2 * length a + 1) with (S (2 * length a)) by lia.
  cbn [Difflib.blocks_loop]. rewrite find_longest_match_diagonal.
  destruct a as [| x xs]; [reflexivity |].
  remember (length (x :: xs)) as n eqn:En.
  assert (Hn : n <> 0) by (subst n; discriminate).
  clear En.
  rewrite (proj2 (Nat.eqb_neq n 0) Hn).
  change (0 <? 0) with false. cbn [andb].
  replace (0 + n <? n) with false by (symmetry; apply Nat.ltb_ge; lia).
  cbn [andb].
  assert (Hloop : forall fuel found,
             Difflib.blocks_loop (x :: xs) (x :: xs) fuel [] found = Some found)
    by (intros fuel found; now destruct fuel).
  rewrite Hloop. cbn [app Difflib.sort_blocks Difflib.insert_block].
  cbn [Difflib.collapse]. change (0 + 0 =? 0) with true. cbn [andb].
  change (0 + n) with n. rewrite (proj2 (Nat.eqb_neq n 0) Hn).
  cbn [app Difflib.opcodes_from]. change (0 <? 0) with false. cbn [andb].
  rewrite (proj2 (Nat.eqb_neq n 0) Hn). change (0 + n) with n.
  rewrite Nat.ltb_irrefl, Nat.eqb_refl. reflexivity.
Qed.

End Diagonal.

Lemma grouped_single_equal (n i i' j j' : nat) :
  Difflib.get_grouped_opcodes n [Difflib.mkOp Difflib.Equal i i' j j'] = [].
Proof.
  unfold Difflib.get_grouped_opcodes.
  cbn [Difflib.fix_first Difflib.fix_last Difflib.is_equal Difflib.op_tag
       Difflib.trim_leading Difflib.trim_trailing Difflib.i1 Difflib.i2
       Difflib.j1 Difflib.j2 Difflib.group_loop andb app].
  replace (n + n <? _) with false by (symmetry; apply Nat.ltb_ge; lia).
  reflexivity.
Qed.

(** The unified diff of a sequence with itself has no line. *)
Lemma unified_diff_diagonal (a : list string)
  (fromfile tofile fromfiledate tofiledate : string) (n : nat)
  (lineterm : string) :
  Difflib.unified_diff a a fromfile tofile fromfiledate tofiledate n lineterm
  = Some [].
Proof.
  unfold Difflib.unified_diff. rewrite get_opcodes_diagonal.
  unfold Difflib.unified_diff_of_opcodes.
  assert (H : forall codes,
             codes = [] \/ (exists i i' j j', codes = [Difflib.mkOp Difflib.Equal i i' j j']) ->
             Difflib.get_grouped_opcodes n codes = []).
  { intros codes [-> | (i & i' & j & j' & ->)].
    - exact (grouped_single_equal n 0 1 0 1).
    - apply grouped_single_equal. }
  rewrite H; [reflexivity |].
  destruct a; [now left | right; now do 4 eexists].
Qed.

(* ================================================================= *)
(** ** The text of a unified diff *)

Module PatchText.
Import Text TextFacts.

Lemma line_kind_plain_app (p l : string) :
  all_chars is_plain p = true -> l <> EmptyString ->
  line_kind (p ++ l) = line_kind l.
Proof.
  induction p as [| c p IH]; intros Hp Hl; [reflexivity |].
  cbn [all_chars] in Hp. apply andb_prop in Hp as [Hc Hp].
  cbn [append]. rewrite line_kind_cons.
  - now apply IH.
  - unfold is_plain in Hc. now destruct (is_linebreak c).
  - destruct p; [exact Hl | discriminate].
Qed.

Lemma is_terminated_nonempty (l : string) :
  is_terminated l = true -> l <> EmptyString.
Proof. destruct l; [discriminate | discriminate]. Qed.

Lemma patch_line_plain_app (c : ascii) (p l : string) :
  is_plain c = true -> c <> LF -> all_chars is_plain p = true ->
  is_terminated l = true ->
  patch_line (String c (p ++ l)) = true.
Proof.
  intros Hc Hlf Hp Hl. unfold patch_line.
  replace (Ascii.eqb c LF) with false
    by (symmetry; now apply Ascii.eqb_neq).
  rewrite andb_true_r. unfold is_terminated in *.
  change (String c (p ++ l)) with (String c p ++ l)%string.
  rewrite line_kind_plain_app; [exact Hl | | now apply is_terminated_nonempty].
  cbn [all_chars]. now rewrite Hc, Hp.
Qed.

Lemma patch_line_cons (c : ascii) (l : string) :
  is_plain c = true -> c <> LF -> is_terminated l = true ->
  patch_line (String c l) = true.
Proof.
  intros Hc Hlf Hl. exact (patch_line_plain_app c EmptyString l Hc Hlf eq_refl Hl).
Qed.

Lemma seam_patch_line (l l' : string) : patch_line l' = true -> seam l l' = false.
Proof.
  unfold patch_line, seam. intro H. apply andb_prop in H as [_ H].
  destruct l' as [| c t]; [discriminate |].
  destruct (last_char l); [| reflexivity].
  destruct (Ascii.eqb c LF); [discriminate | apply andb_false_r].
Qed.

Lemma well_split_patch_lines (lines : list string) :
  Forall (fun l => patch_line l = true) lines -> well_split lines = true.
Proof.
  induction 1 as [| l rest Hl Hrest IH]; [reflexivity |].
  assert (Ht : is_terminated l = true).
  { unfold patch_line in Hl. now apply andb_prop in Hl as [Hl _]. }
  destruct rest as [| l' rest].
  - cbn [well_split]. unfold is_line. unfold is_terminated in Ht.
    now destruct (line_kind l) as [[|] |].
  - rewrite well_split_two, Ht, IH.
    rewrite (seam_patch_line l l'); [reflexivity |]. now inversion Hrest.
Qed.

Lemma range_char_plain (c : ascii) : is_range_char c = true -> is_plain c = true.
Proof. by_ascii_cases c. Qed.

Lemma date_suffix_plain (date : string) :
  all_chars is_plain date = true ->
  all_chars is_plain (Difflib.date_suffix date) = true.
Proof.
  intro H. destruct date as [| c d]; [reflexivity |].
  unfold Difflib.date_suffix. cbn [all_chars] in *. now rewrite H.
Qed.

Section Lines.

Variables a b : list string.
Hypothesis a_terminated : Forall (fun l => is_terminated l = true) a.
Hypothesis b_terminated : Forall (fun l => is_terminated l = true) b.

Lemma marked_lines (c : ascii) (xs : list string) (i j : nat) :
  is_plain c = true -> c <> LF ->
  Forall (fun l => is_terminated l = true) xs ->
  Forall (fun l => patch_line l = true) (map (String c) (Py.slice xs i j)).
Proof.
  intros Hc Hlf Hxs. apply Forall_forall. intros l Hin.
  apply in_map_iff in Hin as (x & <- & Hx). apply slice_In in Hx.
  apply patch_line_cons; [exact Hc | exact Hlf |].
  rewrite Forall_forall in Hxs. now apply Hxs.
Qed.

Lemma opcode_lines_patch_lines (op : Difflib.opcode) :
  Forall (fun l => patch_line l = true) (Difflib.opcode_lines a b op).
Proof.
  unfold Difflib.opcode_lines.
  destruct (Difflib.op_tag op); try apply Forall_app; try split;
    apply marked_lines; (reflexivity || discriminate || assumption).
Qed.

Lemma hunk_lines_patch_lines (group : list Difflib.opcode) :
  Forall (fun l => patch_line l = true)
    (Difflib.hunk_lines a b (String LF EmptyString) group).
Proof.
  unfold Difflib.hunk_lines. constructor.
  - set (r1 := Difflib.format_range_unified _ _).
    set (r2 := Difflib.format_range_unified _ _).
    assert (H1 : all_chars is_plain r1 = true).
    { eapply all_chars_impl; [apply range_char_plain | apply format_range_chars]. }
    assert (H2 : all_chars is_plain r2 = true).
    { eapply all_chars_impl; [apply range_char_plain | apply format_range_chars]. }
    replace ("@@ -" ++ r1 ++ " +" ++ r2 ++ " @@" ++ String LF EmptyString)%string
      with (String "@" (("@ -" ++ r1 ++ " +" ++ r2 ++ " @@") ++ String LF EmptyString))%string
      by string_assoc.
    apply patch_line_plain_app; [reflexivity | discriminate | | reflexivity].
    all_chars_by H1 H2.
  - apply Forall_flat_map, Forall_forall. intros op _.
    apply opcode_lines_patch_lines.
Qed.

Lemma file_header_patch_line (c : ascii) (mark file date : string) :
  is_plain c = true -> c <> LF -> all_chars is_plain mark = true ->
  all_chars is_plain file = true -> all_chars is_plain date = true ->
  patch_line (String c mark ++ file ++ Difflib.date_suffix date
              ++ String LF EmptyString) = true.
Proof.
  intros Hc Hlf Hm Hf Hd. apply date_suffix_plain in Hd.
  replace (String c mark ++ file ++ Difflib.date_suffix date ++ String LF EmptyString)%string
    with (String c ((mark ++ file ++ Difflib.date_suffix date) ++ String LF EmptyString))%string.
  - apply patch_line_plain_app; [exact Hc | exact Hlf | | reflexivity].
    rewrite !all_chars_app. now rewrite Hm, Hf, Hd.
  - cbn [append]. f_equal. now rewrite !string_app_assoc.
Qed.

(** The lines of a unified diff with the line terminator ["\n"] can be
    written one after the other and read back. *)
Lemma unified_diff_patch_lines (codes : list Difflib.opcode)
  (fromfile tofile fromfiledate tofiledate : string) (n : nat) :
  all_chars is_plain fromfile = true -> all_chars is_plain tofile = true ->
  all_chars is_plain fromfiledate = true ->
  all_chars is_plain tofiledate = true ->
  Forall (fun l => patch_line l = true)
    (Difflib.unified_diff_of_opcodes a b codes fromfile tofile fromfiledate
       tofiledate n (String LF EmptyString)).
Proof.
  intros Hf Ht Hfd Htd. unfold Difflib.unified_diff_of_opcodes.
  destruct (Difflib.get_grouped_opcodes n codes) as [| g gs]; [constructor |].
  constructor; [| constructor].
  - now apply (file_header_patch_line "-" "-- ").
  - now apply (file_header_patch_line "+" "++ ").
  - apply Forall_flat_map, Forall_forall. intros group _.
    apply hunk_lines_patch_lines.
Qed.

End Lines.

End PatchText.

(* ================================================================= *)
(** ** The preview of [auto_patch.py] *)

Lemma preview_no_differences (orig_lines : list string) (PATCH_CONTENT : string) :
  exists printed,
    AutoPatch.preview orig_lines PATCH_CONTENT = Some printed
    /\ (printed = [AutoPatch.no_differences]
        <-> orig_lines = Text.splitlines PATCH_CONTENT).
Proof.
  unfold AutoPatch.preview, AutoPatch.diff_text.
  destruct (list_eq_dec string_dec orig_lines (Text.splitlines PATCH_CONTENT))
    as [<- | Hne].
  - rewrite unified_diff_diagonal. cbn [Text.join].
    eexists. split; [reflexivity |]. split; reflexivity.
  - unfold Difflib.unified_diff.
    destruct (get_opcodes_chain orig_lines (Text.splitlines PATCH_CONTENT))
      as (codes & -> & Hchain).
    pose proof (round_trip_of_script _ _ codes AutoPatch.ORIGINAL_FILE
                  AutoPatch.PATCHED_FILE "" "" 3 "" ltac:(lia) Hchain) as Hround.
    unfold Difflib.unified_diff_of_opcodes in *.
    destruct (Difflib.get_grouped_opcodes 3 codes) as [| g gs].
    + exfalso. apply Hne. rewrite apply_patch_run in Hround.
      cbn in Hround. now injection Hround.
    + cbn [Text.join append AutoPatch.ORIGINAL_FILE].
      eexists. split; [reflexivity |]. split; [discriminate | contradiction].
Qed.

Module ReadLines.
Import Text TextFacts AutoPatch.

Lemma readlines_nil (s : string) : readlines s = [] -> s = EmptyString.
Proof.
  destruct s as [| c t]; [reflexivity |]. cbn [readlines].
  destruct (Ascii.eqb c LF); [discriminate |].
  destruct (readlines t); discriminate.
Qed.

Lemma readlines_line_feed (t : string) :
  readlines (String LF t) = String LF EmptyString :: readlines t.
Proof. reflexivity. Qed.

Lemma readlines_other (c : ascii) (t : string) :
  Ascii.eqb c LF = false ->
  readlines (String c t)
  = match readlines t with
    | [] => [String c EmptyString]
    | l :: ls => String c l :: ls
    end.
Proof. intro H. cbn [readlines]. now rewrite H. Qed.

Lemma splitlines_line_feed (t : string) :
  splitlines (String LF t) = String LF EmptyString :: splitlines t.
Proof. destruct t; reflexivity. Qed.

Lemma newline_only_line_feed (t : string) :
  newline_only (String LF t) = newline_only t.
Proof. reflexivity. Qed.

Lemma newline_only_plain (c : ascii) (t : string) :
  is_linebreak c = false -> newline_only (String c t) = newline_only t.
Proof. intro H. cbn [newline_only]. now rewrite H. Qed.

(** [readlines] and [splitlines] split a text in the same way exactly when
    the text has no line boundary that only [splitlines] sees. *)
Lemma readlines_splitlines (s : string) :
  readlines s = splitlines s <-> newline_only s = true.
Proof.
  induction s as [| c | c c' t IHt IHct] using string_ind2.
  - split; reflexivity.
  - cbn [readlines splitlines newline_only].
    destruct (Ascii.eqb c LF), (is_linebreak c); split; reflexivity.
  - destruct (Ascii.eqb_spec c LF) as [-> | Hlf].
    + rewrite readlines_line_feed, splitlines_line_feed, newline_only_line_feed,
        <- IHct.
      split; [intro H; now injection H | intros ->; reflexivity].
    + assert (Hlf' : Ascii.eqb c LF = false) by now apply Ascii.eqb_neq.
      rewrite (readlines_other c _ Hlf').
      destruct (is_linebreak c) eqn:Hc.
      * rewrite (splitlines_break c c' t Hc).
        cbn [newline_only]. rewrite Hc, Hlf'. cbn [negb andb].
        destruct (Ascii.eqb c CR && Ascii.eqb c' LF) eqn:E.
        -- apply andb_prop in E as [_ E']. apply Ascii.eqb_eq in E'. subst c'.
           rewrite readlines_line_feed. cbn [andb]. rewrite <- IHt.
           split; [intro H; now injection H | intros ->; reflexivity].
        -- cbn [andb]. split; [| discriminate].
           destruct (readlines (String c' t)) as [| l ls] eqn:Er.
           ++ apply readlines_nil in Er. discriminate.
           ++ intro H. injection H as H _. subst l.
              destruct (Ascii.eqb_spec c' LF) as [-> | Hlf2].
              ** rewrite readlines_line_feed in Er. discriminate.
              ** rewrite readlines_other in Er by now apply Ascii.eqb_neq.
                 destruct (readlines t); discriminate.
      * rewrite (splitlines_plain c _ Hc), (newline_only_plain c _ Hc), <- IHct.
        destruct (readlines (String c' t)) as [| l ls] eqn:Er.
        { apply readlines_nil in Er. discriminate. }
        destruct (splitlines (String c' t)) as [| l' ls'] eqn:Es.
        { apply splitlines_nil in Es. discriminate. }
        split; [intro H; injection H as -> ->; reflexivity
               | intro H; injection H as -> ->; reflexivity].
Qed.

Lemma join_readlines (s : string) : join (readlines s) = s.
Proof.
  induction s as [| c t IH]; [reflexivity |]. cbn [readlines].
  destruct (Ascii.eqb c LF).
  - cbn [join append]. now rewrite IH.
  - destruct (readlines t) as [| l ls] eqn:E.
    + apply readlines_nil in E. now subst t.
    + cbn [join append] in *. now rewrite IH.
Qed.

(** The lines read from a file that holds a text are the lines
    [splitlines] makes of the text exactly when the text has no carriage
    return and no line boundary that only [splitlines] sees. *)
Lemma orig_lines_splitlines (content : string) :
  orig_lines_of content = splitlines content
  <-> has_no_CR content && newline_only content = true.
Proof.
  unfold orig_lines_of. split.
  - intro H.
    assert (Hfix : universal_newlines content = content).
    { rewrite <- (join_readlines (universal_newlines content)), H.
      apply join_splitlines. }
    rewrite Hfix in H. apply universal_newlines_fixed in Hfix.
    rewrite Hfix. now apply readlines_splitlines.
  - intro H. apply andb_prop in H as [Hc Hn].
    rewrite (universal_newlines_id _ Hc). now apply readlines_splitlines.
Qed.

End ReadLines.
(* ================================================================= *)
(** * The claims *)

(** C1. Round trip: for every original [O] and every target [T], the
    unified diff between [O] and [T] exists and, applied to [O], yields
    exactly [T].  The unified diff is the one [difflib.unified_diff]
    computes, with any file names, dates and line terminator and with at
    least one line of context (the default is three). *)
Theorem C1_round_trip (O T : list string)
  (fromfile tofile fromfiledate tofiledate : string) (n : nat)
  (lineterm : string) :
  1 <= n ->
  exists patch,
    Difflib.unified_diff O T fromfile tofile fromfiledate tofiledate n lineterm
    = Some patch
    /\ apply_patch O patch = Return T.
Proof.
  intros Hn. unfold Difflib.unified_diff.
  destruct (get_opcodes_chain O T) as (codes & -> & Hc).
  eexists. split; [reflexivity |]. now apply round_trip_of_script.
Qed.

Lemma C1_round_trip_witness :
  1 <= 3
  /\ Difflib.unified_diff [ln "a"; ln "b"; ln "c"; "d"] [ln "a"; ln "B"; ln "c"; "d"]
       "old" "new" "" "" 3 (ln "")
     = Some [ln "--- old"; ln "+++ new"; ln "@@ -1,4 +1,4 @@";
             ln " a"; ln "-b"; ln "+B"; ln " c"; " d"]
  /\ exists patch,
      Difflib.unified_diff [ln "a"; ln "b"; ln "c"; "d"]
        [ln "a"; ln "B"; ln "c"; "d"] "old" "new" "" "" 3 (ln "")
      = Some patch
      /\ apply_patch [ln "a"; ln "b"; ln "c"; "d"] patch
         = Return [ln "a"; ln "B"; ln "c"; "d"].
Proof.
  assert (Hn : 1 <= 3) by lia.
  split; [exact Hn |]. split; [reflexivity |].
  exact (C1_round_trip [ln "a"; ln "b"; ln "c"; "d"] [ln "a"; ln "B"; ln "c"; "d"]
           "old" "new" "" "" 3 (ln "") Hn).
Defined.

(** C2. Mismatch detection: when the applier, in a hunk body, reaches a
    context line whose payload is not exactly the original line under the
    cursor, it fails with the context-mismatch error, and when it reaches a
    deletion line whose payload is not exactly that line, it fails with the
    removal-mismatch error; no result is produced, whatever follows.  The
    comparison is equality of the whole strings, terminator included: the
    line is accepted exactly when the original has a line under the cursor
    and that line is the payload. *)
Theorem C2_mismatch_detection (O pre post : list string) (pline : string)
  (st : state) :
  run O Scanning pre initial = Return (InHunk, st) ->
  (Py.startswith pline " " = true ->
   (nth_error O (orig_idx st) <> Some (Py.drop 1 pline) ->
    apply_patch O (pre ++ pline :: post) = Exit context_mismatch)
   /\ (nth_error O (orig_idx st) = Some (Py.drop 1 pline) ->
       line_step O InHunk pline st
       = Return (InHunk, {| orig_idx := S (orig_idx st);
                            result := result st ++ [Py.drop 1 pline] |})))
  /\ (Py.startswith pline "-" = true ->
      (nth_error O (orig_idx st) <> Some (Py.drop 1 pline) ->
       apply_patch O (pre ++ pline :: post) = Exit removal_mismatch)
      /\ (nth_error O (orig_idx st) = Some (Py.drop 1 pline) ->
          line_step O InHunk pline st
          = Return (InHunk, {| orig_idx := S (orig_idx st);
                               result := result st |}))).
Proof.
  intros Hpre.
  assert (Hneq : forall l t, nth_error O (orig_idx st) = Some l ->
                             nth_error O (orig_idx st) <> Some t ->
                             String.eqb l t = false).
  { intros l t Hl Hne. apply String.eqb_neq. congruence. }
  split; intros Hs; apply startswith_char in Hs as [t ->]; cbn [Py.drop];
    (split; [intros Hne | intros Heq]).
  - rewrite apply_patch_run, run_app, Hpre; cbn [bind fst snd].
    rewrite run_cons; cbn [line_step].
    rewrite body_line_not_hunk_header by discriminate.
    rewrite hunk_line_context.
    destruct (nth_error O (orig_idx st)) as [l |] eqn:Hl; [| reflexivity].
    now rewrite (Hneq l t eq_refl Hne).
  - cbn [line_step]. rewrite body_line_not_hunk_header by discriminate.
    now rewrite hunk_line_context, Heq, String.eqb_refl.
  - rewrite apply_patch_run, run_app, Hpre; cbn [bind fst snd].
    rewrite run_cons; cbn [line_step].
    rewrite body_line_not_hunk_header by discriminate.
    rewrite hunk_line_deletion.
    destruct (nth_error O (orig_idx st)) as [l |] eqn:Hl; [| reflexivity].
    now rewrite (Hneq l t eq_refl Hne).
  - cbn [line_step]. rewrite body_line_not_hunk_header by discriminate.
    now rewrite hunk_line_deletion, Heq, String.eqb_refl.
Qed.

Lemma C2_mismatch_detection_witness :
  (run [ln "x"; "z"] Scanning [ln "@@ -1 +1 @@"] initial = Return (InHunk, initial)
   /\ Py.startswith (ln " y") " " = true
   /\ nth_error [ln "x"; "z"] (orig_idx initial) <> Some (Py.drop 1 (ln " y"))
   /\ apply_patch [ln "x"; "z"] ([ln "@@ -1 +1 @@"] ++ ln " y" :: [ln "+w"])
      = Exit context_mismatch)
  /\ (Py.startswith "-x" "-" = true
      /\ nth_error [ln "x"; "z"] (orig_idx initial) <> Some (Py.drop 1 "-x")
      /\ apply_patch [ln "x"; "z"] ([ln "@@ -1 +1 @@"] ++ "-x" :: [ln "+w"])
         = Exit removal_mismatch).
Proof.
  assert (Hr : run [ln "x"; "z"] Scanning [ln "@@ -1 +1 @@"] initial
               = Return (InHunk, initial)) by reflexivity.
  assert (H1 : nth_error [ln "x"; "z"] (orig_idx initial)
               <> Some (Py.drop 1 (ln " y"))) by discriminate.
  assert (H2 : nth_error [ln "x"; "z"] (orig_idx initial) <> Some (Py.drop 1 "-x"))
    by discriminate.
  split.
  - split; [exact Hr |]. split; [reflexivity |]. split; [exact H1 |].
    exact (proj1 (proj1 (C2_mismatch_detection [ln "x"; "z"] [ln "@@ -1 +1 @@"]
                           [ln "+w"] (ln " y") initial Hr) eq_refl) H1).
  - split; [reflexivity |]. split; [exact H2 |].
    exact (proj1 (proj2 (C2_mismatch_detection [ln "x"; "z"] [ln "@@ -1 +1 @@"]
                           [ln "+w"] "-x" initial Hr) eq_refl) H2).
Defined.

(** C3, at a failing input: a hunk header whose old start lies beyond the
    end of the original makes the copy loop read [original_lines[1]] of a
    one-line original, and the applier ends in an uncaught [IndexError]. *)
Theorem C3_copy_reads_past_the_end :
  parse_hunk_header (ln "@@ -3 +3 @@") = Some 2%Z
  /\ apply_patch [ln "a"]
       [ln "--- a"; ln "+++ b"; ln "@@ -3 +3 @@"; ln "-c"; ln "+C"]
     = IndexError.
Proof. split; vm_compute; reflexivity. Qed.

(** C4, as stated, fails: inside a hunk body a line that begins with "+++"
    is an insertion line, whose payload is put into the result, so that the
    applier does not do what it does on the patch without that line; and a
    line that begins with "diff " is rejected. *)
Lemma C4_counterexample :
  Py.startswith_any "+++ b" diff_headers = true
  /\ apply_patch [] (["@@ -0,0 +1 @@"] ++ "+++ b" :: []) = Return ["++ b"]
  /\ apply_patch [] (["@@ -0,0 +1 @@"] ++ []) = Return []
  /\ apply_patch [] (["@@ -0,0 +1 @@"] ++ "+++ b" :: [])
     <> apply_patch [] (["@@ -0,0 +1 @@"] ++ [])
  /\ Py.startswith_any "diff x" diff_headers = true
  /\ apply_patch [] (["@@ -0,0 +1 @@"] ++ "diff x" :: [])
     = Exit (unexpected_patch_line "diff x").
Proof.
  split; [reflexivity |]. split; [reflexivity |]. split; [reflexivity |].
  split; [vm_compute; discriminate |]. split; reflexivity.
Qed.

(** C4, amended. A line that begins with "---", "+++", "diff " or "index "
    and comes before the first hunk header of the patch is skipped and
    otherwise ignored: the applier does what it does on the patch without
    that line. *)
Theorem C4_header_lines_skipped (O pre post : list string) (line : string) :
  Py.startswith_any line diff_headers = true ->
  Forall (fun l => Py.startswith l "@@" = false) pre ->
  apply_patch O (pre ++ line :: post) = apply_patch O (pre ++ post).
Proof.
  intros Hl Hpre. rewrite !apply_patch_run, !run_app.
  destruct (run_before_first_hunk O pre initial Hpre) as [-> | [msg ->]];
    [| reflexivity].
  cbn [bind fst snd]. rewrite run_cons. cbn [line_step].
  now rewrite scan_line_diff_header.
Qed.

Lemma C4_header_lines_skipped_witness :
  Py.startswith_any (ln "index 1..2") diff_headers = true
  /\ Forall (fun l => Py.startswith l "@@" = false) [ln "--- a"]
  /\ apply_patch [ln "a"]
       ([ln "--- a"] ++ ln "index 1..2" :: [ln "@@ -1 +1 @@"; ln "-a"; ln "+b"])
     = apply_patch [ln "a"] ([ln "--- a"] ++ [ln "@@ -1 +1 @@"; ln "-a"; ln "+b"]).
Proof.
  assert (H1 : Py.startswith_any (ln "index 1..2") diff_headers = true)
    by reflexivity.
  assert (H2 : Forall (fun l => Py.startswith l "@@" = false) [ln "--- a"])
    by (repeat constructor).
  split; [exact H1 |]. split; [exact H2 |].
  exact (C4_header_lines_skipped [ln "a"] [ln "--- a"]
           [ln "@@ -1 +1 @@"; ln "-a"; ln "+b"] (ln "index 1..2") H1 H2).
Defined.

(** C5. Identity: a patch without hunk headers, that is an empty patch or
    one made only of the recognized header lines, returns the original
    unchanged. *)
Theorem C5_identity (O P : list string) :
  Forall (fun l => Py.startswith_any l diff_headers = true) P ->
  apply_patch O P = Return O.
Proof.
  intros H. rewrite apply_patch_run, run_diff_headers by exact H. reflexivity.
Qed.

Lemma C5_identity_witness :
  Forall (fun l => Py.startswith_any l diff_headers = true)
    [ln "diff --git a/f b/f"; ln "index 1..2"; ln "--- a/f"; ln "+++ b/f"]
  /\ apply_patch [ln "a"; "b"]
       [ln "diff --git a/f b/f"; ln "index 1..2"; ln "--- a/f"; ln "+++ b/f"]
     = Return [ln "a"; "b"].
Proof.
  assert (H : Forall (fun l => Py.startswith_any l diff_headers = true)
                [ln "diff --git a/f b/f"; ln "index 1..2"; ln "--- a/f"; ln "+++ b/f"])
    by (repeat constructor).
  split; [exact H | exact (C5_identity [ln "a"; "b"] _ H)].
Defined.

(** C6. Tail preservation: when the applier succeeds, its result ends with
    the original lines from the cursor reached after the last hunk to the
    end of the original, unchanged and in order; what precedes them is the
    result built up to that point. *)
Theorem C6_tail_preservation (O P R : list string) :
  apply_patch O P = Return R ->
  exists m st,
    run O Scanning P initial = Return (m, st)
    /\ orig_idx st <= length O
    /\ R = result st ++ skipn (orig_idx st) O.
Proof.
  rewrite apply_patch_run. intros H.
  apply bind_Return_inv in H as ([m st] & Hr & H). cbn [snd] in H.
  injection H as <-. exists m, st. split; [exact Hr |]. split; [| reflexivity].
  eapply cursor_monotone_bounded; [exact Hr | apply Nat.le_0_l].
Qed.

Lemma C6_tail_preservation_witness :
  apply_patch [ln "a"; ln "b"; ln "c"; ln "d"] [ln "@@ -1,2 +1,2 @@"; ln "-a"; ln "+A"]
  = Return [ln "A"; ln "b"; ln "c"; ln "d"]
  /\ exists m st,
      run [ln "a"; ln "b"; ln "c"; ln "d"] Scanning
        [ln "@@ -1,2 +1,2 @@"; ln "-a"; ln "+A"] initial = Return (m, st)
      /\ orig_idx st <= 4
      /\ [ln "A"; ln "b"; ln "c"; ln "d"]
         = result st ++ skipn (orig_idx st) [ln "a"; ln "b"; ln "c"; ln "d"].
Proof.
  assert (H : apply_patch [ln "a"; ln "b"; ln "c"; ln "d"]
                [ln "@@ -1,2 +1,2 @@"; ln "-a"; ln "+A"]
              = Return [ln "A"; ln "b"; ln "c"; ln "d"]) by reflexivity.
  split; [exact H | exact (C6_tail_preservation _ _ _ H)].
Defined.

(** C7. Header malformation: a patch that contains a hunk-header line with
    a missing delimiter or a non-numeric old start never yields a result;
    and as soon as the applier reaches that line, in the outer loop or in a
    hunk body, it fails with the parse error that names the header, whatever
    follows. *)
Theorem C7_header_malformation (O P : list string) (line : string) :
  In line P -> malformed_by line ->
  (forall R, apply_patch O P <> Return R)
  /\ (forall pre post m st,
         P = pre ++ line :: post ->
         run O Scanning pre initial = Return (m, st) ->
         apply_patch O P = Exit (malformed_hunk_header line)).
Proof.
  intros Hin Hbad. apply malformed_by_iff in Hbad.
  assert (Hreach : forall pre post m st,
             P = pre ++ line :: post ->
             run O Scanning pre initial = Return (m, st) ->
             apply_patch O P = Exit (malformed_hunk_header line)).
  { intros pre post m st -> Hpre.
    rewrite apply_patch_run, run_app, Hpre; cbn [bind fst snd].
    rewrite run_cons, line_step_malformed by exact Hbad. reflexivity. }
  split; [| exact Hreach].
  intros R HR. apply in_split in Hin as (pre & post & HP).
  destruct (run O Scanning pre initial) as [[m st] | msg | ] eqn:Hpre.
  - rewrite (Hreach pre post m st HP Hpre) in HR. discriminate.
  - rewrite HP, apply_patch_run, run_app, Hpre in HR. discriminate.
  - rewrite HP, apply_patch_run, run_app, Hpre in HR. discriminate.
Qed.

Lemma C7_header_malformation_witness :
  In (ln "@@ -x,3 +1,3 @@") [ln "--- a"; ln "@@ -x,3 +1,3 @@"; ln " a"]
  /\ malformed_by (ln "@@ -x,3 +1,3 @@")
  /\ (forall R, apply_patch [ln "a"] [ln "--- a"; ln "@@ -x,3 +1,3 @@"; ln " a"]
                <> Return R)
  /\ apply_patch [ln "a"] [ln "--- a"; ln "@@ -x,3 +1,3 @@"; ln " a"]
     = Exit "Malformed hunk header: @@ -x,3 +1,3 @@".
Proof.
  assert (Hin : In (ln "@@ -x,3 +1,3 @@")
                  [ln "--- a"; ln "@@ -x,3 +1,3 @@"; ln " a"])
    by (right; left; reflexivity).
  assert (Hbad : malformed_by (ln "@@ -x,3 +1,3 @@"))
    by (eapply non_numeric; reflexivity).
  split; [exact Hin |]. split; [exact Hbad |].
  destruct (C7_header_malformation [ln "a"] _ _ Hin Hbad) as [Hno Hat].
  split; [exact Hno |].
  exact (Hat [ln "--- a"] [ln " a"] Scanning initial eq_refl eq_refl).
Defined.

(** C8. The scenario: applying the hunk "@@ -1,3 +1,3 @@" with the body
    [" a\n"; "-b\n"; "+B\n"; " c\n"] to ["a\n"; "b\n"; "c\n"] succeeds and
    returns ["a\n"; "B\n"; "c\n"]. *)
Theorem C8_scenario :
  apply_patch [ln "a"; ln "b"; ln "c"]
    ["@@ -1,3 +1,3 @@"; ln " a"; ln "-b"; ln "+B"; ln " c"]
  = Return [ln "a"; ln "B"; ln "c"].
Proof. vm_compute. reflexivity. Qed.

(** C9. Provenance: when the applier succeeds, every line of its result is
    a line of the original or the payload of an insertion line of the
    patch, that is the text after the leading "+" of a line of a hunk
    body. *)
Theorem C9_provenance (O P R : list string) :
  apply_patch O P = Return R ->
  Forall (fun l => In l O \/ inserted_by P l) R.
Proof.
  rewrite apply_patch_run. intros H.
  apply bind_Return_inv in H as ([m st] & Hr & H). cbn [snd] in H.
  injection H as <-.
  apply Forall_app; split.
  - apply (run_provenance O (fun l => In l O \/ inserted_by P l)
             (fun l Hl => or_introl Hl) P _ _ _ _ Hr (Nat.le_0_l _)).
    + intros pline Hin Hs. right. exists pline. now repeat split.
    + constructor.
  - apply Forall_forall; intros l Hl. left.
    rewrite <- (firstn_skipn (orig_idx st) O). apply in_or_app. now right.
Qed.

Lemma C9_provenance_witness :
  apply_patch [ln "a"; ln "b"] [ln "@@ -1,2 +1,2 @@"; ln "-a"; ln "+A"]
  = Return [ln "A"; ln "b"]
  /\ Forall (fun l => In l [ln "a"; ln "b"]
                      \/ inserted_by [ln "@@ -1,2 +1,2 @@"; ln "-a"; ln "+A"] l)
       [ln "A"; ln "b"].
Proof.
  assert (H : apply_patch [ln "a"; ln "b"] [ln "@@ -1,2 +1,2 @@"; ln "-a"; ln "+A"]
              = Return [ln "A"; ln "b"]) by reflexivity.
  split; [exact H | exact (C9_provenance _ _ _ H)].
Defined.

(** C10. A hunk header whose old start is at or before the cursor (an
    overlapping or out-of-order hunk, or the old start -1 of the old range
    "-0,0") raises no error: the copy loop does nothing, the cursor and the
    result are unchanged, and the lines that follow are applied as the
    body of the hunk from the current cursor. *)
Theorem C10_old_start_not_after_cursor (O pre post : list string) (line : string)
  (m : mode) (st : state) (old_start : Z) :
  Py.startswith line "@@" = true ->
  parse_hunk_header line = Some old_start ->
  (old_start <= Z.of_nat (orig_idx st))%Z ->
  copy_before_hunk O old_start st = Return st
  /\ line_step O m line st = Return (InHunk, st)
  /\ (run O Scanning pre initial = Return (m, st) ->
      run O Scanning (pre ++ line :: post) initial = run O InHunk post st).
Proof.
  intros Hs Hp Hle.
  assert (Hc : copy_before_hunk O old_start st = Return st)
    by now apply copy_before_hunk_noop.
  assert (Hl : line_step O m line st = Return (InHunk, st)).
  { assert (H : scan_line O line st = Return (InHunk, st)).
    { rewrite scan_line_hunk_header by exact Hs. unfold hunk_header.
      rewrite Hp. cbn [bind]. now rewrite Hc. }
    destruct m; cbn [line_step]; [exact H | now rewrite Hs]. }
  split; [exact Hc |]. split; [exact Hl |].
  intros Hpre. rewrite run_app, Hpre. cbn [bind fst snd].
  now rewrite run_cons, Hl.
Qed.

Lemma C10_old_start_not_after_cursor_witness :
  Py.startswith (ln "@@ -0,0 +1 @@") "@@" = true
  /\ parse_hunk_header (ln "@@ -0,0 +1 @@") = Some (-1)%Z
  /\ (-1 <= Z.of_nat (orig_idx initial))%Z
  /\ copy_before_hunk [ln "b"] (-1) initial = Return initial
  /\ line_step [ln "b"] Scanning (ln "@@ -0,0 +1 @@") initial
     = Return (InHunk, initial)
  /\ run [ln "b"] Scanning ([ln "--- a"] ++ ln "@@ -0,0 +1 @@" :: [ln "+a"]) initial
     = run [ln "b"] InHunk [ln "+a"] initial.
Proof.
  assert (H1 : Py.startswith (ln "@@ -0,0 +1 @@") "@@" = true) by reflexivity.
  assert (H2 : parse_hunk_header (ln "@@ -0,0 +1 @@") = Some (-1)%Z) by reflexivity.
  assert (H3 : (-1 <= Z.of_nat (orig_idx initial))%Z) by (cbn; lia).
  destruct (C10_old_start_not_after_cursor [ln "b"] [ln "--- a"] [ln "+a"]
              (ln "@@ -0,0 +1 @@") Scanning initial (-1) H1 H2 H3)
    as (Hc & Hl & Hrun).
  split; [exact H1 |]. split; [exact H2 |]. split; [exact H3 |].
  split; [exact Hc |]. split; [exact Hl |]. exact (Hrun eq_refl).
Defined.

(* ================================================================= *)
(** * Properties of the rest of the code *)

(** ** [read_lines] and [write_lines] *)

(** X1. Writing the lines of a text one after the other gives the text
    back: what [read_lines] splits, [write_lines] joins to the same text,
    whatever the line terminators are and whether or not the last line has
    one. *)
Theorem X1_join_splitlines (text : string) :
  Text.join (Text.splitlines text) = text.
Proof. apply TextFacts.join_splitlines. Qed.

(** X2. Through a file and back: the lines [write_lines] joins and
    writes, read again as [read_lines] reads, with the translation of line
    ends of a text-mode read, are the same list of lines exactly when it
    is a list [splitlines] can return (every line is one line and only the
    last may lack its terminator) and no line holds a carriage return.
    The text is taken to be written as it is, as it is where the line
    separator of the platform is the line feed. *)
Theorem X2_lines_read_back (lines : list string) :
  Text.splitlines (Text.universal_newlines (Text.join lines)) = lines
  <-> Text.well_split lines && forallb Text.has_no_CR lines = true.
Proof. apply TextFacts.lines_through_a_file. Qed.

(** ** [apply_patch]: what it rejects *)

(** X3. Before the first hunk header, a line that is neither one of the
    four header lines nor a hunk header ends the run with the message
    "Unexpected patch content", whatever follows it. *)
Theorem X3_unexpected_content (O pre post : list string) (line : string) :
  Forall (fun l => Py.startswith_any l diff_headers = true) pre ->
  Py.startswith_any line diff_headers = false ->
  Py.startswith line "@@" = false ->
  apply_patch O (pre ++ line :: post) = Exit (unexpected_patch_content line).
Proof.
  intros Hpre Hd Hat.
  rewrite apply_patch_run, run_app, (run_diff_headers O pre initial Hpre).
  cbn [bind fst snd]. rewrite run_cons. cbn [line_step]. unfold scan_line.
  now rewrite Hd, Hat.
Qed.

Lemma X3_unexpected_content_witness :
  apply_patch [ln "a"]
    ([ln "--- a"; ln "+++ b"] ++ ln "new file mode 100644"
                                 :: [ln "@@ -1 +1 @@"; ln "-a"; ln "+A"])
  = Exit (unexpected_patch_content (ln "new file mode 100644")).
Proof.
  apply X3_unexpected_content; [repeat constructor | reflexivity | reflexivity].
Defined.

(** X4. In a hunk body, a line that starts with none of "@@", " ", "-" and
    "+" ends the run with the message "Unexpected patch line": an empty
    line and the marker "\ No newline at end of file" are such lines. *)
Theorem X4_unexpected_body_line (O pre post R : list string) (line : string) :
  apply_patch O pre = Return R ->
  existsb (fun l => Py.startswith l "@@") pre = true ->
  Py.startswith_any line body_marks = false ->
  apply_patch O (pre ++ line :: post) = Exit (unexpected_patch_line line).
Proof.
  intros Hpre Hhunk Hline.
  unfold Py.startswith_any, body_marks in Hline. cbn [existsb] in Hline.
  apply orb_false_elim in Hline as [Hat Hline].
  apply orb_false_elim in Hline as [Hc Hline].
  apply orb_false_elim in Hline as [Hd Hline].
  apply orb_false_elim in Hline as [Hi _].
  rewrite apply_patch_run in Hpre.
  destruct (run O Scanning pre initial) as [[m st] | msg |] eqn:Hrun;
    try discriminate Hpre.
  pose proof (run_mode O pre _ _ _ _ Hrun (Nat.le_0_l _)) as Hm.
  rewrite Hhunk in Hm. subst m.
  rewrite apply_patch_run, run_app, Hrun. cbn [bind fst snd].
  rewrite run_cons. cbn [line_step]. rewrite Hat. unfold hunk_line.
  now rewrite Hc, Hd, Hi.
Qed.

Lemma X4_unexpected_body_line_witness :
  apply_patch [ln "a"]
    ([ln "@@ -1 +1 @@"; ln "-a"; "+A"] ++ "\ No newline at end of file" :: [])
  = Exit (unexpected_patch_line "\ No newline at end of file").
Proof.
  apply (X4_unexpected_body_line [ln "a"] _ _ ["A"]); reflexivity.
Defined.

(** X5. The applier ends with an uncaught [IndexError] exactly when it
    reaches a hunk header whose old start lies beyond the end of the
    original: the copy loop is the only place that reads the original
    without a test, and the lines of a hunk body never raise. *)
Theorem X5_index_error_iff (O P : list string) :
  apply_patch O P = IndexError
  <-> exists pre line post m st old_start,
        P = pre ++ line :: post
        /\ run O Scanning pre initial = Return (m, st)
        /\ Py.startswith line "@@" = true
        /\ parse_hunk_header line = Some old_start
        /\ (Z.of_nat (length O) < old_start)%Z.
Proof.
  rewrite apply_patch_run. split.
  - intro H.
    destruct (run O Scanning P initial) as [[m st] | msg |] eqn:Hrun;
      try discriminate H.
    exact (run_IndexError O P Scanning initial Hrun (Nat.le_0_l _)).
  - intros (pre & line & post & m & st & s & -> & Hrun & Hat & Hp & Hs).
    now rewrite (run_past_the_end O pre post line Scanning m initial st s Hrun
                   (Nat.le_0_l _) Hat Hp Hs).
Qed.

(** X6. The first failure decides: when the applier fails on the first
    lines of a patch, it fails in the same way whatever lines follow. *)
Theorem X6_first_failure_decides (O pre post : list string) :
  failed (apply_patch O pre) = true ->
  apply_patch O (pre ++ post) = apply_patch O pre.
Proof.
  rewrite !apply_patch_run, run_app.
  destruct (run O Scanning pre initial) as [[m st] | msg |];
    cbn [bind failed]; [discriminate | reflexivity | reflexivity].
Qed.

Lemma X6_first_failure_decides_witness :
  apply_patch [ln "a"] ([ln "@@ -1 +1 @@"; ln "-b"] ++ [ln "+B"])
  = apply_patch [ln "a"] [ln "@@ -1 +1 @@"; ln "-b"].
Proof. apply X6_first_failure_decides. reflexivity. Defined.

(** ** [apply_patch]: what a patch that applies does *)

(** X7. The lengths add up: the result has the lines of the original, less
    one for every deletion line of the hunk bodies, plus one for every
    insertion line.  The counts in the hunk headers play no part. *)
Theorem X7_length_accounting (O P R : list string) :
  apply_patch O P = Return R ->
  length R + deletions P = length O + insertions P.
Proof.
  rewrite apply_patch_run. intro H.
  apply bind_Return_inv in H as ([m st] & Hrun & H). cbn [snd] in H.
  injection H as <-.
  pose proof (run_accounting O P _ _ _ _ Hrun (Nat.le_0_l _)) as Hacc.
  destruct (cursor_monotone_bounded O P _ _ _ _ Hrun (Nat.le_0_l _)) as [_ Hb].
  cbn [initial orig_idx result length] in Hacc.
  unfold deletions, insertions. rewrite length_app, length_skipn. lia.
Qed.

Lemma X7_length_accounting_witness :
  apply_patch [ln "a"; ln "b"; ln "c"]
    [ln "@@ -1,3 +1,4 @@"; ln " a"; ln "-b"; ln "+B"; ln "+C"; ln " c"]
  = Return [ln "a"; ln "B"; ln "C"; ln "c"]
  /\ length [ln "a"; ln "B"; ln "C"; ln "c"]
     + deletions [ln "@@ -1,3 +1,4 @@"; ln " a"; ln "-b"; ln "+B"; ln "+C"; ln " c"]
     = length [ln "a"; ln "b"; ln "c"]
       + insertions [ln "@@ -1,3 +1,4 @@"; ln " a"; ln "-b"; ln "+B"; ln "+C"; ln " c"].
Proof.
  split; [reflexivity |]. apply X7_length_accounting. reflexivity.
Defined.

(** X8. A patch whose hunk bodies hold neither an insertion nor a deletion
    line changes nothing: when it applies, the result is the original. *)
Theorem X8_no_change_patch (O P R : list string) :
  apply_patch O P = Return R ->
  insertions P = 0 -> deletions P = 0 ->
  R = O.
Proof.
  rewrite apply_patch_run. intros H Hins Hdel.
  apply bind_Return_inv in H as ([m st] & Hrun & H). cbn [snd] in H.
  injection H as <-.
  destruct (run_unchanged O P _ _ _ _ Hrun (Nat.le_0_l _) Hins Hdel eq_refl)
    as [-> _].
  apply firstn_skipn.
Qed.

Lemma X8_no_change_patch_witness :
  apply_patch [ln "a"; ln "b"; ln "c"]
    [ln "--- a"; ln "+++ b"; ln "@@ -2,2 +2,2 @@"; ln " b"; ln " c"]
  = Return [ln "a"; ln "b"; ln "c"]
  /\ insertions [ln "--- a"; ln "+++ b"; ln "@@ -2,2 +2,2 @@"; ln " b"; ln " c"] = 0
  /\ deletions [ln "--- a"; ln "+++ b"; ln "@@ -2,2 +2,2 @@"; ln " b"; ln " c"] = 0
  /\ [ln "a"; ln "b"; ln "c"] = [ln "a"; ln "b"; ln "c"].
Proof.
  split; [reflexivity |]. split; [reflexivity |]. split; [reflexivity |].
  apply (X8_no_change_patch [ln "a"; ln "b"; ln "c"]
           [ln "--- a"; ln "+++ b"; ln "@@ -2,2 +2,2 @@"; ln " b"; ln " c"]);
    reflexivity.
Defined.

(** X9. No line of the original is lost: when the patch applies, every
    line of the original is a line of the result or the payload of a
    deletion line of the patch. *)
Theorem X9_no_line_lost (O P R : list string) :
  apply_patch O P = Return R ->
  Forall (fun l => In l R \/ deleted_by P l) O.
Proof.
  rewrite apply_patch_run. intro H.
  apply bind_Return_inv in H as ([m st] & Hrun & H). cbn [snd] in H.
  injection H as <-.
  destruct (run_conservation O (deleted_by P) P _ _ _ _ Hrun (Nat.le_0_l _))
    as [_ Hkept].
  - intros pline Hin Hd. now exists pline.
  - intros l [].
  - apply Forall_forall. intros l Hin.
    rewrite <- (firstn_skipn (orig_idx st) O) in Hin.
    apply in_app_or in Hin as [Hin | Hin].
    + destruct (Hkept l Hin) as [Hres | Hdel]; [left | now right].
      apply in_or_app. now left.
    + left. apply in_or_app. now right.
Qed.

Lemma X9_no_line_lost_witness :
  apply_patch [ln "a"; ln "b"; ln "c"]
    [ln "@@ -1,3 +1,3 @@"; ln " a"; ln "-b"; ln "+B"]
  = Return [ln "a"; ln "B"; ln "c"]
  /\ Forall (fun l => In l [ln "a"; ln "B"; ln "c"]
                      \/ deleted_by [ln "@@ -1,3 +1,3 @@"; ln " a"; ln "-b"; ln "+B"] l)
       [ln "a"; ln "b"; ln "c"].
Proof.
  split; [reflexivity |]. apply X9_no_line_lost. reflexivity.
Defined.

(** X10. Lines added after the end of the original do not disturb a patch
    that applies: it applies to the longer original as well, and the added
    lines follow the result. *)
Theorem X10_lines_after_the_end (O E P R : list string) :
  apply_patch O P = Return R ->
  apply_patch (O ++ E) P = Return (R ++ E).
Proof.
  rewrite !apply_patch_run. intro H.
  apply bind_Return_inv in H as ([m st] & Hrun & H). cbn [snd] in H.
  injection H as <-.
  destruct (cursor_monotone_bounded O P _ _ _ _ Hrun (Nat.le_0_l _)) as [_ Hb].
  rewrite (run_frame O E P _ _ _ Hrun). cbn [bind snd].
  rewrite skipn_app, <- app_assoc.
  now replace (orig_idx st - length O) with 0 by lia.
Qed.

Lemma X10_lines_after_the_end_witness :
  apply_patch ([ln "a"; ln "b"] ++ [ln "y"; ln "z"])
    [ln "@@ -1,2 +1,2 @@"; ln "-a"; ln "+A"; ln " b"]
  = Return ([ln "A"; ln "b"] ++ [ln "y"; ln "z"]).
Proof. apply X10_lines_after_the_end. reflexivity. Defined.

(** ** [main] *)

Section Main.

Variable world : Type.
Variable path : Type.
Variable Path : string -> path.
Variable path_str : path -> string.
Variable path_exists : path -> world -> bool.
Variable read_text : path -> world -> string + string.
Variable suffix : path -> string.
Variable with_suffix : path -> string -> option path.
Variable rename : path -> path -> world -> option world.
Variable write_text : path -> string -> world -> world * option string.

Local Abbreviation script :=
  (main world path Path path_str path_exists read_text suffix with_suffix
     rename write_text).

(** X11. The script leaves the files alone unless the patch applies: when
    the arguments are wrong, a file is missing or cannot be read, or
    [apply_patch] fails in any way, the run ends with the file system it
    started in.  Only a patch that applies to the whole original leads to
    the backup and to the write. *)
Theorem X11_files_kept_unless_patch_applies (argv : list string) (now : nat)
  (w : world) :
  fs world (snd (script argv now w)) = w
  \/ exists a0 original_file patch_file original_text patch_text patched_lines,
       argv = [a0; original_file; patch_file]
       /\ read_text (Path original_file) w = inl original_text
       /\ read_text (Path patch_file) w = inl patch_text
       /\ apply_patch (Text.splitlines original_text)
                      (Text.splitlines patch_text)
          = Return patched_lines.
Proof.
  unfold main.
  destruct argv as [| a0 [| original_file [| patch_file [| ? ?]]]];
    try (left; reflexivity).
  cbn [fs].
  destruct (path_exists (Path original_file) w); [| left; reflexivity].
  destruct (path_exists (Path patch_file) w); [| left; reflexivity].
  cbn [negb]. unfold read_lines. cbn [fs].
  destruct (read_text (Path original_file) w) as [original_text | e] eqn:Ho;
    [| left; reflexivity].
  destruct (read_text (Path patch_file) w) as [patch_text | e] eqn:Hp;
    [| left; reflexivity].
  destruct (apply_patch (Text.splitlines original_text)
              (Text.splitlines patch_text)) as [patched_lines | msg |] eqn:Ha;
    [| left; reflexivity | left; reflexivity].
  right. now exists a0, original_file, patch_file, original_text, patch_text,
           patched_lines.
Qed.

(** X12. From one text to the other, through the files: let the patch
    file hold the lines of the unified diff between the original text and
    a target text (at least one line of context, the line terminator
    ["\n"], file names and dates without line breaks), and let both texts
    end their last line.  Then the script renames the original to the
    backup and calls [write_text] with exactly the target text; how the run
    ends only depends on whether that call raises. *)
Theorem X12_end_to_end (a0 original_file patch_file : string)
  (original_text target_text fromfile tofile fromfiledate tofiledate : string)
  (n now : nat) (patch : list string) (w w' : world) (backup_path : path) :
  1 <= n ->
  Text.ends_with_newline original_text = true ->
  Text.ends_with_newline target_text = true ->
  all_chars Text.is_plain fromfile = true ->
  all_chars Text.is_plain tofile = true ->
  all_chars Text.is_plain fromfiledate = true ->
  all_chars Text.is_plain tofiledate = true ->
  Difflib.unified_diff (Text.splitlines original_text)
    (Text.splitlines target_text) fromfile tofile fromfiledate tofiledate n
    (String LF EmptyString) = Some patch ->
  path_exists (Path original_file) w = true ->
  path_exists (Path patch_file) w = true ->
  read_text (Path original_file) w = inl original_text ->
  read_text (Path patch_file) w = inl (Text.join patch) ->
  with_suffix (Path original_file)
    (suffix (Path original_file) ++ ".bak." ++ Py.str now) = Some backup_path ->
  rename (Path original_file) backup_path w = Some w' ->
  script [a0; original_file; patch_file] now w
  = let (w'', raised) := write_text (Path original_file) target_text w' in
    match raised with
    | None =>
        (Done,
         {| fs := w'';
            stdout := ["Applying patch...";
                       ("Backup created: " ++ path_str backup_path)%string;
                       "Patch applied successfully."];
            stderr := [] |})
    | Some e =>
        (SystemExit 1,
         {| fs := w'';
            stdout := ["Applying patch...";
                       ("Backup created: " ++ path_str backup_path)%string];
            stderr := [("ERROR: " ++ "Failed to write "
                        ++ path_str (Path original_file) ++ ": " ++ e)%string] |})
    end.
Proof.
  intros Hn Ho Ht Hf Htf Hfd Htd Hdiff Hex1 Hex2 Hr1 Hr2 Hbak Hren.
  unfold Text.ends_with_newline in Ho, Ht.
  rewrite forallb_forall in Ho, Ht.
  unfold Difflib.unified_diff in Hdiff.
  destruct (get_opcodes_chain (Text.splitlines original_text)
              (Text.splitlines target_text)) as (codes & Hcodes & Hchain).
  rewrite Hcodes in Hdiff. injection Hdiff as <-.
  pose proof (round_trip_of_script _ _ codes fromfile tofile fromfiledate
                tofiledate n (String LF EmptyString) Hn Hchain) as Hround.
  pose proof (PatchText.unified_diff_patch_lines _ _
                (proj2 (Forall_forall _ _) Ho) (proj2 (Forall_forall _ _) Ht)
                codes fromfile tofile fromfiledate tofiledate n Hf Htf Hfd Htd)
    as Hlines.
  apply PatchText.well_split_patch_lines, TextFacts.splitlines_join in Hlines.
  unfold main. cbn [fs]. rewrite Hex1, Hex2. cbn [negb].
  unfold read_lines. cbn [fs]. rewrite Hr1, Hr2, Hlines, Hround.
  unfold print. cbn [fs stdout stderr]. rewrite Hbak, Hren.
  unfold write_lines. cbn [fs stdout stderr].
  rewrite TextFacts.join_splitlines.
  destruct (write_text (Path original_file) target_text w') as [w'' [e |]];
    reflexivity.
Qed.

End Main.

Lemma X12_end_to_end_witness :
  let original_text := Text.join [ln "a"; ln "b"; ln "c"] in
  let target_text := Text.join [ln "a"; ln "B"; ln "c"] in
  let patch_text :=
    Text.join [ln "--- a.sh"; ln "+++ b.sh"; ln "@@ -1,3 +1,3 @@";
               ln " a"; ln "-b"; ln "+B"; ln " c"] in
  let w : Toy.world := fun p =>
    if String.eqb p "a.sh" then Some original_text
    else if String.eqb p "a.patch" then Some patch_text
    else None in
  let w' := fs _ (snd (Toy.run_main ["patcher"; "a.sh"; "a.patch"] 12 w)) in
  fst (Toy.run_main ["patcher"; "a.sh"; "a.patch"] 12 w) = Done
  /\ w' "a.sh" = Some target_text
  /\ w' "a.sh.bak.12" = Some original_text.
Proof.
  intros original_text target_text patch_text w w'. subst w'.
  unfold Toy.run_main.
  rewrite (X12_end_to_end Toy.world string (fun s => s) (fun p => p)
             Toy.path_exists Toy.read_text Toy.suffix Toy.with_suffix
             Toy.rename Toy.write_text
             "patcher" "a.sh" "a.patch" original_text target_text
             "a.sh" "b.sh" "" "" 3 12
             [ln "--- a.sh"; ln "+++ b.sh"; ln "@@ -1,3 +1,3 @@";
              ln " a"; ln "-b"; ln "+B"; ln " c"]
             w
             (fun x => if String.eqb x "a.sh.bak.12" then Some original_text
                       else if String.eqb x "a.sh" then None else w x)
             "a.sh.bak.12");
    try reflexivity; [| lia].
  vm_compute. repeat split; reflexivity.
Defined.

(** ** [auto_patch.py] *)

(** X13. The preview of [auto_patch.py] is always computed, and it says
    "No differences detected" exactly when the lines of the original file
    are the lines of [PATCH_CONTENT]; otherwise it shows a diff that is
    not empty. *)
Theorem X13_no_differences_iff_equal (orig_lines : list string)
  (PATCH_CONTENT : string) :
  exists printed,
    AutoPatch.preview orig_lines PATCH_CONTENT = Some printed
    /\ (printed = [AutoPatch.no_differences]
        <-> orig_lines = Text.splitlines PATCH_CONTENT).
Proof. apply preview_no_differences. Qed.

(** X14. When there are differences, the preview runs the two file header
    lines and the first hunk header together on one line: the diff is
    computed with the empty line terminator and its lines are joined with
    nothing between them. *)
Theorem X14_preview_headers_run_together (orig_lines : list string)
  (PATCH_CONTENT : string) :
  orig_lines <> Text.splitlines PATCH_CONTENT ->
  exists rest,
    AutoPatch.diff_text orig_lines PATCH_CONTENT
    = Some ("--- admin_rescue_original.sh+++ admin_rescue_patched.sh@@ -"
            ++ rest)%string.
Proof.
  intro Hne. unfold AutoPatch.diff_text, Difflib.unified_diff.
  destruct (get_opcodes_chain orig_lines (Text.splitlines PATCH_CONTENT))
    as (codes & -> & Hchain).
  pose proof (round_trip_of_script _ _ codes AutoPatch.ORIGINAL_FILE
                AutoPatch.PATCHED_FILE "" "" 3 "" ltac:(lia) Hchain) as Hround.
  unfold Difflib.unified_diff_of_opcodes in *.
  destruct (Difflib.get_grouped_opcodes 3 codes) as [| g gs].
  - exfalso. apply Hne. rewrite apply_patch_run in Hround.
    cbn in Hround. now injection Hround.
  - cbn [flat_map Difflib.hunk_lines app Text.join].
    eexists. f_equal.
    cbn [AutoPatch.ORIGINAL_FILE AutoPatch.PATCHED_FILE Difflib.date_suffix
         append].
    repeat (rewrite string_app_assoc; cbn [append]). reflexivity.
Qed.

Lemma X14_preview_headers_run_together_witness :
  AutoPatch.diff_text [ln "a"; ln "b"] (Text.join [ln "a"; ln "B"])
  = Some ("--- admin_rescue_original.sh+++ admin_rescue_patched.sh@@ -"
          ++ Text.join ["1,2 +1,2 @@"; ln " a"; ln "-b"; ln "+B"])%string
  /\ exists rest,
      AutoPatch.diff_text [ln "a"; ln "b"] (Text.join [ln "a"; ln "B"])
      = Some ("--- admin_rescue_original.sh+++ admin_rescue_patched.sh@@ -"
              ++ rest)%string.
Proof.
  split; [reflexivity |].
  apply X14_preview_headers_run_together. vm_compute. discriminate.
Defined.

(** X15. When the original file holds the very text of [PATCH_CONTENT],
    the script still shows differences unless the text has no carriage
    return and every line boundary other than the line feed is its last
    character: the file is read in text mode, which turns carriage
    returns into line feeds, and split by [readlines], at line feeds only,
    while [PATCH_CONTENT] is split by [splitlines], which keeps the
    carriage returns and also splits at form feeds and the like. *)
Theorem X15_same_text_no_differences_iff (content : string) :
  AutoPatch.preview (AutoPatch.orig_lines_of content) content
  = Some [AutoPatch.no_differences]
  <-> Text.has_no_CR content && AutoPatch.newline_only content = true.
Proof.
  rewrite <- ReadLines.orig_lines_splitlines.
  destruct (preview_no_differences (AutoPatch.orig_lines_of content) content)
    as (printed & -> & Hiff).
  rewrite <- Hiff. split; [intro H; now injection H | intros ->; reflexivity].
Qed.
